(** * N-dimensional Minesweeper ([mines.py]): model and verification

    The Python program keeps a game in a dictionary whose [board] and
    [hidden] entries are nested lists addressed by coordinate tuples.
    Python values are dynamically typed, so the model uses one type of
    values; list indexing follows Python (negative indices count from the
    end, anything else out of range raises [IndexError]); exceptions are
    an explicit result type; the in-place updates are written as
    functions that return the updated container. *)

From Stdlib Require Import ZArith Lia.
From stdpp Require Import base tactics option list numbers strings pretty relations.

Local Open Scope Z_scope.

(** ** Python values and exceptions *)

#[warnings="-register-all"]
Inductive value : Type :=
| VInt (z : Z)
| VBool (b : bool)
| VStr (s : string)
| VList (l : list value).

Inductive exn : Type := IndexError | TypeError.

Inductive result (A : Type) : Type :=
| Ok (a : A)
| Raise (e : exn).
Arguments Ok {A} a.
Arguments Raise {A} e.

Global Instance result_ret : MRet result := λ A a, Ok a.
Global Instance result_bind : MBind result := λ A B f m,
  match m with Ok a => f a | Raise e => Raise e end.

Global Instance exn_eq_dec : EqDecision exn.
Proof. solve_decision. Defined.
Global Instance result_eq_dec {A} `{EqDecision A} : EqDecision (result A).
Proof. solve_decision. Defined.

(** A coordinate, a mine location and the dimensions are tuples of ints. *)
Abbreviation coord := (list Z).

(** The mine marker stored in a board cell. *)
Definition mine : value := VStr ".".

(** [seq[i]] for a sequence of length [len]: the position that Python
    reads, or [IndexError]. *)
Definition norm_index (len : nat) (i : Z) : result nat :=
  if bool_decide (0 ≤ i < Z.of_nat len) then Ok (Z.to_nat i)
  else if bool_decide (- Z.of_nat len ≤ i < 0) then Ok (Z.to_nat (Z.of_nat len + i))
  else Raise IndexError.

(** [t[i]] on a tuple of ints. *)
Definition tuple_get (t : list Z) (i : Z) : result Z :=
  k ← norm_index (length t) i;
  match t !! k with Some x => Ok x | None => Raise IndexError end.

(** [v[i]]: lists and strings can be indexed, ints and bools cannot. *)
Definition get_item (v : value) (i : Z) : result value :=
  match v with
  | VList l =>
      k ← norm_index (length l) i;
      match l !! k with Some x => Ok x | None => Raise IndexError end
  | VStr s =>
      k ← norm_index (String.length s) i;
      Ok (VStr (String.substring k 1 s))
  | VInt _ | VBool _ => Raise TypeError
  end.

(** [v[i] = x]: only lists support item assignment. *)
Definition set_item (v : value) (i : Z) (x : value) : result value :=
  match v with
  | VList l => k ← norm_index (length l) i; Ok (VList (<[k:=x]> l))
  | VStr _ | VInt _ | VBool _ => Raise TypeError
  end.

(** [v + val] for an int [val] ([bool] is a subclass of [int]). *)
Definition py_add (v : value) (val : Z) : result value :=
  match v with
  | VInt a => Ok (VInt (a + val))
  | VBool b => Ok (VInt (Z.b2z b + val))
  | VStr _ | VList _ => Raise TypeError
  end.

(** Truth value of an object, as [not x] and [if x] read it. *)
Definition truthy (v : value) : bool :=
  match v with
  | VInt z => negb (z =? 0)
  | VBool b => b
  | VStr s => negb (String.eqb s "")
  | VList l => match l with [] => false | _ :: _ => true end
  end.

(** [v == w]: ints and bools compare as numbers, strings and lists
    with their own kind, everything else is unequal. *)
Fixpoint py_eq (v w : value) {struct v} : bool :=
  match v, w with
  | VInt a, VInt b => a =? b
  | VInt a, VBool b => a =? Z.b2z b
  | VBool a, VInt b => Z.b2z a =? b
  | VBool a, VBool b => Z.b2z a =? Z.b2z b
  | VStr s, VStr t => String.eqb s t
  | VList l, VList m =>
      (fix eq_all (l : list value) (m : list value) {struct l} : bool :=
         match l, m with
         | [], [] => true
         | x :: l', y :: m' => py_eq x y && eq_all l' m'
         | _, _ => false
         end) l m
  | _, _ => false
  end.

(** ** Grid access: [get_val], [set_val], [update_pos] *)

Fixpoint get_val (board : value) (coords : coord) : result value :=
  match coords with
  | [] => Raise IndexError
  | c :: rest =>
      match rest with
      | [] => get_item board c
      | _ :: _ => sub ← get_item board c; get_val sub rest
      end
  end.

(** The Python code mutates the innermost list in place; here every
    level is written back, which gives the same nested list as long as
    no list object occurs twice in the grid. *)
Fixpoint set_val (board : value) (coords : coord) (val : value) : result value :=
  match coords with
  | [] => Raise IndexError
  | c :: rest =>
      match rest with
      | [] => set_item board c val
      | _ :: _ =>
          sub ← get_item board c;
          sub' ← set_val sub rest val;
          set_item board c sub'
      end
  end.

Fixpoint update_pos (board : value) (coords : coord) (val : Z) : result value :=
  match coords with
  | [] => Raise IndexError
  | c :: rest =>
      match rest with
      | [] =>
          old ← get_item board c;
          new ← py_add old val;
          set_item board c new
      | _ :: _ =>
          sub ← get_item board c;
          sub' ← update_pos sub rest val;
          set_item board c sub'
      end
  end.

(** ** Loops that may raise *)

Fixpoint foldM {A B} (f : B → A → result B) (acc : B) (l : list A) : result B :=
  match l with
  | [] => Ok acc
  | x :: l' => acc' ← f acc x; foldM f acc' l'
  end.

Fixpoint forM {A B} (l : list A) (f : A → result B) : result (list B) :=
  match l with
  | [] => Ok []
  | x :: l' => y ← f x; ys ← forM l' f; Ok (y :: ys)
  end.

(** ** Neighbor enumeration

    A Python [set] of tuples is modelled by a list without repetition,
    in order of insertion; [set_add] is [set.add]. The order in which
    [get_neighors_nd] walks its intermediate set only permutes the
    insertions, so it is taken in list order there; every loop over a
    returned set goes through [iter_order] (below). *)

Definition set_add (x : coord) (s : list coord) : list coord :=
  if bool_decide (x ∈ s) then s else s ++ [x].

(** The body of the inner loop [for neighbor in neighbors], where [x]
    is [location[index]]. *)
Definition extend_neighbor (dimensions : list Z) (index : Z) (x : Z)
    (new_neighbors : list coord) (neighbor : coord) : result (list coord) :=
  let s1 := if bool_decide (1 ≤ x)
            then set_add (neighbor ++ [x - 1]) new_neighbors
            else new_neighbors in
  d ← tuple_get dimensions index;
  let s2 := if bool_decide (x ≤ d - 2)
            then set_add (neighbor ++ [x + 1]) s1
            else s1 in
  Ok (set_add (neighbor ++ [x]) s2).

(** One round of the loop [for index in range(1, len(location))]. *)
Definition extend_axis (dimensions : list Z) (index : Z) (x : Z)
    (neighbors : list coord) : result (list coord) :=
  foldM (extend_neighbor dimensions index x) [] neighbors.

Fixpoint extend_axes (dimensions : list Z) (index : Z) (rest : list Z)
    (neighbors : list coord) : result (list coord) :=
  match rest with
  | [] => Ok neighbors
  | x :: rest' =>
      new_neighbors ← extend_axis dimensions index x neighbors;
      extend_axes dimensions (index + 1) rest' new_neighbors
  end.

Definition get_neighors_nd (dimensions : list Z) (location : coord) : result (list coord) :=
  match location with
  | [] => Raise IndexError
  | x :: rest =>
      let s1 := if bool_decide (1 ≤ x) then set_add [x - 1] [] else [] in
      d ← tuple_get dimensions 0;
      let s2 := if bool_decide (x ≤ d - 2) then set_add [x + 1] s1 else s1 in
      extend_axes dimensions 1 rest (set_add [x] s2)
  end.

(** ** The game state *)

Inductive game_state : Type := Ongoing | Defeat | Victory.

Record Game : Type := MkGame {
  dimensions : list Z;
  board : value;
  hidden : value;
  state : game_state;
  squares_left : Z
}.

Definition with_board (g : Game) (b : value) : Game :=
  MkGame (dimensions g) b (hidden g) (state g) (squares_left g).
Definition with_hidden (g : Game) (h : value) : Game :=
  MkGame (dimensions g) (board g) h (state g) (squares_left g).
Definition with_state (g : Game) (s : game_state) : Game :=
  MkGame (dimensions g) (board g) (hidden g) s (squares_left g).
Definition with_squares_left (g : Game) (n : Z) : Game :=
  MkGame (dimensions g) (board g) (hidden g) (state g) n.

(** ** Board construction *)

(** [total = 1; for dim in dimensions: total = total * dim]. *)
Definition total_cells (dimensions : list Z) : Z := foldl Z.mul 1 dimensions.

Fixpoint create_game_0 (dimensions : list Z) (bombs : list coord) : result Game :=
  match dimensions with
  | [] => Raise IndexError
  | d :: smaller_dim =>
      match smaller_dim with
      | [] =>
          board ← foldM (λ board bomb, b0 ← tuple_get bomb 0; set_item board b0 mine)
                        (VList (replicate (Z.to_nat d) (VInt 0))) bombs;
          Ok (MkGame dimensions board (VList (replicate (Z.to_nat d) (VBool true)))
                   Ongoing (total_cells dimensions - Z.of_nat (length bombs)))
      | _ :: _ =>
          games ← forM (seqZ 0 d) (λ i,
                     smaller_bombs ← foldM (λ acc bomb,
                                              b0 ← tuple_get bomb 0;
                                              Ok (if bool_decide (b0 = i)
                                                  then acc ++ [tail bomb] else acc))
                                           [] bombs;
                     create_game_0 smaller_dim smaller_bombs);
          Ok (MkGame dimensions (VList (board <$> games)) (VList (hidden <$> games))
                   Ongoing (total_cells dimensions - Z.of_nat (length bombs)))
      end
  end.

Section Mines.

(** The order in which a [for] loop visits a set is not fixed by the
    elements alone; it is a parameter of the model, about which only
    this is known: every element is visited once. *)
Variable iter_order : list coord → list coord.
Hypothesis iter_order_perm : ∀ s, iter_order s ≡ₚ s.

Definition update_bombs_nd (board : value) (bombs : list coord) (dimensions : list Z)
    : result value :=
  foldM (λ board bomb,
           neighbors ← get_neighors_nd dimensions bomb;
           foldM (λ board neighbor,
                    if bool_decide (neighbor ∈ bombs) then Ok board
                    else update_pos board neighbor 1)
                 board (iter_order neighbors))
        board bombs.

Definition new_game_nd (dimensions : list Z) (bombs : list coord) : result Game :=
  game ← create_game_0 dimensions bombs;
  board ← update_bombs_nd (board game) bombs dimensions;
  Ok (with_board game board).

Definition new_game_2d (num_rows num_cols : Z) (bombs : list coord) : result Game :=
  new_game_nd [num_rows; num_cols] bombs.

(** ** The dig engine *)

(** [for neighbor in neighbors: revealed += dig_nd(game, neighbor)],
    with [dig] the recursive call. *)
Fixpoint dig_each (dig : Game → coord → option (result Z * Game))
    (neighbors : list coord) (game : Game) (revealed : Z) : option (result Z * Game) :=
  match neighbors with
  | [] => Some (Ok revealed, game)
  | neighbor :: rest =>
      match dig game neighbor with
      | None => None
      | Some (Raise e, game') => Some (Raise e, game')
      | Some (Ok n, game') => dig_each dig rest game' (revealed + n)
      end
  end.

(** The body of [dig_nd], with [dig] for the recursive call. It gives
    the value returned or the exception raised, together with the game
    as the call leaves it. The board is read three times in the source
    and does not change in between: it is read once here. *)
Definition dig_step (dig : Game → coord → option (result Z * Game))
    (game : Game) (coordinates : coord) : option (result Z * Game) :=
  match state game with
  | Defeat | Victory => Some (Ok 0, game)
  | Ongoing =>
      match get_val (hidden game) coordinates with
      | Raise e => Some (Raise e, game)
      | Ok h =>
          if negb (truthy h) then Some (Ok 0, game) else
          match set_val (hidden game) coordinates (VBool false) with
          | Raise e => Some (Raise e, game)
          | Ok hidden' =>
              let game := with_hidden game hidden' in
              match get_val (board game) coordinates with
              | Raise e => Some (Raise e, game)
              | Ok cell =>
                  let game :=
                    if negb (py_eq cell mine)
                    then with_squares_left game (squares_left game - 1)
                    else game in
                  if py_eq cell mine then Some (Ok 1, with_state game Defeat)
                  else if bool_decide (squares_left game = 0)
                  then Some (Ok 1, with_state game Victory)
                  else if py_eq cell (VInt 0) then
                    match get_neighors_nd (dimensions game) coordinates with
                    | Raise e => Some (Raise e, game)
                    | Ok neighbors => dig_each dig (iter_order neighbors) game 1
                    end
                  else Some (Ok 1, game)
              end
          end
      end
  end.

(** [dig_nd], with a bound on the depth of the recursion: [None] when
    the calls nest deeper than [fuel]. The interpreter's own limit on
    the depth of recursion is not part of the model. *)
Fixpoint dig_nd (fuel : nat) : Game → coord → option (result Z * Game) :=
  match fuel with
  | O => λ _ _, None
  | S fuel' => dig_step (dig_nd fuel')
  end.

Definition dig_2d (fuel : nat) (game : Game) (row col : Z) : option (result Z * Game) :=
  dig_nd fuel game [row; col].

End Mines.

(** ** Rendering *)

(** [str(v)]. The text of a list is the [repr] of its elements, with
    Python's quoting of strings; the model leaves it out ([None]). *)
Definition py_str (v : value) : option string :=
  match v with
  | VInt z => Some (pretty z)
  | VBool b => Some (if b then "True" else "False")
  | VStr s => Some s
  | VList _ => None
  end.

(** [forM] for a body that may also leave the model. *)
Fixpoint forM_opt {A B} (l : list A) (f : A → option (result B)) : option (result (list B)) :=
  match l with
  | [] => Some (Ok [])
  | x :: l' =>
      match f x with
      | None => None
      | Some (Raise e) => Some (Raise e)
      | Some (Ok y) =>
          match forM_opt l' f with
          | None => None
          | Some (Raise e) => Some (Raise e)
          | Some (Ok ys) => Some (Ok (y :: ys))
          end
      end
  end.

(** The body of [render_nd]; it reads the fields [dimensions], [board]
    and [hidden] only, and the recursive call gets the sub-grids
    [game["board"][index]] and [game["hidden"][index]]. *)
Fixpoint render_grid (dimensions : list Z) (board hidden : value) (xray : bool)
    : option (result value) :=
  match dimensions with
  | [] => Some (Raise IndexError)
  | d :: smaller_dim =>
      match smaller_dim with
      | [] =>
          match forM_opt (seqZ 0 d) (λ coord,
                  match get_val hidden [coord] with
                  | Raise e => Some (Raise e)
                  | Ok h =>
                      if py_eq h (VBool true) && negb xray then Some (Ok (VStr "_"))
                      else match get_val board [coord] with
                           | Raise e => Some (Raise e)
                           | Ok cell =>
                               if py_eq cell (VInt 0) then Some (Ok (VStr " "))
                               else match py_str cell with
                                    | Some s => Some (Ok (VStr s))
                                    | None => None
                                    end
                           end
                  end) with
          | Some (Ok locations) => Some (Ok (VList locations))
          | Some (Raise e) => Some (Raise e)
          | None => None
          end
      | _ :: _ =>
          match forM_opt (seqZ 0 d) (λ index,
                  match get_item board index with
                  | Raise e => Some (Raise e)
                  | Ok sub_board =>
                      match get_item hidden index with
                      | Raise e => Some (Raise e)
                      | Ok sub_hidden => render_grid smaller_dim sub_board sub_hidden xray
                      end
                  end) with
          | Some (Ok locations) => Some (Ok (VList locations))
          | Some (Raise e) => Some (Raise e)
          | None => None
          end
      end
  end.

Definition render_nd (game : Game) (xray : bool) : option (result value) :=
  render_grid (dimensions game) (board game) (hidden game) xray.

Definition render_2d_locations (game : Game) (xray : bool) : option (result value) :=
  render_nd game xray.

(** ** The 2-D board as text *)

(** The elements a [for] loop takes from an object: those of a list,
    the characters of a string; ints and bools are not iterable. *)
Definition py_iter (v : value) : result (list value) :=
  match v with
  | VList l => Ok l
  | VStr s => Ok ((λ a, VStr (String a EmptyString)) <$> String.list_ascii_of_string s)
  | VInt _ | VBool _ => Raise TypeError
  end.

(** [len(v)]. *)
Definition py_len (v : value) : result Z :=
  match v with
  | VList l => Ok (Z.of_nat (length l))
  | VStr s => Ok (Z.of_nat (String.length s))
  | VInt _ | VBool _ => Raise TypeError
  end.

(** [string += val]: [val] has to be a string too. The accumulator
    [string] of the source is [text] here. *)
Definition str_add (text : string) (val : value) : result string :=
  match val with
  | VStr s => Ok (text +:+ s)
  | VInt _ | VBool _ | VList _ => Raise TypeError
  end.

(** The line separator ["\n"]. *)
Definition newline : string := String (Ascii.ascii_of_nat 10) EmptyString.

(** The loop [for index, row in enumerate(updated)] of
    [render_2d_board], from the row [index] on. *)
Fixpoint render_rows (game : Game) (index : Z) (rows : list value) (text : string)
    : result string :=
  match rows with
  | [] => Ok text
  | row :: rest =>
      vals ← py_iter row;
      text ← foldM str_add text vals;
      n ← py_len (board game);
      render_rows game (index + 1) rest
                  (if bool_decide (index ≠ n - 1) then text +:+ newline else text)
  end.

Definition render_2d_board (game : Game) (xray : bool) : option (result string) :=
  match render_2d_locations game xray with
  | None => None
  | Some (Raise e) => Some (Raise e)
  | Some (Ok updated) =>
      Some (rows ← py_iter updated; render_rows game 0 rows "")
  end.

(** * Specification-side notions *)

(** A coordinate with one index per axis, each within [0, dim-1]. *)
Definition in_range (dims : list Z) (c : coord) : Prop :=
  Forall2 (λ d x, 0 ≤ x < d) dims c.

(** Dimensions of a board: at least one axis, every extent positive. *)
Definition valid_dims (dims : list Z) : Prop :=
  dims ≠ [] ∧ Forall (λ d, 0 < d) dims.

(** A nested list with the extents [dims]; below the last axis the
    cells are arbitrary values. *)
Fixpoint has_shape (dims : list Z) (v : value) : Prop :=
  match dims with
  | [] => True
  | d :: ds => ∃ l, v = VList l ∧ Z.of_nat (length l) = d ∧ Forall (has_shape ds) l
  end.

(** Every coordinate of a board, outermost axis first. *)
Fixpoint all_coords (dims : list Z) : list coord :=
  match dims with
  | [] => [[]]
  | d :: ds => i ← seqZ 0 d; (λ c, i :: c) <$> all_coords ds
  end.

(** Two coordinates that differ by at most 1 on every axis. *)
Definition adjacent (c n : coord) : Prop :=
  Forall2 (λ x y, -1 ≤ y - x ≤ 1) c n.

Global Instance valid_dims_dec dims : Decision (valid_dims dims).
Proof. unfold valid_dims. apply _. Defined.
Global Instance in_range_dec dims c : Decision (in_range dims c).
Proof. unfold in_range. apply _. Defined.
Global Instance adjacent_dec c n : Decision (adjacent c n).
Proof. unfold adjacent. apply _. Defined.

(** The geometric neighbors of a cell: the cells of the board adjacent
    to it, the cell itself excluded. *)
Definition geometric_neighbors (dims : list Z) (c : coord) : list coord :=
  filter (λ n, adjacent c n ∧ n ≠ c) (all_coords dims).

(** What [get_neighors_nd] offers on one axis of extent [d] around the
    index [x]: [x] itself, [x-1] unless [x] is 0 or less, [x+1] unless
    that leaves the axis. *)
Definition axis_choice (d x y : Z) : Prop :=
  y = x ∨ (y = x - 1 ∧ 1 ≤ x) ∨ (y = x + 1 ∧ x ≤ d - 2).

(** Specification of the neighbor set, in the words of the design:
    shift every axis by -1, 0 or +1 independently, then discard what
    lies outside the board. *)
Fixpoint shifts (c : coord) : list coord :=
  match c with
  | [] => [[]]
  | x :: xs => y ← [x - 1; x; x + 1]; (λ s, y :: s) <$> shifts xs
  end.

Definition shifted_in_bounds (dims : list Z) (c : coord) : list coord :=
  filter (in_range dims) (shifts c).

(** The position a Python index names on an axis of extent [d]: a
    negative index counts from the end of the axis. *)
Definition wrap_index (d x : Z) : Z := if bool_decide (x < 0) then d + x else x.

Definition wrap_coord (dims : list Z) (c : coord) : coord := zip_with wrap_index dims c.

(** Every index is accepted by Python for its axis. *)
Definition in_wrap_range (dims : list Z) (c : coord) : Prop :=
  Forall2 (λ d x, - d ≤ x < d) dims c.

Global Instance in_wrap_range_dec dims c : Decision (in_wrap_range dims c).
Proof. unfold in_wrap_range. apply _. Defined.

(** The mines of row [i]: the tails of the mine coordinates that start
    with [i], in their order. *)
Definition row_bombs (i : Z) (bombs : list coord) : list coord :=
  omap (λ b, match b with
             | b0 :: t => if bool_decide (b0 = i) then Some t else None
             | [] => None
             end) bombs.

(** What [create_game_0] builds: zeros, the mine marker at the mines,
    everything hidden. *)
Definition fresh_game (dims : list Z) (bombs : list coord) (g : Game) : Prop :=
  dimensions g = dims ∧ state g = Ongoing ∧
  squares_left g = total_cells dims - Z.of_nat (length bombs) ∧
  has_shape dims (board g) ∧ has_shape dims (hidden g) ∧
  ∀ c, in_range dims c →
       get_val (board g) c = Ok (if bool_decide (c ∈ bombs) then mine else VInt 0) ∧
       get_val (hidden g) c = Ok (VBool true).

(** A board of extents [dims] with the mine marker at the mines and the
    number [cnt c] in every other cell [c]. *)
Definition counted (dims : list Z) (bombs : list coord) (cnt : coord → Z)
    (b : value) : Prop :=
  has_shape dims b ∧
  ∀ c, in_range dims c →
       get_val b c = Ok (if bool_decide (c ∈ bombs) then mine else VInt (cnt c)).

Definition occurrences (c : coord) (l : list coord) : Z :=
  Z.of_nat (length (filter (λ n, n = c) l)).

(** Number of mines in the list (with repetition) adjacent to [c]. *)
Definition adjacent_bombs (bombs : list coord) (c : coord) : Z :=
  Z.of_nat (length (filter (λ b, adjacent b c) bombs)).

(** Whether the cell at [c] holds the mine marker. *)
Definition is_mine_at (b : value) (c : coord) : bool :=
  match get_val b c with
  | Ok v => py_eq v mine
  | Raise _ => false
  end.

(** Number of mine cells among the geometric neighbors of [c]. *)
Definition mines_around (dims : list Z) (b : value) (c : coord) : Z :=
  Z.of_nat (length (filter (λ n, is_mine_at b n = true) (geometric_neighbors dims c))).

(** Whether the [hidden] entry at [c] is [True]. *)
Definition is_hidden (h : value) (c : coord) : bool :=
  match get_val h c with
  | Ok (VBool true) => true
  | _ => false
  end.

(** The cells not yet revealed, and those of them that hold no mine. *)
Definition hidden_cells (g : Game) : list coord :=
  filter (λ c, is_hidden (hidden g) c = true) (all_coords (dimensions g)).

Definition hidden_safe_cells (g : Game) : list coord :=
  filter (λ c, is_hidden (hidden g) c = true ∧ is_mine_at (board g) c = false)
         (all_coords (dimensions g)).

(** A game whose two grids have the shape of its dimensions and whose
    [hidden] grid holds booleans. *)
Definition wf_game (g : Game) : Prop :=
  valid_dims (dimensions g) ∧
  has_shape (dimensions g) (board g) ∧
  has_shape (dimensions g) (hidden g) ∧
  ∀ c, in_range (dimensions g) c → ∃ b, get_val (hidden g) c = Ok (VBool b).

(** A sequence of [dig_nd] calls on one game, as a caller makes them
    one after the other; an exception ends the sequence. *)
Fixpoint dig_seq (iter_order : list coord → list coord) (fuel : nat) (g : Game)
    (cs : list coord) : option (result Game) :=
  match cs with
  | [] => Some (Ok g)
  | c :: cs' =>
      match dig_nd iter_order fuel g c with
      | None => None
      | Some (Raise e, _) => Some (Raise e)
      | Some (Ok _, g') => dig_seq iter_order fuel g' cs'
      end
  end.

(** What a call may change: the shapes, the dimensions and the board
    stay, no cell becomes hidden again, and [squares_left] moves with
    the number of hidden safe cells. *)
Definition dig_post (g g' : Game) : Prop :=
  wf_game g' ∧ dimensions g' = dimensions g ∧ board g' = board g ∧
  (length (hidden_cells g') ≤ length (hidden_cells g))%nat ∧
  squares_left g' - Z.of_nat (length (hidden_safe_cells g')) =
  squares_left g - Z.of_nat (length (hidden_safe_cells g)).

(** The symbol [s] shown for a cell, given whether it is hidden and
    what the board holds there: ['_'] exactly for a hidden cell without
    xray; otherwise ['.'] for a mine, a space for 0, and the decimal
    text of any other count. *)
Definition symbol_ok (xray hid : bool) (cell : value) (s : string) : Prop :=
  (s = "_" ↔ xray = false ∧ hid = true) ∧
  (¬ (xray = false ∧ hid = true) →
     (cell = mine → s = ".") ∧
     (cell = VInt 0 → s = " ") ∧
     (∀ n, n ≠ 0 → cell = VInt n → s = pretty n)).

(** Every cell of a grid satisfies [P]. *)
Definition cells_satisfy (dims : list Z) (v : value) (P : value → Prop) : Prop :=
  ∀ c, in_range dims c → ∃ x, get_val v c = Ok x ∧ P x.

(** The board holds the mine marker or an int in every cell. *)
Definition board_cells (dims : list Z) (b : value) : Prop :=
  cells_satisfy dims b (λ cell, cell = mine ∨ ∃ n, cell = VInt n).

(** The hidden mask holds a boolean in every cell. *)
Definition hidden_cells_bool (dims : list Z) (h : value) : Prop :=
  cells_satisfy dims h (λ x, ∃ hid, x = VBool hid).

Definition rendered (xray : bool) (b h r : value) (c : coord) : Prop :=
  ∃ s hid cell, get_val r c = Ok (VStr s) ∧ get_val h c = Ok (VBool hid) ∧
                get_val b c = Ok cell ∧ symbol_ok xray hid cell s.

(** ** Every traversal order at once: the outcomes of a dig *)

(** The outcomes of the loop over the neighbors, when [dig] lists the
    possible outcomes of the recursive call. *)
Fixpoint dig_each_all (dig : Game → coord → list (option (result Z * Game)))
    (neighbors : list coord) (game : Game) (revealed : Z)
    : list (option (result Z * Game)) :=
  match neighbors with
  | [] => [Some (Ok revealed, game)]
  | neighbor :: rest =>
      r ← dig game neighbor;
      match r with
      | None => [None]
      | Some (Raise e, game') => [Some (Raise e, game')]
      | Some (Ok n, game') => dig_each_all dig rest game' (revealed + n)
      end
  end.

(** [dig_step] with the neighbor set walked in every possible order. *)
Definition dig_step_all (dig : Game → coord → list (option (result Z * Game)))
    (game : Game) (coordinates : coord) : list (option (result Z * Game)) :=
  match state game with
  | Defeat | Victory => [Some (Ok 0, game)]
  | Ongoing =>
      match get_val (hidden game) coordinates with
      | Raise e => [Some (Raise e, game)]
      | Ok h =>
          if negb (truthy h) then [Some (Ok 0, game)] else
          match set_val (hidden game) coordinates (VBool false) with
          | Raise e => [Some (Raise e, game)]
          | Ok hidden' =>
              let game := with_hidden game hidden' in
              match get_val (board game) coordinates with
              | Raise e => [Some (Raise e, game)]
              | Ok cell =>
                  let game :=
                    if negb (py_eq cell mine)
                    then with_squares_left game (squares_left game - 1)
                    else game in
                  if py_eq cell mine then [Some (Ok 1, with_state game Defeat)]
                  else if bool_decide (squares_left game = 0)
                  then [Some (Ok 1, with_state game Victory)]
                  else if py_eq cell (VInt 0) then
                    match get_neighors_nd (dimensions game) coordinates with
                    | Raise e => [Some (Raise e, game)]
                    | Ok neighbors =>
                        order ← permutations neighbors;
                        dig_each_all dig order game 1
                    end
                  else [Some (Ok 1, game)]
              end
          end
      end
  end.

Fixpoint dig_nd_all (fuel : nat) : Game → coord → list (option (result Z * Game)) :=
  match fuel with
  | O => λ _ _, [None]
  | S fuel' => dig_step_all (dig_nd_all fuel')
  end.

(** ** Concrete games *)

Definition example_bombs : list coord := [[0; 0]; [1; 0]; [1; 1]].

Definition example_board : value :=
  VList [VList [mine; VInt 3; VInt 1; VInt 0];
         VList [mine; mine; VInt 1; VInt 0]].

Definition grid_2x4 (a0 a1 a2 a3 b0 b1 b2 b3 : bool) : value :=
  VList [VList [VBool a0; VBool a1; VBool a2; VBool a3];
         VList [VBool b0; VBool b1; VBool b2; VBool b3]].

(** The game right after [new_game_nd((2, 4), [(0,0), (1,0), (1,1)])]. *)
Definition example_game : Game :=
  MkGame [2; 4] example_board
         (grid_2x4 true true true true true true true true) Ongoing 5.

(** The same game after [dig_nd(game, (0, 3))]. *)
Definition example_game_dug : Game :=
  MkGame [2; 4] example_board
         (grid_2x4 true true false false true true false false) Ongoing 1.

(** The game of the docstring of [dig_2d]: the cell (0, 1) is already
    revealed and four safe squares are left. *)
Definition docstring_game : Game :=
  MkGame [2; 4] example_board
         (grid_2x4 true false true true true true true true) Ongoing 4.

Definition docstring_game_dug : Game :=
  MkGame [2; 4] example_board
         (grid_2x4 true false false false true true false false) Victory 0.

Definition identity_order (s : list coord) : list coord := s.

(** A game built from a mine whose index is negative: Python counts
    the index from the end of the axis. *)
Definition negative_mine_game : Game :=
  MkGame [3] (VList [VInt 1; VInt 0; mine])
         (VList [VBool true; VBool true; VBool true]) Ongoing 2.

(** A game built from a mine beyond the last row: [create_game_0]
    places no marker for it, and [squares_left] still counts it. *)
Definition outside_mine_game : Game :=
  MkGame [2; 1] (VList [VList [VInt 0]; VList [VInt 1]])
         (VList [VList [VBool true]; VList [VBool true]]) Ongoing 1.

Definition small_grid : value :=
  VList [VList [VInt 1; VInt 2]; VList [VInt 3; VInt 4]].

(** One safe square is left, at (1). *)
Definition last_square_game : Game :=
  MkGame [2] (VList [mine; VInt 1]) (VList [VBool true; VBool true]) Ongoing 1.

Ltac by_decide := apply (bool_decide_unpack _); vm_compute; exact I.

(** ** Vocabulary of the further properties *)

(** One reveal as [dig_nd] performs it, without the cascade: in an
    ongoing game the hidden cell at [c] is uncovered; a mine ends the
    game in defeat, any other cell takes one off [squares_left], and
    the last one ends the game in victory. [None] when [dig_nd] would
    reveal nothing there. *)
Definition reveal_at (g : Game) (c : coord) : option Game :=
  match state g with
  | Ongoing =>
      match get_val (hidden g) c, set_val (hidden g) c (VBool false),
            get_val (board g) c with
      | Ok h, Ok hidden', Ok cell =>
          if truthy h then
            Some (if py_eq cell mine
                  then with_state (with_hidden g hidden') Defeat
                  else if bool_decide (squares_left g - 1 = 0)
                       then with_state
                              (with_squares_left (with_hidden g hidden')
                                                 (squares_left g - 1)) Victory
                       else with_squares_left (with_hidden g hidden')
                                              (squares_left g - 1))
          else None
      | _, _, _ => None
      end
  | Defeat | Victory => None
  end.

(** What one reveal at [c] changes between [g] and [g']. *)
Definition revealed_one (g : Game) (c : coord) (g' : Game) : Prop :=
  state g = Ongoing ∧
  wf_game g' ∧ dimensions g' = dimensions g ∧ board g' = board g ∧
  is_hidden (hidden g) c = true ∧ is_hidden (hidden g') c = false ∧
  (∀ x, in_range (dimensions g) x → x ≠ c →
        is_hidden (hidden g') x = is_hidden (hidden g) x) ∧
  (if is_mine_at (board g) c
   then state g' = Defeat ∧ squares_left g' = squares_left g
   else squares_left g' = squares_left g - 1 ∧
        state g' = if bool_decide (squares_left g - 1 = 0) then Victory else Ongoing).

(** A reveal at some cell of the board that satisfies [Q]. *)
Definition reveal_step (Q : coord → Prop) (g g' : Game) : Prop :=
  ∃ c, Q c ∧ in_range (dimensions g) c ∧ reveal_at g c = Some g'.

(** [Q] holds for every neighbor of a cell that satisfies [Q] and
    holds the count 0: a cascade that starts in [Q] stays in [Q]. *)
Definition cascade_closed (g : Game) (Q : coord → Prop) : Prop :=
  ∀ c n cell, in_range (dimensions g) c → Q c →
              get_val (board g) c = Ok cell → py_eq cell (VInt 0) = true →
              in_range (dimensions g) n → adjacent c n → Q n.

(** The state is in step with the board: [squares_left] counts the
    hidden cells without a mine and is 0 exactly in a won game, and the
    game is lost exactly when a mine is revealed. *)
Definition game_inv (g : Game) : Prop :=
  wf_game g ∧
  (squares_left g = 0 ↔ state g = Victory) ∧
  (state g = Defeat ↔ ∃ c, in_range (dimensions g) c ∧
                           is_mine_at (board g) c = true ∧
                           is_hidden (hidden g) c = false) ∧
  squares_left g = Z.of_nat (length (hidden_safe_cells g)).

(** Around every cell with the count 0 that is hidden in [g] and
    revealed in [g'], the cells of the board are revealed in [g']. *)
Definition newly_closed (g g' : Game) : Prop :=
  ∀ z cell x, in_range (dimensions g) z →
              is_hidden (hidden g) z = true → is_hidden (hidden g') z = false →
              get_val (board g) z = Ok cell → py_eq cell (VInt 0) = true →
              in_range (dimensions g) x → adjacent z x →
              is_hidden (hidden g') x = false.

(** Around every revealed cell with the count 0 the cells of the board
    are revealed. *)
Definition zero_closed (g : Game) : Prop :=
  ∀ z cell x, in_range (dimensions g) z → is_hidden (hidden g) z = false →
              get_val (board g) z = Ok cell → py_eq cell (VInt 0) = true →
              in_range (dimensions g) x → adjacent z x →
              is_hidden (hidden g) x = false.

(** A mine with fewer indices than the board has axes, each of them
    within its axis. *)
Definition short_mine (dims : list Z) (b : coord) : Prop :=
  (length b < length dims)%nat ∧
  Forall2 (λ d x, 0 ≤ x < d) (take (length b) dims) b.

Global Instance short_mine_dec dims b : Decision (short_mine dims b).
Proof. unfold short_mine. apply _. Defined.

(** Some mine of the board is revealed. *)
Definition mine_revealed (g : Game) : Prop :=
  ∃ c, in_range (dimensions g) c ∧
       is_mine_at (board g) c = true ∧ is_hidden (hidden g) c = false.

(** Every cell of the board that holds no mine is revealed. *)
Definition all_safe_revealed (g : Game) : Prop :=
  ∀ c, in_range (dimensions g) c →
       is_mine_at (board g) c = false → is_hidden (hidden g) c = false.

(** The rows of a 2-D rendering as Python values. *)
Definition symbol_rows (rows : list (list string)) : value :=
  VList ((λ row, VList (VStr <$> row)) <$> rows).

(** The symbols of a row, one after the other. *)
Definition row_text (row : list string) : string := foldl String.append "" row.

(** Lines joined by the line separator, none after the last. *)
Fixpoint join_lines (lines : list string) : string :=
  match lines with
  | [] => ""
  | line :: rest =>
      match rest with
      | [] => line
      | _ :: _ => line +:+ newline +:+ join_lines rest
      end
  end.

(** ** Checks that compute *)

(** [has_shape], as a test. *)
Fixpoint has_shape_b (dims : list Z) (v : value) : bool :=
  match dims with
  | [] => true
  | d :: ds =>
      match v with
      | VList l => bool_decide (Z.of_nat (length l) = d) && forallb (has_shape_b ds) l
      | VInt _ | VBool _ | VStr _ => false
      end
  end.

(** [wf_game], as a test. *)
Definition wf_game_b (g : Game) : bool :=
  bool_decide (valid_dims (dimensions g)) &&
  has_shape_b (dimensions g) (board g) &&
  has_shape_b (dimensions g) (hidden g) &&
  forallb (λ c, match get_val (hidden g) c with Ok (VBool _) => true | _ => false end)
          (all_coords (dimensions g)).

(** The sets that [get_neighors_nd] returns on the 2 by 4 board for the
    corner (0, 3) and for the cell (1, 2). *)
Definition corner_neighbors : list coord := [[1; 2]; [1; 3]; [0; 2]; [0; 3]].

Definition inner_neighbors : list coord :=
  [[0; 1]; [0; 3]; [0; 2]; [1; 1]; [1; 3]; [1; 2]].

(** The 2 by 4 board as [create_game_0] leaves it, before the counts. *)
Definition example_board_0 : value :=
  VList [VList [mine; VInt 0; VInt 0; VInt 0];
         VList [mine; mine; VInt 0; VInt 0]].

(** The grid [small_grid] after 9 is written at (1, 0). *)
Definition small_grid_9 : value :=
  VList [VList [VInt 1; VInt 2]; VList [VInt 9; VInt 4]].

(** * Indexing inside the bounds *)

Lemma norm_index_in_range len i :
  0 ≤ i < Z.of_nat len → norm_index len i = Ok (Z.to_nat i).
Proof. intros H. unfold norm_index. by rewrite bool_decide_eq_true_2. Qed.

Lemma norm_index_negative len i :
  - Z.of_nat len ≤ i < 0 → norm_index len i = Ok (Z.to_nat (Z.of_nat len + i)).
Proof.
  intros H. unfold norm_index.
  rewrite bool_decide_eq_false_2 by lia. by rewrite bool_decide_eq_true_2.
Qed.

Lemma norm_index_outside len i :
  i < - Z.of_nat len ∨ Z.of_nat len ≤ i → norm_index len i = Raise IndexError.
Proof.
  intros H. unfold norm_index.
  rewrite bool_decide_eq_false_2 by lia. by rewrite bool_decide_eq_false_2 by lia.
Qed.

Lemma norm_index_lt len i k : norm_index len i = Ok k → (k < len)%nat.
Proof.
  unfold norm_index. repeat case_bool_decide; intros; simplify_eq; lia.
Qed.

Lemma get_item_in_range l i :
  0 ≤ i < Z.of_nat (length l) →
  ∃ x, l !! Z.to_nat i = Some x ∧ get_item (VList l) i = Ok x.
Proof.
  intros H. destruct (lookup_lt_is_Some_2 l (Z.to_nat i)) as [x Hx]; [lia|].
  exists x. split; [done|]. simpl. rewrite norm_index_in_range by done. simpl.
  by rewrite Hx.
Qed.

Lemma set_item_in_range l i x :
  0 ≤ i < Z.of_nat (length l) →
  set_item (VList l) i x = Ok (VList (<[Z.to_nat i := x]> l)).
Proof. intros H. simpl. by rewrite norm_index_in_range. Qed.

(** * Grid access on a well-shaped grid *)

Lemma in_range_cons_inv d ds c :
  in_range (d :: ds) c → ∃ x xs, c = x :: xs ∧ 0 ≤ x < d ∧ in_range ds xs.
Proof.
  intros H. apply Forall2_cons_inv_l in H as (x & xs & ? & ? & ->). eauto.
Qed.

Lemma in_range_length dims c : in_range dims c → length c = length dims.
Proof. intros H. symmetry. by eapply Forall2_length. Qed.

Lemma in_range_nil_inv c : in_range [] c → c = [].
Proof. apply Forall2_nil_inv_l. Qed.

Lemma bind_ok {A B} (f : A → result B) a : (Ok a ≫= f) = f a.
Proof. done. Qed.

Lemma bind_raise {A B} (f : A → result B) e : (Raise e ≫= f) = Raise e.
Proof. done. Qed.

Lemma get_val_cons v x y ys :
  get_val v (x :: y :: ys) = sub ← get_item v x; get_val sub (y :: ys).
Proof. done. Qed.

Lemma set_val_cons v x y ys val :
  set_val v (x :: y :: ys) val =
  sub ← get_item v x; sub' ← set_val sub (y :: ys) val; set_item v x sub'.
Proof. done. Qed.

Lemma update_pos_cons v x y ys k :
  update_pos v (x :: y :: ys) k =
  sub ← get_item v x; sub' ← update_pos sub (y :: ys) k; set_item v x sub'.
Proof. done. Qed.

(** [update_pos] reads the cell, adds, and writes it back. *)
Lemma update_pos_get_set c : ∀ v k,
  update_pos v c k = old ← get_val v c; new ← py_add old k; set_val v c new.
Proof.
  induction c as [|x xs IH]; intros v k; [done|].
  destruct xs as [|x' xs]; [done|].
  rewrite update_pos_cons, get_val_cons.
  destruct (get_item v x) as [sub|e] eqn:Hsub; [|done].
  rewrite !bind_ok, IH.
  destruct (get_val sub (x' :: xs)) as [old|e]; [|done]. rewrite !bind_ok.
  destruct (py_add old k) as [new|e]; [|done]. rewrite !bind_ok.
  by rewrite set_val_cons, Hsub.
Qed.

Lemma has_shape_lookup d ds l k x :
  has_shape (d :: ds) (VList l) → l !! k = Some x → has_shape ds x.
Proof.
  intros (l' & [= <-] & _ & Hall) Hk. by eapply Forall_lookup_1 in Hall.
Qed.

Lemma get_val_one v x : get_val v [x] = get_item v x.
Proof. done. Qed.

Lemma set_val_one v x val : set_val v [x] val = set_item v x val.
Proof. done. Qed.

Lemma get_item_insert_eq l i x :
  0 ≤ i < Z.of_nat (length l) →
  get_item (VList (<[Z.to_nat i := x]> l)) i = Ok x.
Proof.
  intros H. unfold get_item.
  rewrite norm_index_in_range by (rewrite length_insert; lia).
  rewrite bind_ok, list_lookup_insert_eq; [done|lia].
Qed.

Lemma get_item_insert_ne l i j x :
  0 ≤ i < Z.of_nat (length l) → 0 ≤ j < Z.of_nat (length l) → i ≠ j →
  get_item (VList (<[Z.to_nat i := x]> l)) j = get_item (VList l) j.
Proof.
  intros Hi Hj Hne. unfold get_item.
  rewrite !norm_index_in_range by (rewrite ?length_insert; lia).
  rewrite !bind_ok, list_lookup_insert_ne; [done|lia].
Qed.

Lemma get_val_in_range dims : ∀ v c,
  dims ≠ [] → has_shape dims v → in_range dims c → ∃ x, get_val v c = Ok x.
Proof.
  induction dims as [|d ds IH]; intros v c Hne Hv Hc; [done|].
  apply in_range_cons_inv in Hc as (x & xs & -> & Hx & Hxs).
  destruct Hv as (l & -> & Hlen & Hall).
  destruct (get_item_in_range l x) as (sub & Hk & Hget); [lia|].
  destruct ds as [|d' ds'].
  - apply in_range_nil_inv in Hxs as ->. rewrite get_val_one. eauto.
  - pose proof Hxs as Hxs'.
    apply in_range_cons_inv in Hxs' as (x' & xs' & -> & _ & _).
    rewrite get_val_cons, Hget, bind_ok. apply IH; [done| |done].
    by eapply Forall_lookup_1 in Hall.
Qed.

Lemma set_val_in_range dims : ∀ v c x,
  dims ≠ [] → has_shape dims v → in_range dims c →
  ∃ v', set_val v c x = Ok v' ∧ has_shape dims v' ∧ get_val v' c = Ok x ∧
        ∀ c', in_range dims c' → c' ≠ c → get_val v' c' = get_val v c'.
Proof.
  induction dims as [|d ds IH]; intros v c val Hne Hv Hc; [done|].
  apply in_range_cons_inv in Hc as (x & xs & -> & Hx & Hxs).
  destruct Hv as (l & -> & Hlen & Hall).
  destruct (get_item_in_range l x) as (sub & Hk & Hget); [lia|].
  destruct ds as [|d' ds'].
  - apply in_range_nil_inv in Hxs as ->.
    exists (VList (<[Z.to_nat x := val]> l)). split_and!.
    + rewrite set_val_one. apply set_item_in_range. lia.
    + exists (<[Z.to_nat x := val]> l). rewrite length_insert.
      split_and!; [done|done|]. by apply Forall_true.
    + rewrite get_val_one. apply get_item_insert_eq. lia.
    + intros c' Hc' Hneq.
      apply in_range_cons_inv in Hc' as (y & ys & -> & Hy & Hys).
      apply in_range_nil_inv in Hys as ->. rewrite !get_val_one.
      apply get_item_insert_ne; [lia|lia|]. intros ->. done.
  - pose proof Hxs as Hxs'.
    apply in_range_cons_inv in Hxs' as (x' & xs' & -> & _ & _).
    assert (has_shape (d' :: ds') sub) as Hsub by (by eapply Forall_lookup_1 in Hall).
    destruct (IH sub (x' :: xs') val) as (sub' & Hset & Hsh' & Hsame & Hother);
      [done|done|done|].
    exists (VList (<[Z.to_nat x := sub']> l)). split_and!.
    + rewrite set_val_cons, Hget, bind_ok, Hset, bind_ok.
      apply set_item_in_range. lia.
    + exists (<[Z.to_nat x := sub']> l). rewrite length_insert.
      split_and!; [done|done|]. by apply Forall_insert.
    + rewrite get_val_cons, get_item_insert_eq by lia. by rewrite bind_ok.
    + intros c' Hc' Hneq.
      apply in_range_cons_inv in Hc' as (y & ys & -> & Hy & Hys).
      pose proof Hys as Hys'.
      apply in_range_cons_inv in Hys' as (y' & ys' & -> & _ & _).
      rewrite !get_val_cons.
      destruct (decide (x = y)) as [->|Hxy].
      * rewrite get_item_insert_eq, Hget, !bind_ok by lia.
        apply Hother; [done|]. intros Heq. apply Hneq. by rewrite Heq.
      * rewrite get_item_insert_ne by lia. done.
Qed.

(** * Neighbor enumeration *)

Lemma elem_of_set_add x y s : y ∈ set_add x s ↔ y = x ∨ y ∈ s.
Proof.
  unfold set_add. case_bool_decide.
  - split; [auto|]. by intros [->|?].
  - rewrite elem_of_app, list_elem_of_singleton. tauto.
Qed.

Lemma NoDup_set_add x s : NoDup s → NoDup (set_add x s).
Proof.
  intros Hs. unfold set_add. case_bool_decide; [done|].
  apply NoDup_app. split_and!; [done| |apply NoDup_singleton].
  intros y Hy ->%list_elem_of_singleton. done.
Qed.

Lemma NoDup_if_set_add (b : bool) x s :
  NoDup s → NoDup (if b then set_add x s else s).
Proof. destruct b; [apply NoDup_set_add|done]. Qed.

Lemma elem_of_if_set_add (P : Prop) `{Decision P} x y s :
  y ∈ (if bool_decide P then set_add x s else s) ↔ (P ∧ y = x) ∨ y ∈ s.
Proof. case_bool_decide; rewrite ?elem_of_set_add; tauto. Qed.

Lemma tuple_get_app_middle (pre : list Z) d post :
  tuple_get (pre ++ d :: post) (Z.of_nat (length pre)) = Ok d.
Proof.
  unfold tuple_get.
  rewrite norm_index_in_range by (rewrite length_app; simpl; lia).
  rewrite bind_ok, Nat2Z.id, list_lookup_middle; done.
Qed.

Lemma extend_neighbor_ok dims index d x acc p :
  tuple_get dims index = Ok d →
  extend_neighbor dims index x acc p =
  Ok (set_add (p ++ [x])
        (if bool_decide (x ≤ d - 2)
         then set_add (p ++ [x + 1])
                (if bool_decide (1 ≤ x) then set_add (p ++ [x - 1]) acc else acc)
         else if bool_decide (1 ≤ x) then set_add (p ++ [x - 1]) acc else acc)).
Proof. intros Hd. unfold extend_neighbor. by rewrite Hd. Qed.

Lemma extend_axis_acc dims index d x nbs : ∀ acc,
  tuple_get dims index = Ok d →
  NoDup acc →
  ∃ new, foldM (extend_neighbor dims index x) acc nbs = Ok new ∧
         NoDup new ∧
         ∀ n, n ∈ new ↔ n ∈ acc ∨ ∃ p y, n = p ++ [y] ∧ p ∈ nbs ∧ axis_choice d x y.
Proof.
  intros acc Hd. revert acc.
  induction nbs as [|p nbs IH]; intros acc Hacc.
  - exists acc. split_and!; [done|done|]. intros n. split; [auto|].
    intros [?|(?&?&?&?%elem_of_nil&?)]; done.
  - cbn [foldM]. rewrite (extend_neighbor_ok _ _ d) by done. rewrite bind_ok.
    set (s1 := if bool_decide (1 ≤ x) then set_add (p ++ [x - 1]) acc else acc).
    set (s2 := if bool_decide (x ≤ d - 2) then set_add (p ++ [x + 1]) s1 else s1).
    assert (NoDup s1) as Hs1 by (by apply NoDup_if_set_add).
    assert (NoDup s2) as Hs2 by (by apply NoDup_if_set_add).
    destruct (IH (set_add (p ++ [x]) s2)) as (new & Hnew & Hnd & Hin);
      [by apply NoDup_set_add|].
    exists new. split_and!; [done|done|]. intros n. rewrite Hin.
    rewrite elem_of_set_add.
    assert (n ∈ s2 ↔ n ∈ acc ∨ (n = p ++ [x - 1] ∧ 1 ≤ x) ∨ (n = p ++ [x + 1] ∧ x ≤ d - 2))
      as ->.
    { unfold s2, s1. rewrite !elem_of_if_set_add. tauto. }
    unfold axis_choice. split.
    + intros [[->|[?|[[-> ?]|[-> ?]]]]|(q & y & -> & Hq & Hy)]; [|by left|..].
      * right. exists p, x. split_and!; [done|left|auto].
      * right. exists p, (x - 1). split_and!; [done|left|auto].
      * right. exists p, (x + 1). split_and!; [done|left|auto].
      * right. exists q, y. split_and!; [done|by right|auto].
    + intros [?|(q & y & -> & [->|Hq]%elem_of_cons & Hy)]; [auto| |eauto 9].
      left. destruct Hy as [->|[[-> ?]|[-> ?]]]; auto.
Qed.

Lemma extend_axis_spec dims index d x nbs :
  tuple_get dims index = Ok d →
  ∃ new, extend_axis dims index x nbs = Ok new ∧ NoDup new ∧
         ∀ n, n ∈ new ↔ ∃ p y, n = p ++ [y] ∧ p ∈ nbs ∧ axis_choice d x y.
Proof.
  intros Hd.
  destruct (extend_axis_acc dims index d x nbs [] Hd) as (new & Hnew & Hnd & Hin);
    [constructor|].
  exists new. split_and!; [done|done|]. intros n. rewrite Hin.
  split; [|auto]. intros [?%elem_of_nil|?]; done.
Qed.

Lemma extend_axes_spec rest : ∀ drest dpre nbs,
  length drest = length rest → NoDup nbs →
  ∃ new, extend_axes (dpre ++ drest) (Z.of_nat (length dpre)) rest nbs = Ok new ∧
         NoDup new ∧
         ∀ n, n ∈ new ↔ ∃ p s, n = p ++ s ∧ p ∈ nbs ∧ Forall3 axis_choice drest rest s.
Proof.
  induction rest as [|x rest IH]; intros drest dpre nbs Hlen Hnbs.
  - destruct drest; [|done]. exists nbs. split_and!; [done|done|].
    intros n. split.
    + intros Hn. exists n, []. rewrite app_nil_r. split_and!; [done|done|constructor].
    + intros (p & s & -> & Hp & Hs). inversion Hs. by rewrite app_nil_r.
  - destruct drest as [|d drest]; [done|]. simpl in Hlen.
    destruct (extend_axis_spec (dpre ++ d :: drest) (Z.of_nat (length dpre)) d x nbs)
      as (new1 & Hnew1 & Hnd1 & Hin1); [apply tuple_get_app_middle|].
    destruct (IH drest (dpre ++ [d]) new1) as (new & Hnew & Hnd & Hin); [lia|done|].
    exists new. split_and!; [|done|].
    + cbn [extend_axes]. rewrite Hnew1, bind_ok.
      rewrite <- Hnew, <- app_assoc, length_app. simpl. f_equal. lia.
    + intros n. rewrite Hin. split.
      * intros (p & s & -> & Hp & Hs). apply Hin1 in Hp as (q & y & -> & Hq & Hy).
        exists q, (y :: s). rewrite <- app_assoc. split_and!; [done|done|].
        by constructor.
      * intros (q & s & -> & Hq & Hs).
        apply Forall3_cons_inv_l in Hs as (x' & rest' & y & s' & Heq & -> & Hy & Hs).
        simplify_eq. exists (q ++ [y]), s'. rewrite <- app_assoc.
        split_and!; [done| |done]. apply Hin1. eauto.
Qed.

(** The set that [get_neighors_nd] returns, for any location with as
    many indices as there are dimensions (in range or not). *)
Lemma get_neighors_nd_spec dims loc :
  dims ≠ [] → length dims = length loc →
  ∃ l, get_neighors_nd dims loc = Ok l ∧ NoDup l ∧
       ∀ n, n ∈ l ↔ Forall3 axis_choice dims loc n.
Proof.
  intros Hne Hlen. destruct dims as [|d drest]; [done|].
  destruct loc as [|x rest]; [done|]. simpl in Hlen.
  set (init := set_add [x]
                 (if bool_decide (x ≤ d - 2)
                  then set_add [x + 1] (if bool_decide (1 ≤ x) then set_add [x - 1] [] else [])
                  else if bool_decide (1 ≤ x) then set_add [x - 1] [] else [])).
  assert (NoDup init) as Hinit.
  { apply NoDup_set_add, NoDup_if_set_add, NoDup_if_set_add. constructor. }
  assert (∀ n, n ∈ init ↔ ∃ y, n = [y] ∧ axis_choice d x y) as Hin0.
  { intros n. unfold init. rewrite elem_of_set_add, !elem_of_if_set_add, elem_of_nil.
    unfold axis_choice. split.
    - intros [->|[[? ->]|[[? ->]|[]]]]; eauto 7.
    - intros (y & -> & [->|[[-> ?]|[-> ?]]]); auto. }
  destruct (extend_axes_spec rest drest [d] init) as (l & Hl & Hnd & Hin); [lia|done|].
  exists l. split_and!; [|done|].
  - unfold get_neighors_nd.
    rewrite (tuple_get_app_middle [] d drest : tuple_get (d :: drest) 0 = Ok d), bind_ok.
    exact Hl.
  - intros n. rewrite Hin. split.
    + intros (p & s & -> & (y & -> & Hy)%Hin0 & Hs). by constructor.
    + intros Hn.
      apply Forall3_cons_inv_l in Hn as (x' & rest' & y & s & Heq & -> & Hy & Hs).
      simplify_eq. exists [y], s. split_and!; [done| |done]. apply Hin0. eauto.
Qed.

Lemma axis_choice_in_range dims c n :
  in_range dims c →
  Forall3 axis_choice dims c n ↔ in_range dims n ∧ adjacent c n.
Proof.
  intros Hc. revert n. induction Hc as [|d x ds xs Hx Hxs IH]; intros n.
  - split.
    + intros Hn. inversion Hn. split; constructor.
    + intros [Hn _]. apply in_range_nil_inv in Hn as ->. constructor.
  - split.
    + intros Hn.
      apply Forall3_cons_inv_l in Hn as (x' & xs' & y & ys & Heq & -> & Hy & Hs).
      simplify_eq. apply IH in Hs as [??].
      split; constructor; try done; unfold axis_choice in Hy; lia.
    + intros [Hn Hadj].
      apply in_range_cons_inv in Hn as (y & ys & -> & Hy & Hys).
      apply Forall2_cons_1 in Hadj as [Hxy Hadj].
      constructor; [unfold axis_choice; lia|]. by apply IH.
Qed.

Lemma elem_of_shifts c n : n ∈ shifts c ↔ adjacent c n.
Proof.
  revert n. induction c as [|x xs IH]; intros n; cbn [shifts].
  - rewrite list_elem_of_singleton. split; [intros ->; constructor|].
    intros H. by apply Forall2_nil_inv_l in H.
  - rewrite list_elem_of_bind. split.
    + intros (y & (s & -> & Hs)%list_elem_of_fmap & Hy).
      apply IH in Hs. constructor; [|done].
      rewrite !elem_of_cons, elem_of_nil in Hy. lia.
    + intros H. apply Forall2_cons_inv_l in H as (y & ys & Hy & Hys & ->).
      exists y. split.
      * apply list_elem_of_fmap. exists ys. split; [done|]. by apply IH.
      * rewrite !elem_of_cons.
        destruct (decide (y = x - 1)); [auto|].
        destruct (decide (y = x)); [auto|]. right; right; left. lia.
Qed.

Lemma NoDup_shifts c : NoDup (shifts c).
Proof.
  induction c as [|x xs IH]; cbn [shifts]; [apply NoDup_singleton|].
  apply NoDup_bind.
  - intros y1 y2 n _ _ (s1 & -> & _)%list_elem_of_fmap (s2 & [= ->] & _)%list_elem_of_fmap.
    done.
  - intros y _. apply NoDup_fmap_2; [|done]. by intros ?? [= ->].
  - repeat (constructor; [rewrite ?elem_of_cons, ?elem_of_nil; lia|]). constructor.
Qed.

Lemma elem_of_shifted_in_bounds dims c n :
  n ∈ shifted_in_bounds dims c ↔ in_range dims n ∧ adjacent c n.
Proof. unfold shifted_in_bounds. by rewrite list_elem_of_filter, elem_of_shifts. Qed.

Lemma adjacent_refl c : adjacent c c.
Proof. apply Forall2_same_length_lookup_2; [done|]. intros; simplify_eq. lia. Qed.

Lemma adjacent_sym c n : adjacent c n → adjacent n c.
Proof. intros H. apply Forall2_flip. eapply Forall2_impl; [done|]. simpl. lia. Qed.

(** Membership in the returned set, for a cell of the board. *)
Lemma get_neighors_nd_in_range dims c :
  dims ≠ [] → in_range dims c →
  ∃ l, get_neighors_nd dims c = Ok l ∧ NoDup l ∧
       ∀ n, n ∈ l ↔ in_range dims n ∧ adjacent c n.
Proof.
  intros Hne Hc.
  destruct (get_neighors_nd_spec dims c) as (l & Hl & Hnd & Hin);
    [done|by rewrite (in_range_length dims c)|].
  exists l. split_and!; [done|done|]. intros n.
  by rewrite Hin, axis_choice_in_range.
Qed.

(** C3. For a board with at least one axis and a coordinate in range,
    [get_neighors_nd] returns exactly the coordinates obtained by
    shifting every axis by -1, 0 or +1 independently and discarding
    those outside the board: the result is a permutation of that
    duplicate-free list; it contains the coordinate itself, has no
    repetition, and holds in-range coordinates only. *)
Theorem get_neighors_nd_correct dims c :
  dims ≠ [] → in_range dims c →
  ∃ l, get_neighors_nd dims c = Ok l ∧
       l ≡ₚ shifted_in_bounds dims c ∧
       c ∈ l ∧ NoDup l ∧ Forall (in_range dims) l.
Proof.
  intros Hne Hc.
  destruct (get_neighors_nd_in_range dims c Hne Hc) as (l & Hl & Hnd & Hin).
  exists l. split_and!; [done| | |done|].
  - apply NoDup_Permutation; [done| |].
    + unfold shifted_in_bounds. apply NoDup_filter, NoDup_shifts.
    + intros n. by rewrite Hin, elem_of_shifted_in_bounds.
  - apply Hin. split; [done|apply adjacent_refl].
  - apply Forall_forall. intros n Hn. by apply Hin in Hn as [? _].
Qed.

(** * Indices outside the bounds *)

Lemma norm_index_wrap len x :
  - Z.of_nat len ≤ x < Z.of_nat len →
  norm_index len x = norm_index len (wrap_index (Z.of_nat len) x).
Proof.
  intros H. unfold wrap_index. case_bool_decide; [|done].
  rewrite norm_index_negative, norm_index_in_range by lia. done.
Qed.

Lemma get_item_wrap l x :
  - Z.of_nat (length l) ≤ x < Z.of_nat (length l) →
  get_item (VList l) x = get_item (VList l) (wrap_index (Z.of_nat (length l)) x).
Proof. intros H. unfold get_item. by rewrite <- norm_index_wrap. Qed.

Lemma set_item_wrap l x v :
  - Z.of_nat (length l) ≤ x < Z.of_nat (length l) →
  set_item (VList l) x v = set_item (VList l) (wrap_index (Z.of_nat (length l)) x) v.
Proof. intros H. unfold set_item. by rewrite <- norm_index_wrap. Qed.

Lemma wrap_coord_in_range dims c :
  in_wrap_range dims c → in_range dims (wrap_coord dims c).
Proof.
  intros H. induction H as [|d x ds xs Hx Hxs IH]; [constructor|].
  constructor; [|done]. unfold wrap_index. case_bool_decide; lia.
Qed.

Lemma get_item_shape d ds l x sub :
  has_shape (d :: ds) (VList l) → get_item (VList l) x = Ok sub → has_shape ds sub.
Proof.
  intros Hsh Hget. unfold get_item in Hget.
  destruct (norm_index (length l) x) as [k|e]; [|done]. rewrite bind_ok in Hget.
  destruct (l !! k) as [y|] eqn:Hk; [|done]. simplify_eq.
  by eapply has_shape_lookup.
Qed.

Lemma grid_access_wrap dims : ∀ v c,
  has_shape dims v → in_wrap_range dims c →
  get_val v c = get_val v (wrap_coord dims c) ∧
  ∀ x, set_val v c x = set_val v (wrap_coord dims c) x.
Proof.
  induction dims as [|d ds IH]; intros v c Hv Hc.
  - apply Forall2_nil_inv_l in Hc as ->. done.
  - apply Forall2_cons_inv_l in Hc as (x & xs & Hx & Hxs & ->).
    pose proof Hv as (l & -> & Hlen & Hall).
    assert (- Z.of_nat (length l) ≤ x < Z.of_nat (length l)) as Hx' by lia.
    cbn [wrap_coord zip_with]. fold (wrap_coord ds xs).
    destruct Hxs as [|d' x' ds' xs' Hx2 Hxs].
    + cbn [wrap_coord zip_with]. rewrite !get_val_one. subst d.
      split; [by apply get_item_wrap|]. intros y. rewrite !set_val_one.
      by apply set_item_wrap.
    + cbn [wrap_coord zip_with]. fold (wrap_coord ds' xs').
      rewrite !get_val_cons. subst d. rewrite <- get_item_wrap by done.
      destruct (get_item (VList l) x) as [sub|e] eqn:Hsub.
      * assert (has_shape (d' :: ds') sub) as Hsh by (by eapply get_item_shape).
        destruct (IH sub (x' :: xs') Hsh) as [Hg Hs]; [by constructor|].
        cbn [wrap_coord zip_with] in Hg, Hs. fold (wrap_coord ds' xs') in Hg, Hs.
        rewrite !bind_ok. split; [done|]. intros y.
        rewrite !set_val_cons, <- get_item_wrap, Hsub, !bind_ok, Hs by done.
        destruct (set_val sub _ y); [|done]. rewrite !bind_ok.
        by apply set_item_wrap.
      * split; [done|]. intros y.
        by rewrite !set_val_cons, <- get_item_wrap, Hsub by done.
Qed.

Lemma get_val_out_of_range dims : ∀ v c,
  has_shape dims v → length c = length dims → ¬ in_wrap_range dims c →
  get_val v c = Raise IndexError.
Proof.
  induction dims as [|d ds IH]; intros v c Hv Hlen Hc.
  - destruct c; [|done]. destruct Hc. constructor.
  - destruct c as [|x xs]; [done|]. simpl in Hlen.
    pose proof Hv as (l & -> & Hl & Hall).
    destruct (decide (- d ≤ x < d)) as [Hx|Hx].
    + assert (¬ in_wrap_range ds xs) as Hxs
        by (intros ?; apply Hc; by constructor).
      destruct xs as [|x' xs].
      { destruct ds; [|done]. destruct Hxs. constructor. }
      rewrite get_val_cons.
      destruct (get_item (VList l) x) as [sub|e] eqn:Hsub.
      * rewrite bind_ok. apply IH; [by eapply get_item_shape|lia|done].
      * unfold get_item in Hsub. unfold norm_index in Hsub.
        repeat case_bool_decide; simplify_eq/=; try lia.
        -- destruct (lookup_lt_is_Some_2 l (Z.to_nat x)) as [? Hk]; [lia|].
           rewrite Hk in Hsub. done.
        -- destruct (lookup_lt_is_Some_2 l (Z.to_nat (Z.of_nat (length l) + x)))
             as [? Hk]; [lia|].
           rewrite Hk in Hsub. done.
    + assert (get_item (VList l) x = Raise IndexError) as Hget.
      { unfold get_item. rewrite norm_index_outside by lia. done. }
      destruct xs as [|x' xs]; [by rewrite get_val_one|].
      by rewrite get_val_cons, Hget.
Qed.

Lemma get_item_cases l x :
  (- Z.of_nat (length l) ≤ x < Z.of_nat (length l) ∧ ∃ sub, get_item (VList l) x = Ok sub) ∨
  (¬ (- Z.of_nat (length l) ≤ x < Z.of_nat (length l)) ∧
   get_item (VList l) x = Raise IndexError).
Proof.
  destruct (decide (- Z.of_nat (length l) ≤ x < Z.of_nat (length l))) as [Hx|Hx].
  - left. split; [done|]. rewrite get_item_wrap by done.
    destruct (get_item_in_range l (wrap_index (Z.of_nat (length l)) x)) as (sub & _ & Hsub);
      [unfold wrap_index; case_bool_decide; lia|eauto].
  - right. split; [done|]. unfold get_item. by rewrite norm_index_outside by lia.
Qed.

Lemma set_val_out_of_range dims : ∀ v c x,
  has_shape dims v → length c = length dims → ¬ in_wrap_range dims c →
  set_val v c x = Raise IndexError.
Proof.
  induction dims as [|d ds IH]; intros v c y Hv Hlen Hc.
  - destruct c; [|done]. destruct Hc. constructor.
  - destruct c as [|x xs]; [done|]. simpl in Hlen.
    pose proof Hv as (l & -> & Hl & Hall). subst d.
    destruct (get_item_cases l x) as [[Hx [sub Hsub]]|[Hx Hget]].
    + assert (¬ in_wrap_range ds xs) as Hxs
        by (intros ?; apply Hc; by constructor).
      destruct xs as [|x' xs].
      { destruct ds; [|done]. destruct Hxs. constructor. }
      rewrite set_val_cons, Hsub, bind_ok.
      rewrite (IH sub (x' :: xs) y); [done|by eapply get_item_shape|lia|done].
    + destruct xs as [|x' xs].
      * rewrite set_val_one. unfold set_item. by rewrite norm_index_outside by lia.
      * by rewrite set_val_cons, Hget.
Qed.

Lemma wrap_coord_id dims c : in_range dims c → wrap_coord dims c = c.
Proof.
  intros H. induction H as [|d x ds xs Hx Hxs IH]; [done|].
  cbn [wrap_coord zip_with]. fold (wrap_coord ds xs). rewrite IH.
  unfold wrap_index. by rewrite bool_decide_eq_false_2 by lia.
Qed.

(** C9 (amended). On a grid of extents [dims] and a coordinate with one
    index per axis: if every index lies in [-dim, dim-1], the three
    access operations address the cell whose negative indices are
    counted from the end of their axis (a coordinate in range names
    itself); if some index is below [-dim] or at least [dim], all three
    raise [IndexError]. *)
Theorem grid_access_bounds dims v c :
  has_shape dims v → length c = length dims →
  (in_range dims c → wrap_coord dims c = c) ∧
  (in_wrap_range dims c →
     in_range dims (wrap_coord dims c) ∧
     get_val v c = get_val v (wrap_coord dims c) ∧
     (∀ x, set_val v c x = set_val v (wrap_coord dims c) x) ∧
     (∀ k, update_pos v c k = update_pos v (wrap_coord dims c) k)) ∧
  (¬ in_wrap_range dims c →
     get_val v c = Raise IndexError ∧
     (∀ x, set_val v c x = Raise IndexError) ∧
     (∀ k, update_pos v c k = Raise IndexError)).
Proof.
  intros Hv Hlen. split_and!.
  - apply wrap_coord_id.
  - intros Hc. destruct (grid_access_wrap dims v c Hv Hc) as [Hg Hs].
    split_and!; [by apply wrap_coord_in_range|done|done|].
    intros k. rewrite !update_pos_get_set, <- Hg.
    destruct (get_val v c) as [old|e]; [|done]. rewrite !bind_ok.
    destruct (py_add old k) as [new|e]; [|done]. by rewrite !bind_ok.
  - intros Hc. split_and!.
    + by eapply get_val_out_of_range.
    + intros x. by eapply set_val_out_of_range.
    + intros k. rewrite update_pos_get_set.
      by erewrite get_val_out_of_range.
Qed.

(** * Board construction *)

Lemma forM_spec {A B} (P : A → B → Prop) (f : A → result B) l :
  (∀ x, x ∈ l → ∃ y, f x = Ok y ∧ P x y) →
  ∃ ys, forM l f = Ok ys ∧ Forall2 P l ys.
Proof.
  induction l as [|x l IH]; intros Hf.
  - exists []. split; [done|constructor].
  - destruct (Hf x) as (y & Hy & HP); [left|].
    destruct IH as (ys & Hys & HF); [intros; apply Hf; by right|].
    exists (y :: ys). cbn [forM]. rewrite Hy, bind_ok, Hys, bind_ok.
    split; [done|by constructor].
Qed.

Lemma elem_of_row_bombs i bombs c : c ∈ row_bombs i bombs ↔ i :: c ∈ bombs.
Proof.
  unfold row_bombs. rewrite list_elem_of_omap. split.
  - intros ([|b0 t] & Hb & Heq); [done|]. case_bool_decide; by simplify_eq.
  - intros Hb. exists (i :: c). split; [done|]. by rewrite bool_decide_eq_true_2.
Qed.

Lemma tuple_get_head b0 t : tuple_get (b0 :: t) 0 = Ok b0.
Proof. apply (tuple_get_app_middle [] b0 t). Qed.

Lemma smaller_bombs_spec i bombs : ∀ acc,
  Forall (λ b, b ≠ []) bombs →
  foldM (λ acc bomb, b0 ← tuple_get bomb 0;
                     Ok (if bool_decide (b0 = i) then acc ++ [tail bomb] else acc))
        acc bombs = Ok (acc ++ row_bombs i bombs).
Proof.
  induction bombs as [|b bombs IH]; intros acc Hne.
  - by rewrite app_nil_r.
  - apply Forall_cons in Hne as [Hb Hne]. destruct b as [|b0 t]; [done|].
    cbn [foldM]. rewrite tuple_get_head, !bind_ok, IH by done.
    unfold row_bombs. cbn [omap list_omap]. case_bool_decide.
    + by rewrite <- app_assoc.
    + done.
Qed.

Lemma place_mines_1d bombs : ∀ l,
  Forall (in_range [Z.of_nat (length l)]) bombs →
  ∃ l', foldM (λ board bomb, b0 ← tuple_get bomb 0; set_item board b0 mine)
              (VList l) bombs = Ok (VList l') ∧
        length l' = length l ∧
        ∀ i, 0 ≤ i < Z.of_nat (length l) →
             l' !! Z.to_nat i =
             if bool_decide ([i] ∈ bombs) then Some mine else l !! Z.to_nat i.
Proof.
  induction bombs as [|b bombs IH]; intros l Hb.
  - exists l. split_and!; [done|done|]. intros i Hi.
    rewrite bool_decide_eq_false_2; [done|]. by intros ?%elem_of_nil.
  - apply Forall_cons in Hb as [Hb Hbs].
    apply in_range_cons_inv in Hb as (b0 & t & -> & Hb0 & ->%in_range_nil_inv).
    destruct (IH (<[Z.to_nat b0 := mine]> l)) as (l' & Hl' & Hlen & Hlook).
    { by rewrite length_insert. }
    exists l'. rewrite length_insert in Hlen, Hlook. split_and!; [|done|].
    + cbn [foldM]. rewrite tuple_get_head, bind_ok, set_item_in_range, bind_ok by done.
      done.
    + intros i Hi. rewrite Hlook by done.
      destruct (decide (i = b0)) as [->|Hne].
      * rewrite (bool_decide_eq_true_2 (_ ∈ _ :: _)) by left.
        case_bool_decide; [done|]. apply list_lookup_insert_eq. lia.
      * rewrite list_lookup_insert_ne by lia.
        apply (f_equal (λ b : bool, if b then Some mine else l !! Z.to_nat i)).
        apply bool_decide_ext. rewrite elem_of_cons. split; [auto|].
        intros [[= ->]|?]; done.
Qed.

Lemma create_game_0_spec dims : ∀ bombs,
  valid_dims dims → Forall (in_range dims) bombs →
  ∃ g, create_game_0 dims bombs = Ok g ∧ fresh_game dims bombs g.
Proof.
  induction dims as [|d ds IH]; intros bombs [Hne Hpos] Hb; [done|].
  apply Forall_cons in Hpos as [Hd Hpos].
  destruct ds as [|d' ds'].
  - assert (length (replicate (Z.to_nat d) (VInt 0)) = Z.to_nat d) as Hlen
      by apply length_replicate.
    destruct (place_mines_1d bombs (replicate (Z.to_nat d) (VInt 0)))
      as (l' & Hl' & Hlen' & Hlook).
    { rewrite Hlen, Z2Nat.id by lia. done. }
    rewrite Hlen in Hlen', Hlook. rewrite Z2Nat.id in Hlook by lia.
    eexists. cbn [create_game_0]. rewrite Hl', bind_ok. split; [done|].
    unfold fresh_game; cbn [dimensions state squares_left board hidden].
    split_and!; [done|done|done| | |].
    + exists l'. split_and!; [done|lia|]. by apply Forall_true.
    + eexists. split_and!; [done|rewrite length_replicate; lia|]. by apply Forall_true.
    + intros c Hc.
      apply in_range_cons_inv in Hc as (i & t & -> & Hi & ->%in_range_nil_inv).
      rewrite !get_val_one. unfold get_item.
      rewrite !norm_index_in_range, !bind_ok by (rewrite ?length_replicate; lia).
      rewrite Hlook by done. rewrite !lookup_replicate_2 by lia.
      by case_bool_decide.
  - set (dims' := d' :: ds') in *.
    assert (valid_dims dims') as Hvalid by done.
    assert (Forall (λ b, b ≠ []) bombs) as Hbne.
    { eapply Forall_impl; [done|]. intros b Hr ->. inversion Hr. }
    assert (∀ i, Forall (in_range dims') (row_bombs i bombs)) as Hrows.
    { intros i. apply Forall_forall. intros c Hc%elem_of_row_bombs.
      rewrite Forall_forall in Hb. apply Hb in Hc.
      by apply in_range_cons_inv in Hc as (? & ? & [= <- <-] & _ & ?). }
    destruct (forM_spec (λ i g, fresh_game dims' (row_bombs i bombs) g)
                (λ i, smaller_bombs ← foldM (λ acc bomb,
                                               b0 ← tuple_get bomb 0;
                                               Ok (if bool_decide (b0 = i)
                                                   then acc ++ [tail bomb] else acc))
                                            [] bombs;
                      create_game_0 dims' smaller_bombs)
                (seqZ 0 d)) as (games & Hgames & Hall).
    { intros i _. rewrite smaller_bombs_spec, bind_ok by done. rewrite app_nil_l.
      by apply IH. }
    eexists. split.
    { subst dims'. cbn [create_game_0]. cbn [create_game_0] in Hgames.
      rewrite Hgames, bind_ok. done. }
    assert (length games = Z.to_nat d) as Hlen.
    { apply Forall2_length in Hall. by rewrite length_seqZ in Hall. }
    unfold fresh_game; cbn [dimensions state squares_left board hidden].
    split_and!; [done|done|done| | |].
    + eexists. split_and!; [done|rewrite length_fmap; lia|].
      apply Forall_fmap, Forall_forall. intros g Hg.
      apply list_elem_of_lookup in Hg as [k Hk].
      destruct (Forall2_lookup_r _ _ _ _ _ Hall Hk) as (i & _ & Hfresh).
      apply Hfresh.
    + eexists. split_and!; [done|rewrite length_fmap; lia|].
      apply Forall_fmap, Forall_forall. intros g Hg.
      apply list_elem_of_lookup in Hg as [k Hk].
      destruct (Forall2_lookup_r _ _ _ _ _ Hall Hk) as (i & _ & Hfresh).
      apply Hfresh.
    + intros c Hc.
      apply in_range_cons_inv in Hc as (i & t & -> & Hi & Ht).
      pose proof Ht as Ht'.
      apply in_range_cons_inv in Ht' as (x' & t' & -> & _ & _).
      assert (seqZ 0 d !! Z.to_nat i = Some i) as Hseq.
      { rewrite lookup_seqZ. split; lia. }
      destruct (Forall2_lookup_l _ _ _ _ _ Hall Hseq) as (g & Hg & Hfresh).
      destruct Hfresh as (_ & _ & _ & _ & _ & Hcells).
      destruct (Hcells _ Ht) as [Hbd Hhd].
      destruct (get_item_in_range (board <$> games) i) as (sb & Hsb & Hgb);
        [rewrite length_fmap; lia|].
      destruct (get_item_in_range (hidden <$> games) i) as (sh & Hsh & Hgh);
        [rewrite length_fmap; lia|].
      rewrite list_lookup_fmap, Hg in Hsb, Hsh. simpl in Hsb, Hsh. simplify_eq.
      rewrite !get_val_cons, Hgb, Hgh, !bind_ok, Hbd, Hhd.
      split; [|done].
      by rewrite (bool_decide_ext _ _ (elem_of_row_bombs i bombs (x' :: t'))).
Qed.

(** ** Counting the neighbors of the mines *)

Lemma occurrences_cons c n l :
  occurrences c (n :: l) = (if bool_decide (n = c) then 1 else 0) + occurrences c l.
Proof.
  unfold occurrences. rewrite filter_cons.
  case_decide; case_bool_decide; try done; simpl; lia.
Qed.

Lemma occurrences_NoDup c l :
  NoDup l → occurrences c l = if bool_decide (c ∈ l) then 1 else 0.
Proof.
  induction 1 as [|n l Hn Hl IH].
  - rewrite bool_decide_eq_false_2; [done|]. by intros ?%elem_of_nil.
  - rewrite occurrences_cons, IH. destruct (decide (n = c)) as [->|Hne].
    + rewrite (bool_decide_eq_true_2 (c = c)) by done.
      rewrite (bool_decide_eq_false_2 (c ∈ l)) by done.
      by rewrite bool_decide_eq_true_2 by left.
    + rewrite (bool_decide_eq_false_2 (n = c)) by done.
      rewrite (bool_decide_ext (c ∈ n :: l) (c ∈ l)); [done|].
      rewrite elem_of_cons. split; [|auto]. by intros [->|?].
Qed.

Lemma occurrences_Permutation c l k : l ≡ₚ k → occurrences c l = occurrences c k.
Proof. intros H. unfold occurrences. by rewrite H. Qed.

Lemma counted_ext dims bombs cnt cnt' b :
  (∀ c, in_range dims c → c ∉ bombs → cnt c = cnt' c) →
  counted dims bombs cnt b → counted dims bombs cnt' b.
Proof.
  intros Hext [Hsh Hcells]. split; [done|]. intros c Hc.
  rewrite Hcells by done. case_bool_decide; [done|]. by rewrite Hext.
Qed.

Lemma mark_neighbors_spec dims bombs l : ∀ cnt b,
  dims ≠ [] → counted dims bombs cnt b → Forall (in_range dims) l →
  ∃ b', foldM (λ board neighbor,
                 if bool_decide (neighbor ∈ bombs) then Ok board
                 else update_pos board neighbor 1) b l = Ok b' ∧
        counted dims bombs (λ c, cnt c + occurrences c l) b'.
Proof.
  induction l as [|n l IH]; intros cnt b Hne Hb Hl.
  - exists b. split; [done|]. eapply counted_ext; [|done].
    intros c _ _. unfold occurrences. simpl. lia.
  - apply Forall_cons in Hl as [Hn Hl]. cbn [foldM].
    case_bool_decide as Hmine.
    + rewrite bind_ok. destruct (IH cnt b) as (b' & Hb' & Hcnt); [done..|].
      exists b'. split; [done|]. eapply counted_ext; [|done].
      intros c _ Hc. rewrite occurrences_cons.
      rewrite bool_decide_eq_false_2; [lia|]. by intros ->.
    + destruct Hb as [Hsh Hcells].
      pose proof (Hcells n Hn) as Hget. rewrite bool_decide_eq_false_2 in Hget by done.
      destruct (set_val_in_range dims b n (VInt (cnt n + 1)))
        as (b1 & Hset & Hsh1 & Hsame & Hother); [done..|].
      rewrite update_pos_get_set, Hget, bind_ok. cbn [py_add]. rewrite bind_ok, Hset, bind_ok.
      destruct (IH (λ c, cnt c + if bool_decide (n = c) then 1 else 0) b1)
        as (b' & Hb' & Hcnt); [done| |done|].
      { split; [done|]. intros c Hc. destruct (decide (c = n)) as [->|Hcn].
        - rewrite Hsame. rewrite !bool_decide_eq_false_2 by done.
          by rewrite bool_decide_eq_true_2.
        - rewrite Hother, Hcells by done.
          rewrite (bool_decide_eq_false_2 (n = c)) by done.
          by rewrite Z.add_0_r. }
      exists b'. split; [done|]. eapply counted_ext; [|done].
      intros c _ _. cbn beta. rewrite occurrences_cons. lia.
Qed.

Section Construction.

Variable iter_order : list coord → list coord.
Hypothesis iter_order_perm : ∀ s, iter_order s ≡ₚ s.

Lemma update_bombs_nd_loop dims bombs bs : ∀ cnt b,
  dims ≠ [] → counted dims bombs cnt b → Forall (in_range dims) bs →
  ∃ b', foldM (λ board bomb,
                 neighbors ← get_neighors_nd dims bomb;
                 foldM (λ board neighbor,
                          if bool_decide (neighbor ∈ bombs) then Ok board
                          else update_pos board neighbor 1)
                       board (iter_order neighbors)) b bs = Ok b' ∧
        counted dims bombs (λ c, cnt c + adjacent_bombs bs c) b'.
Proof.
  induction bs as [|bomb bs IH]; intros cnt b Hne Hb Hbs.
  - exists b. split; [done|]. eapply counted_ext; [|done].
    intros c _ _. unfold adjacent_bombs. simpl. lia.
  - apply Forall_cons in Hbs as [Hbomb Hbs]. cbn [foldM].
    destruct (get_neighors_nd_in_range dims bomb Hne Hbomb) as (nb & Hnb & Hnd & Hin).
    rewrite Hnb, bind_ok.
    destruct (mark_neighbors_spec dims bombs (iter_order nb) cnt b)
      as (b1 & Hb1 & Hcnt1); [done|done| |].
    { apply Forall_forall. intros n Hn. rewrite iter_order_perm in Hn.
      by apply Hin in Hn as [? _]. }
    rewrite Hb1, bind_ok.
    destruct (IH (λ c, cnt c + occurrences c (iter_order nb)) b1)
      as (b' & Hb' & Hcnt); [done..|].
    exists b'. split; [done|]. eapply counted_ext; [|done].
    intros c Hc _. cbn beta.
    rewrite (occurrences_Permutation c _ nb) by done.
    rewrite occurrences_NoDup by done.
    unfold adjacent_bombs. rewrite filter_cons.
    rewrite (bool_decide_ext (c ∈ nb) (adjacent bomb c)) by (rewrite Hin; tauto).
    case_decide; case_bool_decide; try done; simpl; lia.
Qed.

(** What [new_game_nd] returns for mines inside the board, repeated or
    not. *)
Lemma new_game_nd_spec dims bombs :
  valid_dims dims → Forall (in_range dims) bombs →
  ∃ g, new_game_nd iter_order dims bombs = Ok g ∧
       dimensions g = dims ∧ state g = Ongoing ∧
       squares_left g = total_cells dims - Z.of_nat (length bombs) ∧
       has_shape dims (board g) ∧ has_shape dims (hidden g) ∧
       ∀ c, in_range dims c →
            get_val (board g) c =
              Ok (if bool_decide (c ∈ bombs) then mine
                  else VInt (adjacent_bombs bombs c)) ∧
            get_val (hidden g) c = Ok (VBool true).
Proof.
  intros Hvalid Hbombs.
  destruct (create_game_0_spec dims bombs Hvalid Hbombs)
    as (g0 & Hg0 & Hdims & Hstate & Hleft & Hshb & Hshh & Hcells).
  destruct (update_bombs_nd_loop dims bombs bombs (λ _, 0) (board g0))
    as (b' & Hb' & Hsh' & Hcnt); [apply Hvalid| |done|].
  { split; [done|]. intros c Hc. by apply Hcells. }
  exists (with_board g0 b'). unfold new_game_nd, update_bombs_nd.
  rewrite Hg0, bind_ok, Hb', bind_ok.
  split_and!; try done. intros c Hc. split; [|by apply Hcells].
  rewrite Hcnt by done. cbn [with_board board]. by rewrite Z.add_0_l.
Qed.

End Construction.

(** * The cells of a board *)

Lemma elem_of_all_coords dims c : c ∈ all_coords dims ↔ in_range dims c.
Proof.
  revert c. induction dims as [|d ds IH]; intros c; cbn [all_coords].
  - rewrite list_elem_of_singleton. split; [intros ->; constructor|].
    apply in_range_nil_inv.
  - rewrite list_elem_of_bind. split.
    + intros (i & (t & -> & Ht)%list_elem_of_fmap & Hi%elem_of_seqZ).
      constructor; [lia|]. by apply IH.
    + intros (i & t & -> & Hi & Ht)%in_range_cons_inv. exists i. split.
      * apply list_elem_of_fmap. exists t. split; [done|]. by apply IH.
      * apply elem_of_seqZ. lia.
Qed.

Lemma NoDup_all_coords dims : NoDup (all_coords dims).
Proof.
  induction dims as [|d ds IH]; cbn [all_coords]; [apply NoDup_singleton|].
  apply NoDup_bind.
  - intros i j c _ _ (s & -> & _)%list_elem_of_fmap (t & [= ->] & _)%list_elem_of_fmap.
    done.
  - intros i _. apply NoDup_fmap_2; [|done]. by intros ?? [= ->].
  - apply NoDup_seqZ.
Qed.

Lemma length_rows {A} (l : list Z) (k : list (list A)) (f : Z → list A → list A) :
  length (i ← l; f i <$> k) = (length l * length k)%nat.
Proof.
  induction l as [|i l IH]; [done|].
  rewrite bind_cons, length_app, length_fmap, IH. simpl. lia.
Qed.

Lemma total_cells_scale a dims : foldl Z.mul a dims = a * total_cells dims.
Proof.
  unfold total_cells. revert a. induction dims as [|d ds IH]; intros a; cbn [foldl].
  - lia.
  - rewrite (IH (a * d)), (IH (1 * d)). ring.
Qed.

Lemma total_cells_cons d ds : total_cells (d :: ds) = d * total_cells ds.
Proof. unfold total_cells at 1. cbn [foldl]. rewrite total_cells_scale. ring. Qed.

Lemma length_all_coords dims :
  Forall (λ d, 0 ≤ d) dims → Z.of_nat (length (all_coords dims)) = total_cells dims.
Proof.
  induction 1 as [|d ds Hd Hds IH]; [done|].
  cbn [all_coords]. rewrite length_rows, length_seqZ, total_cells_cons. lia.
Qed.

(** * C1: the counts of a new board *)

Lemma elem_of_geometric_neighbors dims c n :
  n ∈ geometric_neighbors dims c ↔ in_range dims n ∧ adjacent c n ∧ n ≠ c.
Proof.
  unfold geometric_neighbors. rewrite list_elem_of_filter, elem_of_all_coords. tauto.
Qed.

Lemma NoDup_geometric_neighbors dims c : NoDup (geometric_neighbors dims c).
Proof. apply NoDup_filter, NoDup_all_coords. Qed.

Lemma adjacent_bombs_mines_around dims bombs b c :
  NoDup bombs → Forall (in_range dims) bombs → c ∉ bombs →
  (∀ n, in_range dims n → is_mine_at b n = true ↔ n ∈ bombs) →
  Z.of_nat (length (filter (λ m, adjacent m c) bombs)) = mines_around dims b c.
Proof.
  intros Hnd Hin Hc Hmine. unfold mines_around. f_equal.
  apply Permutation_length, NoDup_Permutation.
  - by apply NoDup_filter.
  - apply NoDup_filter, NoDup_geometric_neighbors.
  - intros n. rewrite !list_elem_of_filter, elem_of_geometric_neighbors.
    rewrite Forall_forall in Hin. split.
    + intros [Hadj Hn]. pose proof (Hin n Hn) as Hr.
      split_and!; [by apply Hmine|done|by apply adjacent_sym|]. by intros ->.
    + intros (Hm & Hr & Hadj & _). split; [by apply adjacent_sym|]. by apply Hmine.
Qed.

Section NewGame.

Variable iter_order : list coord → list coord.
Hypothesis iter_order_perm : ∀ s, iter_order s ≡ₚ s.

(** C1. For dimensions of a board (at least one axis, all positive) and
    distinct mine coordinates in range, [new_game_nd] returns a game in
    whose board every mine coordinate holds the mine marker and every
    other cell holds the number of mine cells among its geometric
    neighbors. *)
Theorem new_game_nd_counts dims bombs :
  valid_dims dims → NoDup bombs → Forall (in_range dims) bombs →
  ∃ g, new_game_nd iter_order dims bombs = Ok g ∧
       ∀ c, in_range dims c →
            (c ∈ bombs → get_val (board g) c = Ok mine) ∧
            (c ∉ bombs → get_val (board g) c = Ok (VInt (mines_around dims (board g) c))).
Proof.
  intros Hvalid Hnd Hin.
  destruct (new_game_nd_spec iter_order iter_order_perm dims bombs Hvalid Hin)
    as (g & Hg & _ & _ & _ & _ & _ & Hcells).
  exists g. split; [done|]. intros c Hc.
  destruct (Hcells c Hc) as [Hb _]. split; intros Hmem.
  - by rewrite Hb, bool_decide_eq_true_2.
  - rewrite Hb, bool_decide_eq_false_2 by done. do 2 f_equal.
    apply adjacent_bombs_mines_around; [done..|].
    intros n Hn. unfold is_mine_at. destruct (Hcells n Hn) as [-> _].
    destruct (decide (n ∈ bombs)) as [Hnb|Hnb].
    + rewrite bool_decide_eq_true_2 by done. split; [done|]. intros _. reflexivity.
    + rewrite bool_decide_eq_false_2 by done. split; [|done].
      intros H'. cbn in H'. done.
Qed.

End NewGame.

(** * The dig engine: single steps *)

Lemma get_val_string s c x : get_val (VStr s) c = Ok x → ∃ t, x = VStr t.
Proof.
  revert s. induction c as [|i c IH]; intros s Hget; [done|].
  destruct c as [|j c].
  - rewrite get_val_one in Hget. unfold get_item in Hget.
    destruct (norm_index _ i); [|done]. rewrite bind_ok in Hget. simplify_eq. eauto.
  - rewrite get_val_cons in Hget. unfold get_item in Hget.
    destruct (norm_index _ i); [|done]. rewrite !bind_ok in Hget. by eapply IH.
Qed.

(** A cell that holds a boolean can be overwritten. *)
Lemma set_val_of_bool c : ∀ v b x,
  get_val v c = Ok (VBool b) → ∃ v', set_val v c x = Ok v' ∧ get_val v' c = Ok x.
Proof.
  induction c as [|i c IH]; intros v b x Hget; [done|].
  destruct v as [z|b'|s|l];
    [by destruct c|by destruct c|by apply get_val_string in Hget as [??]|].
  assert (∃ k sub, norm_index (length l) i = Ok k ∧ l !! k = Some sub ∧
                   get_item (VList l) i = Ok sub ∧
                   ∀ y, set_item (VList l) i y = Ok (VList (<[k:=y]> l)) ∧
                        get_item (VList (<[k:=y]> l)) i = Ok y)
    as (k & sub & Hk & Hsub & Hitem & Hset).
  { assert (∃ sub, get_item (VList l) i = Ok sub) as [sub Hitem].
    { destruct c; [rewrite get_val_one in Hget; eauto|].
      rewrite get_val_cons in Hget. destruct (get_item (VList l) i); [eauto|done]. }
    pose proof Hitem as Hitem'. unfold get_item in Hitem'.
    destruct (norm_index (length l) i) as [k|] eqn:Hk; [|done].
    rewrite bind_ok in Hitem'. destruct (l !! k) as [y|] eqn:Hy; [|done]. simplify_eq.
    exists k, sub. split_and!; [done..|]. intros y. unfold set_item, get_item.
    rewrite length_insert, Hk, !bind_ok. split; [done|].
    rewrite list_lookup_insert_eq; [done|]. by eapply norm_index_lt. }
  destruct c as [|j c].
  - exists (VList (<[k:=x]> l)). rewrite set_val_one, get_val_one. apply Hset.
  - rewrite get_val_cons, Hitem, bind_ok in Hget.
    destruct (IH sub b x Hget) as (sub' & Hsub' & Hget').
    exists (VList (<[k:=sub']> l)).
    rewrite set_val_cons, Hitem, bind_ok, Hsub', bind_ok, get_val_cons.
    destruct (Hset sub') as [-> ->]. by rewrite bind_ok.
Qed.

Section DigSteps.

Variable iter_order : list coord → list coord.

(** C7. When the game is over, or the cell at the coordinate is already
    revealed, [dig_nd] returns 0 and leaves the game as it is. *)
Theorem dig_nd_no_op fuel g c :
  state g ≠ Ongoing ∨ get_val (hidden g) c = Ok (VBool false) →
  dig_nd iter_order (S fuel) g c = Some (Ok 0, g).
Proof.
  intros [Hover|Hrevealed]; cbn [dig_nd]; unfold dig_step.
  - by destruct (state g).
  - destruct (state g); [|done|done]. by rewrite Hrevealed.
Qed.

(** C5. In an ongoing game, digging a hidden mine cell returns 1 at
    once: the cell is revealed, the state becomes defeat, and nothing
    else changes (no other cell is revealed, [squares_left] keeps its
    value). One level of recursion is enough: there is no cascade. *)
Theorem dig_nd_mine fuel g c :
  state g = Ongoing →
  get_val (hidden g) c = Ok (VBool true) →
  get_val (board g) c = Ok mine →
  ∃ hidden',
    set_val (hidden g) c (VBool false) = Ok hidden' ∧
    get_val hidden' c = Ok (VBool false) ∧
    dig_nd iter_order (S fuel) g c =
      Some (Ok 1, MkGame (dimensions g) (board g) hidden' Defeat (squares_left g)).
Proof.
  intros Hstate Hhidden Hboard.
  destruct (set_val_of_bool c (hidden g) true (VBool false) Hhidden) as (h' & Hset & Hget).
  exists h'. split_and!; [done|done|].
  cbn [dig_nd]; unfold dig_step. rewrite Hstate, Hhidden. cbn [truthy negb]. rewrite Hset.
  cbn [with_hidden board]. rewrite Hboard. reflexivity.
Qed.

(** C6. In an ongoing game with one safe square left, digging a hidden
    cell that is not a mine returns 1 at once: the cell is revealed,
    [squares_left] becomes 0, the state becomes victory, and no
    neighbor is visited. *)
Theorem dig_nd_last_square fuel g c cell :
  state g = Ongoing →
  get_val (hidden g) c = Ok (VBool true) →
  get_val (board g) c = Ok cell →
  py_eq cell mine = false →
  squares_left g = 1 →
  ∃ hidden',
    set_val (hidden g) c (VBool false) = Ok hidden' ∧
    get_val hidden' c = Ok (VBool false) ∧
    dig_nd iter_order (S fuel) g c =
      Some (Ok 1, MkGame (dimensions g) (board g) hidden' Victory 0).
Proof.
  intros Hstate Hhidden Hboard Hsafe Hleft.
  destruct (set_val_of_bool c (hidden g) true (VBool false) Hhidden) as (h' & Hset & Hget).
  exists h'. split_and!; [done|done|].
  cbn [dig_nd]; unfold dig_step. rewrite Hstate, Hhidden. cbn [truthy negb]. rewrite Hset.
  cbn [with_hidden board]. rewrite Hboard, Hsafe.
  cbn [negb with_squares_left with_hidden with_state squares_left dimensions board
       hidden state]. rewrite Hleft.
  reflexivity.
Qed.

End DigSteps.

(** * The dig engine: the invariant of [squares_left] *)

Lemma length_filter_ext_in {A} (P Q : A → Prop)
    `{∀ x, Decision (P x)} `{∀ x, Decision (Q x)} (l : list A) :
  (∀ x, x ∈ l → P x ↔ Q x) → length (filter P l) = length (filter Q l).
Proof.
  induction l as [|x l IH]; intros Hext; [done|].
  rewrite !filter_cons.
  assert (P x ↔ Q x) as Hx by (apply Hext; left).
  specialize (IH (λ y Hy, Hext y (list_elem_of_further _ _ _ Hy))).
  repeat case_decide; simpl; tauto || lia.
Qed.

Lemma length_filter_remove {A} (P Q : A → Prop)
    `{∀ x, Decision (P x)} `{∀ x, Decision (Q x)} (l : list A) c :
  NoDup l → c ∈ l → P c → ¬ Q c → (∀ x, x ∈ l → x ≠ c → P x ↔ Q x) →
  length (filter P l) = S (length (filter Q l)).
Proof.
  induction 1 as [|x l Hx Hl IH]; intros Hc HP HQ Hext.
  - by apply elem_of_nil in Hc.
  - rewrite !filter_cons. apply elem_of_cons in Hc as [->|Hc].
    + rewrite decide_True, decide_False by done. simpl. f_equal.
      apply length_filter_ext_in. intros y Hy. apply Hext; [by right|].
      by intros ->.
    + assert (x ≠ c) as Hne by (by intros ->).
      assert (P x ↔ Q x) as Hx' by (apply Hext; [left|done]).
      specialize (IH Hc HP HQ (λ y Hy, Hext y (list_elem_of_further _ _ _ Hy))).
      repeat case_decide; simpl; tauto || lia.
Qed.

Lemma dig_post_refl g : wf_game g → dig_post g g.
Proof. intros Hwf. by split_and!. Qed.

Lemma dig_post_trans g1 g2 g3 : dig_post g1 g2 → dig_post g2 g3 → dig_post g1 g3.
Proof.
  intros (_ & Hd1 & Hb1 & Hh1 & Hs1) (Hwf & Hd2 & Hb2 & Hh2 & Hs2).
  split_and!; [done|congruence|congruence|lia|lia].
Qed.

Lemma is_hidden_true h c : is_hidden h c = true ↔ get_val h c = Ok (VBool true).
Proof.
  unfold is_hidden. destruct (get_val h c) as [[| [|] | |]|]; split; done.
Qed.

(** Revealing one hidden cell. *)
Lemma reveal_cell g c :
  wf_game g → in_range (dimensions g) c →
  get_val (hidden g) c = Ok (VBool true) →
  ∃ h', set_val (hidden g) c (VBool false) = Ok h' ∧
        wf_game (with_hidden g h') ∧
        length (hidden_cells g) = S (length (hidden_cells (with_hidden g h'))) ∧
        (is_mine_at (board g) c = true →
           length (hidden_safe_cells (with_hidden g h')) = length (hidden_safe_cells g)) ∧
        (is_mine_at (board g) c = false →
           length (hidden_safe_cells g) = S (length (hidden_safe_cells (with_hidden g h')))).
Proof.
  intros (Hvalid & Hshb & Hshh & Hbool) Hc Hget.
  destruct (set_val_in_range (dimensions g) (hidden g) c (VBool false))
    as (h' & Hset & Hsh' & Hsame & Hother); [apply Hvalid|done|done|].
  assert (is_hidden h' c = false) as Hc' by (unfold is_hidden; by rewrite Hsame).
  assert (∀ x, x ∈ all_coords (dimensions g) → x ≠ c → is_hidden h' x = is_hidden (hidden g) x)
    as Hrest.
  { intros x Hx%elem_of_all_coords Hne. unfold is_hidden. by rewrite Hother. }
  assert (c ∈ all_coords (dimensions g)) as Hmem by (by apply elem_of_all_coords).
  exists h'. split_and!; [done| | | |].
  - split_and!; [done|done|done|]. cbn [with_hidden dimensions hidden].
    intros x Hx. destruct (decide (x = c)) as [->|Hne]; [eauto|].
    rewrite Hother by done. by apply Hbool.
  - unfold hidden_cells. cbn [with_hidden dimensions hidden].
    apply (length_filter_remove _ _ _ c); [apply NoDup_all_coords|done| | |].
    + by apply is_hidden_true.
    + by rewrite Hc'.
    + intros x Hx Hne. by rewrite Hrest.
  - intros Hmine. unfold hidden_safe_cells. cbn [with_hidden dimensions hidden board].
    apply length_filter_ext_in. intros x Hx. destruct (decide (x = c)) as [->|Hne].
    + rewrite Hc', Hmine. split; intros [??]; done.
    + by rewrite Hrest.
  - intros Hsafe. unfold hidden_safe_cells. cbn [with_hidden dimensions hidden board].
    apply (length_filter_remove _ _ _ c); [apply NoDup_all_coords|done| | |].
    + split; [by apply is_hidden_true|done].
    + rewrite Hc'. by intros [??].
    + intros x Hx Hne. by rewrite Hrest.
Qed.

Lemma is_mine_at_cell b c cell : get_val b c = Ok cell → is_mine_at b c = py_eq cell mine.
Proof. intros H. unfold is_mine_at. by rewrite H. Qed.

Section DigInvariant.

Variable iter_order : list coord → list coord.
Hypothesis iter_order_perm : ∀ s, iter_order s ≡ₚ s.

Lemma dig_each_invariant (dig : Game → coord → option (result Z * Game)) (bound : nat) :
  (∀ g c, wf_game g → in_range (dimensions g) c →
          (length (hidden_cells g) < bound)%nat →
          ∃ n g', dig g c = Some (Ok n, g') ∧ dig_post g g') →
  ∀ l g acc, wf_game g → Forall (in_range (dimensions g)) l →
             (length (hidden_cells g) < bound)%nat →
             ∃ n g', dig_each dig l g acc = Some (Ok n, g') ∧ dig_post g g'.
Proof.
  intros Hdig l. induction l as [|c l IH]; intros g acc Hwf Hl Hlt.
  - exists acc, g. split; [done|by apply dig_post_refl].
  - apply Forall_cons in Hl as [Hc Hl].
    destruct (Hdig g c Hwf Hc Hlt) as (n & g1 & Hg1 & Hpost1).
    pose proof Hpost1 as (Hwf1 & Hd1 & _ & Hh1 & _).
    destruct (IH g1 (acc + n)) as (m & g' & Hg' & Hpost'); [done|by rewrite Hd1|lia|].
    exists m, g'. cbn [dig_each]. rewrite Hg1. split; [done|].
    by eapply dig_post_trans.
Qed.

(** With more fuel than hidden cells, a dig inside the board returns,
    and keeps [squares_left] in step with the hidden safe cells. *)
Lemma dig_nd_invariant fuel : ∀ g c,
  wf_game g → in_range (dimensions g) c →
  (length (hidden_cells g) < fuel)%nat →
  ∃ n g', dig_nd iter_order fuel g c = Some (Ok n, g') ∧ dig_post g g'.
Proof.
  induction fuel as [|fuel IH]; intros g c Hwf Hc Hlt; [lia|].
  cbn [dig_nd]; unfold dig_step. destruct (state g) eqn:Hstate;
    [|by eexists _, g; split; [done|apply dig_post_refl]..].
  pose proof Hwf as (Hvalid & Hshb & Hshh & Hbool).
  destruct (Hbool c Hc) as [[|] Hhid]; rewrite Hhid; cbn [truthy negb];
    [|by eexists _, g; split; [done|apply dig_post_refl]].
  destruct (reveal_cell g c Hwf Hc Hhid) as (h' & Hset & Hwf1 & Hcount & Hmine & Hsafe).
  rewrite Hset. cbn [with_hidden board].
  destruct (get_val_in_range (dimensions g) (board g) c) as [cell Hcell];
    [apply Hvalid|done|done|].
  rewrite Hcell. rewrite (is_mine_at_cell _ _ _ Hcell) in Hmine, Hsafe.
  fold (with_hidden g h').
  destruct (py_eq cell mine) eqn:Hismine; cbn [negb].
  - eexists _, _. split; [done|].
    split_and!; [done|done|done| |].
    + change (hidden_cells (with_state (with_hidden g h') Defeat))
        with (hidden_cells (with_hidden g h')). lia.
    + change (hidden_safe_cells (with_state (with_hidden g h') Defeat))
        with (hidden_safe_cells (with_hidden g h')).
      cbn [with_state with_hidden squares_left]. rewrite Hmine by done. done.
  - set (g2 := with_squares_left (with_hidden g h') (squares_left (with_hidden g h') - 1)).
    assert (dig_post g g2) as Hpost2.
    { split_and!; [done|done|done| |].
      - change (hidden_cells g2) with (hidden_cells (with_hidden g h')). lia.
      - change (hidden_safe_cells g2) with (hidden_safe_cells (with_hidden g h')).
        unfold g2. cbn [with_squares_left with_hidden squares_left].
        rewrite (Hsafe eq_refl). lia. }
    case_bool_decide as Hzero.
    { eexists _, _. split; [done|]. eapply dig_post_trans; [done|].
      split_and!; [apply Hpost2|done..]. }
    destruct (py_eq cell (VInt 0)).
    + destruct (get_neighors_nd_in_range (dimensions g) c) as (nb & Hnb & _ & Hin);
        [apply Hvalid|done|].
      change (dimensions g2) with (dimensions g). rewrite Hnb.
      destruct (dig_each_invariant (dig_nd iter_order fuel) fuel IH
                  (iter_order nb) g2 1) as (n & g' & Hg' & Hpost').
      * apply Hpost2.
      * apply Forall_forall. intros x Hx. rewrite iter_order_perm in Hx.
        by apply Hin in Hx as [? _].
      * change (hidden_cells g2) with (hidden_cells (with_hidden g h')). lia.
      * exists n, g'. split; [done|]. by eapply dig_post_trans.
    + by eexists _, _.
Qed.

End DigInvariant.

Lemma length_hidden_cells g :
  valid_dims (dimensions g) →
  (length (hidden_cells g) ≤ Z.to_nat (total_cells (dimensions g)))%nat.
Proof.
  intros [_ Hpos]. unfold hidden_cells.
  etrans; [apply length_filter|].
  rewrite <- length_all_coords, Nat2Z.id; [done|].
  eapply Forall_impl; [done|]. simpl. lia.
Qed.

Lemma length_safe_cells dims bombs :
  NoDup bombs → Forall (in_range dims) bombs →
  (length (filter (λ c, c ∉ bombs) (all_coords dims)) + length bombs
   = length (all_coords dims))%nat.
Proof.
  intros Hnd Hin.
  rewrite <- (length_app _ bombs).
  rewrite <- (filter_app_complement (λ c, c ∈ bombs) (all_coords dims)) at 2.
  rewrite !length_app. rewrite Nat.add_comm. f_equal.
  apply Permutation_length, NoDup_Permutation;
    [done|apply NoDup_filter, NoDup_all_coords|].
  intros c. rewrite list_elem_of_filter, elem_of_all_coords.
  rewrite Forall_forall in Hin. split; [|by intros [? _]].
  intros Hc. split; [done|by apply Hin].
Qed.

Section SquaresLeft.

Variable iter_order : list coord → list coord.
Hypothesis iter_order_perm : ∀ s, iter_order s ≡ₚ s.

Lemma dig_seq_invariant fuel cs : ∀ g,
  wf_game g → Forall (in_range (dimensions g)) cs →
  (Z.to_nat (total_cells (dimensions g)) < fuel)%nat →
  ∃ g', dig_seq iter_order fuel g cs = Some (Ok g') ∧ dig_post g g'.
Proof.
  induction cs as [|c cs IH]; intros g Hwf Hcs Hfuel.
  - exists g. split; [done|by apply dig_post_refl].
  - apply Forall_cons in Hcs as [Hc Hcs].
    destruct (dig_nd_invariant iter_order iter_order_perm fuel g c)
      as (n & g1 & Hg1 & Hpost1); [done|done| |].
    { pose proof (length_hidden_cells g (proj1 Hwf)). lia. }
    pose proof Hpost1 as (Hwf1 & Hd1 & _).
    destruct (IH g1) as (g' & Hg' & Hpost'); [done|by rewrite Hd1|by rewrite Hd1|].
    exists g'. cbn [dig_seq]. rewrite Hg1. split; [done|].
    by eapply dig_post_trans.
Qed.

(** C2. For a game built by [new_game_nd] from distinct mines inside a
    board, [squares_left] is at first the number of cells minus the
    number of mines; and after any sequence of digs at coordinates of
    the board, each of which returns a value once the recursion bound
    exceeds the number of cells, it is the number of cells that are
    hidden and hold no mine. *)
Theorem squares_left_invariant dims bombs :
  valid_dims dims → NoDup bombs → Forall (in_range dims) bombs →
  ∃ g0, new_game_nd iter_order dims bombs = Ok g0 ∧
        squares_left g0 = total_cells dims - Z.of_nat (length bombs) ∧
        ∀ cs fuel,
          Forall (in_range dims) cs →
          (Z.to_nat (total_cells dims) < fuel)%nat →
          ∃ g, dig_seq iter_order fuel g0 cs = Some (Ok g) ∧
               squares_left g = Z.of_nat (length (hidden_safe_cells g)).
Proof.
  intros Hvalid Hnd Hin.
  destruct (new_game_nd_spec iter_order iter_order_perm dims bombs Hvalid Hin)
    as (g0 & Hg0 & Hdims & Hstate & Hleft & Hshb & Hshh & Hcells).
  assert (wf_game g0) as Hwf.
  { rewrite <- Hdims in *. split_and!; [done..|]. intros c Hc.
    destruct (Hcells c Hc) as [_ ?]. eauto. }
  assert (squares_left g0 = Z.of_nat (length (hidden_safe_cells g0))) as Hinit.
  { rewrite Hleft. pose proof (length_safe_cells dims bombs Hnd Hin) as Hlen.
    rewrite <- length_all_coords by (eapply Forall_impl; [apply Hvalid|]; simpl; lia).
    assert (length (hidden_safe_cells g0)
            = length (filter (λ c, c ∉ bombs) (all_coords dims))) as ->; [|lia].
    unfold hidden_safe_cells. rewrite Hdims.
    apply length_filter_ext_in. intros c Hc%elem_of_all_coords.
    destruct (Hcells c Hc) as [Hb Hh]. unfold is_hidden, is_mine_at. rewrite Hb, Hh.
    destruct (decide (c ∈ bombs)) as [Hmem|Hmem].
    - rewrite bool_decide_eq_true_2 by done. split; [by intros [_ ?]|done].
    - rewrite bool_decide_eq_false_2 by done. split; [done|]. intros _. by split. }
  exists g0. split_and!; [done|done|]. intros cs fuel Hcs Hfuel.
  destruct (dig_seq_invariant fuel cs g0) as (g & Hg & Hpost);
    [done|by rewrite Hdims|by rewrite Hdims|].
  exists g. split; [done|]. destruct Hpost as (_ & _ & _ & _ & Heq). lia.
Qed.

End SquaresLeft.

(** * Rendering *)

Lemma pretty_N_go_ne_underscore x s : s ≠ "_" → pretty_N_go x s ≠ "_".
Proof.
  revert s. induction (N.lt_wf_0 x) as [x _ IH]; intros s ?.
  assert (x = 0 ∨ 0 < x)%N as [->|?] by lia.
  - by rewrite pretty_N_go_0.
  - rewrite pretty_N_go_step by done. apply IH.
    { by apply N.div_lt. }
    unfold pretty_N_char. by repeat case_match.
Qed.

Lemma pretty_Z_ne_underscore (z : Z) : pretty z ≠ "_".
Proof.
  destruct z as [|p|p]; unfold pretty, pretty_Z; [done| |done].
  unfold pretty, pretty_positive, pretty, pretty_N.
  case_decide; [done|]. by apply pretty_N_go_ne_underscore.
Qed.

Lemma forM_opt_spec {A B} (P : A → B → Prop) (f : A → option (result B)) l :
  (∀ x, x ∈ l → ∃ y, f x = Some (Ok y) ∧ P x y) →
  ∃ ys, forM_opt l f = Some (Ok ys) ∧ Forall2 P l ys.
Proof.
  induction l as [|x l IH]; intros Hf.
  - exists []. split; [done|constructor].
  - destruct (Hf x) as (y & Hy & HP); [left|].
    destruct IH as (ys & Hys & HF); [intros; apply Hf; by right|].
    exists (y :: ys). cbn [forM_opt]. rewrite Hy, Hys.
    split; [done|by constructor].
Qed.

Lemma render_cell_spec xray hid cell :
  cell = mine ∨ (∃ n, cell = VInt n) →
  ∃ s, (if py_eq (VBool hid) (VBool true) && negb xray then Some (Ok (VStr "_"))
        else if py_eq cell (VInt 0) then Some (Ok (VStr " "))
             else match py_str cell with
                  | Some s => Some (Ok (VStr s))
                  | None => None
                  end) = Some (Ok (VStr s)) ∧
       symbol_ok xray hid cell s.
Proof.
  intros Hcell.
  assert (py_eq (VBool hid) (VBool true) = hid) as -> by (by destruct hid).
  destruct hid, xray; cbn [andb negb].
  2:{ exists "_". split; [done|]. split; [done|]. by intros []. }
  all: destruct Hcell as [->|[n ->]];
    [exists "."; split; [done|]; split; [split; [done|by intros [??]]|];
     intros _; split_and!; [done|done|intros ?? [=]]|].
  all: cbn [py_eq]; destruct (Z.eqb_spec n 0) as [->|Hn];
    [exists " "; split; [done|]; split; [split; [done|by intros [??]]|];
     intros _; split_and!; [done|done|by intros ?? [= <-]]|].
  all: exists (pretty n); split; [done|]; split;
    [split; [by intros ?%pretty_Z_ne_underscore|by intros [??]]|].
  all: intros _; split_and!; [done|by intros [= ->]|by intros ?? [= ->]].
Qed.

Lemma cells_satisfy_row P d ds v i sub :
  0 ≤ i < d → ds ≠ [] → get_item v i = Ok sub →
  cells_satisfy (d :: ds) v P → cells_satisfy ds sub P.
Proof.
  intros Hi Hne Hsub Hcells c Hc.
  destruct (Hcells (i :: c)) as (x & Hget & Hx); [by constructor|].
  destruct c as [|j c]; [by apply in_range_length in Hc; destruct ds|].
  rewrite get_val_cons, Hsub, bind_ok in Hget. eauto.
Qed.

Lemma render_grid_spec xray dims : ∀ b h,
  dims ≠ [] → Forall (λ d, 0 ≤ d) dims →
  has_shape dims b → has_shape dims h →
  board_cells dims b → hidden_cells_bool dims h →
  ∃ r, render_grid dims b h xray = Some (Ok r) ∧ has_shape dims r ∧
       ∀ c, in_range dims c → rendered xray b h r c.
Proof.
  induction dims as [|d ds IH]; intros b h Hne Hpos Hshb Hshh Hb Hh; [done|].
  apply Forall_cons in Hpos as [Hd Hpos].
  destruct ds as [|d' ds'].
  - destruct (forM_opt_spec
                (λ i y, ∃ s hid cell, y = VStr s ∧ get_val h [i] = Ok (VBool hid) ∧
                                      get_val b [i] = Ok cell ∧ symbol_ok xray hid cell s)
                (λ coord,
                   match get_val h [coord] with
                   | Raise e => Some (Raise e)
                   | Ok hv =>
                       if py_eq hv (VBool true) && negb xray then Some (Ok (VStr "_"))
                       else match get_val b [coord] with
                            | Raise e => Some (Raise e)
                            | Ok cell =>
                                if py_eq cell (VInt 0) then Some (Ok (VStr " "))
                                else match py_str cell with
                                     | Some s => Some (Ok (VStr s))
                                     | None => None
                                     end
                            end
                   end) (seqZ 0 d)) as (locs & Hlocs & Hall).
    { intros i Hi%elem_of_seqZ.
      destruct (Hh [i]) as (hv & Hhv & hid & ->); [constructor; [lia|constructor]|].
      destruct (Hb [i]) as (cell & Hcell & Hkind); [constructor; [lia|constructor]|].
      destruct (render_cell_spec xray hid cell Hkind) as (s & Hs & Hok).
      exists (VStr s). rewrite Hhv. split; [|by eauto 8].
      destruct (py_eq (VBool hid) (VBool true) && negb xray); [done|].
      by rewrite Hcell. }
    exists (VList locs). cbn [render_grid]. rewrite Hlocs.
    assert (length locs = Z.to_nat d) as Hlen.
    { apply Forall2_length in Hall. by rewrite length_seqZ in Hall. }
    split_and!; [done| |].
    + exists locs. split_and!; [done|lia|by apply Forall_true].
    + intros c Hc.
      apply in_range_cons_inv in Hc as (i & t & -> & Hi & ->%in_range_nil_inv).
      assert (seqZ 0 d !! Z.to_nat i = Some i) as Hseq
        by (rewrite lookup_seqZ; split; lia).
      destruct (Forall2_lookup_l _ _ _ _ _ Hall Hseq)
        as (y & Hy & s & hid & cell & -> & Hhv & Hcell & Hok).
      exists s, hid, cell. split_and!; [|done..].
      rewrite get_val_one.
      destruct (get_item_in_range locs i) as (y & Hy' & ->); [lia|]. congruence.
  - set (ds := d' :: ds') in *.
    pose proof Hshb as (lb & -> & Hlb & Hallb).
    pose proof Hshh as (lh & -> & Hlh & Hallh).
    destruct (forM_opt_spec
                (λ i y, ∃ sb sh, get_item (VList lb) i = Ok sb ∧
                                 get_item (VList lh) i = Ok sh ∧
                                 has_shape ds y ∧
                                 ∀ c, in_range ds c → rendered xray sb sh y c)
                (λ index,
                   match get_item (VList lb) index with
                   | Raise e => Some (Raise e)
                   | Ok sub_board =>
                       match get_item (VList lh) index with
                       | Raise e => Some (Raise e)
                       | Ok sub_hidden => render_grid ds sub_board sub_hidden xray
                       end
                   end) (seqZ 0 d)) as (rows & Hrows & Hall).
    { intros i Hi%elem_of_seqZ.
      destruct (get_item_in_range lb i) as (sb & Hsb & Hgb); [lia|].
      destruct (get_item_in_range lh i) as (sh & Hsh & Hgh); [lia|].
      destruct (IH sb sh) as (y & Hy & Hshy & Hcells); [done|done| | | | |].
      - by eapply Forall_lookup_1 in Hallb.
      - by eapply Forall_lookup_1 in Hallh.
      - eapply (cells_satisfy_row _ d ds _ i); [lia|done|done|done].
      - eapply (cells_satisfy_row _ d ds _ i); [lia|done|done|done].
      - exists y. rewrite Hgb, Hgh. split; [done|]. eauto 8. }
    exists (VList rows). subst ds. cbn [render_grid]. cbn [render_grid] in Hrows.
    rewrite Hrows.
    assert (length rows = Z.to_nat d) as Hlen.
    { apply Forall2_length in Hall. by rewrite length_seqZ in Hall. }
    split_and!; [done| |].
    + exists rows. split_and!; [done|lia|].
      apply Forall_forall. intros y Hy. apply list_elem_of_lookup in Hy as [k Hk].
      destruct (Forall2_lookup_r _ _ _ _ _ Hall Hk) as (i & _ & sb & sh & _ & _ & Hshy & _).
      done.
    + intros c Hc.
      apply in_range_cons_inv in Hc as (i & t & -> & Hi & Ht).
      pose proof Ht as Ht'.
      apply in_range_cons_inv in Ht' as (j & t' & -> & _ & _).
      assert (seqZ 0 d !! Z.to_nat i = Some i) as Hseq
        by (rewrite lookup_seqZ; split; lia).
      destruct (Forall2_lookup_l _ _ _ _ _ Hall Hseq)
        as (y & Hy & sb & sh & Hgb & Hgh & _ & Hcells).
      destruct (Hcells _ Ht) as (s & hid & cell & Hr & Hhv & Hcell & Hok).
      exists s, hid, cell. rewrite !get_val_cons, Hgb, Hgh, !bind_ok.
      split_and!; [|done..].
      destruct (get_item_in_range rows i) as (y' & Hy' & ->); [lia|].
      rewrite bind_ok. congruence.
Qed.

(** C10. For a game whose grids have the shape of its dimensions, whose
    board holds mines and ints and whose hidden mask holds booleans,
    [render_nd] returns a grid of the same shape; the symbol of a cell
    is ['_'] exactly when [xray] is false and the cell is hidden, and
    otherwise ['.'] for a mine, a space for the count 0 and the decimal
    text of any other count. With [xray] true no ['_'] appears. *)
Theorem render_nd_symbols g xray :
  wf_game g → board_cells (dimensions g) (board g) →
  ∃ r, render_nd g xray = Some (Ok r) ∧
       has_shape (dimensions g) r ∧
       (∀ c, in_range (dimensions g) c → rendered xray (board g) (hidden g) r c) ∧
       (xray = true → ∀ c, in_range (dimensions g) c → get_val r c ≠ Ok (VStr "_")).
Proof.
  intros (Hvalid & Hshb & Hshh & Hbool) Hcells.
  destruct (render_grid_spec xray (dimensions g) (board g) (hidden g))
    as (r & Hr & Hshr & Hall); [apply Hvalid| |done|done|done| |].
  { eapply Forall_impl; [apply Hvalid|]. simpl. lia. }
  { intros c Hc. destruct (Hbool c Hc) as [hid Hhid]. eauto. }
  exists r. split_and!; [done|done|done|].
  intros -> c Hc. destruct (Hall c Hc) as (s & hid & cell & -> & _ & _ & [Hiff _]).
  intros [= ->]. by destruct Hiff as [[??] _].
Qed.

(** * Independence of the traversal order *)

Lemma has_shape_ext dims : ∀ v w,
  dims ≠ [] → has_shape dims v → has_shape dims w →
  (∀ c, in_range dims c → get_val v c = get_val w c) → v = w.
Proof.
  induction dims as [|d ds IH]; intros v w Hne Hv Hw Hext; [done|].
  destruct Hv as (lv & -> & Hlv & Hallv). destruct Hw as (lw & -> & Hlw & Hallw).
  f_equal. apply list_eq_same_length with (Z.to_nat d); [lia|lia|].
  intros k x y Hk Hx Hy.
  assert (get_item (VList lv) (Z.of_nat k) = Ok x) as Hgx.
  { destruct (get_item_in_range lv (Z.of_nat k)) as (x' & Hx' & ->); [lia|].
    rewrite Nat2Z.id in Hx'. congruence. }
  assert (get_item (VList lw) (Z.of_nat k) = Ok y) as Hgy.
  { destruct (get_item_in_range lw (Z.of_nat k)) as (y' & Hy' & ->); [lia|].
    rewrite Nat2Z.id in Hy'. congruence. }
  destruct ds as [|d' ds'].
  - specialize (Hext [Z.of_nat k]). rewrite !get_val_one, Hgx, Hgy in Hext.
    assert (Ok x = Ok y) as [= ->]; [|done].
    apply Hext. constructor; [lia|constructor].
  - apply IH; [done| | |].
    + by eapply Forall_lookup_1 in Hallv.
    + by eapply Forall_lookup_1 in Hallw.
    + intros c Hc. specialize (Hext (Z.of_nat k :: c)).
      pose proof Hc as Hc'. apply in_range_cons_inv in Hc' as (j & t & -> & _ & _).
      rewrite !get_val_cons, Hgx, Hgy, !bind_ok in Hext.
      apply Hext. constructor; [lia|done].
Qed.

(** For mines inside the board the game that [new_game_nd] returns does
    not depend on the order in which the neighbor sets are walked. *)
Lemma new_game_nd_order_irrelevant order1 order2 dims bombs :
  (∀ s, order1 s ≡ₚ s) → (∀ s, order2 s ≡ₚ s) →
  valid_dims dims → Forall (in_range dims) bombs →
  new_game_nd order1 dims bombs = new_game_nd order2 dims bombs.
Proof.
  intros H1 H2 Hvalid Hin.
  destruct (new_game_nd_spec order1 H1 dims bombs Hvalid Hin)
    as (g1 & -> & Hd1 & Hs1 & Hl1 & Hb1 & Hh1 & Hc1).
  destruct (new_game_nd_spec order2 H2 dims bombs Hvalid Hin)
    as (g2 & -> & Hd2 & Hs2 & Hl2 & Hb2 & Hh2 & Hc2).
  f_equal. destruct g1 as [d1 b1 h1 s1 l1], g2 as [d2 b2 h2 s2 l2].
  cbn [dimensions board hidden state squares_left] in *. subst d1 d2 s1 s2 l1 l2.
  f_equal.
  - apply (has_shape_ext dims); [apply Hvalid|done|done|].
    intros c Hc. destruct (Hc1 c Hc) as [-> _]. by destruct (Hc2 c Hc) as [-> _].
  - apply (has_shape_ext dims); [apply Hvalid|done|done|].
    intros c Hc. destruct (Hc1 c Hc) as [_ ->]. by destruct (Hc2 c Hc) as [_ ->].
Qed.

(** ** More fuel gives the same answer *)

Lemma dig_each_mono (dig dig' : Game → coord → option (result Z * Game)) :
  (∀ g c r, dig g c = Some r → dig' g c = Some r) →
  ∀ l g acc r, dig_each dig l g acc = Some r → dig_each dig' l g acc = Some r.
Proof.
  intros Hdig l. induction l as [|n l IH]; intros g acc r; [done|].
  cbn [dig_each]. destruct (dig g n) as [[[k|e] g']|] eqn:Hn; [| |done].
  - rewrite (Hdig _ _ _ Hn). apply IH.
  - by rewrite (Hdig _ _ _ Hn).
Qed.

Lemma dig_step_mono order (dig dig' : Game → coord → option (result Z * Game)) :
  (∀ g c r, dig g c = Some r → dig' g c = Some r) →
  ∀ g c r, dig_step order dig g c = Some r → dig_step order dig' g c = Some r.
Proof.
  intros Hdig g c r. unfold dig_step.
  repeat case_match; try done. by apply dig_each_mono.
Qed.

Lemma dig_nd_fuel_S order fuel : ∀ g c r,
  dig_nd order fuel g c = Some r → dig_nd order (S fuel) g c = Some r.
Proof.
  induction fuel as [|fuel IH]; intros g c r; [done|].
  apply dig_step_mono, IH.
Qed.

Lemma dig_nd_fuel_mono order fuel fuel' g c r :
  (fuel ≤ fuel')%nat →
  dig_nd order fuel g c = Some r → dig_nd order fuel' g c = Some r.
Proof.
  induction 1 as [|fuel' _ IH]; [done|]. intros H. by apply dig_nd_fuel_S, IH.
Qed.

(** ** Every traversal order at once *)

Lemma dig_each_in_all dig dig_all :
  (∀ g c, dig g c ∈ dig_all g c) →
  ∀ l g acc, dig_each dig l g acc ∈ dig_each_all dig_all l g acc.
Proof.
  intros Hdig l. induction l as [|n l IH]; intros g acc; cbn [dig_each dig_each_all].
  - by apply list_elem_of_singleton.
  - apply list_elem_of_bind. exists (dig g n). split; [|done].
    destruct (dig g n) as [[[k|e] g']|]; [apply IH|by apply list_elem_of_singleton..].
Qed.

Section AllOrders.

Variable iter_order : list coord → list coord.
Hypothesis iter_order_perm : ∀ s, iter_order s ≡ₚ s.

Lemma dig_step_in_all dig dig_all :
  (∀ g c, dig g c ∈ dig_all g c) →
  ∀ g c, dig_step iter_order dig g c ∈ dig_step_all dig_all g c.
Proof.
  intros Hdig g c. unfold dig_step, dig_step_all.
  repeat case_match; try (by apply list_elem_of_singleton).
  all: apply list_elem_of_bind; eexists; split; [by apply dig_each_in_all|].
  all: apply permutations_Permutation; by rewrite iter_order_perm.
Qed.

(** Whatever the traversal order, the outcome of [dig_nd] is one of
    those listed by [dig_nd_all]. *)
Lemma dig_nd_in_all fuel : ∀ g c, dig_nd iter_order fuel g c ∈ dig_nd_all fuel g c.
Proof.
  induction fuel as [|fuel IH]; intros g c.
  - by apply list_elem_of_singleton.
  - by apply dig_step_in_all.
Qed.

End AllOrders.

(** * The 2 by 4 example of the docstrings *)

Lemma identity_order_perm s : identity_order s ≡ₚ s.
Proof. done. Qed.

Lemma all_outcomes_equal fuel g c r :
  dig_nd_all fuel g c = replicate (length (dig_nd_all fuel g c)) (Some r) →
  ∀ order, (∀ s, order s ≡ₚ s) →
  ∀ fuel', (fuel ≤ fuel')%nat → dig_nd order fuel' g c = Some r.
Proof.
  intros Hall order Hperm fuel' Hle.
  apply (dig_nd_fuel_mono order fuel); [done|].
  pose proof (dig_nd_in_all order Hperm fuel g c) as Hin.
  rewrite Hall in Hin. by apply elem_of_replicate in Hin as [-> _].
Qed.

Section Example.

Variable iter_order : list coord → list coord.
Hypothesis iter_order_perm : ∀ s, iter_order s ≡ₚ s.

(** C4 (amended). [new_game_nd((2,4), [(0,0),(1,0),(1,1)])] returns the
    board [[['.',3,1,0],['.','.',1,0]]], all cells hidden, state
    ongoing and [squares_left] 5. On that game [dig_nd] at (0,3) returns
    4 and leaves the state ongoing with [squares_left] 1: the cell
    (0,1), which holds 3, stays hidden. The outcome victory with
    [squares_left] 0 is that of the same dig on the game in which (0,1)
    is already revealed and [squares_left] is 4. All of this holds for
    every traversal order and every recursion bound of at least 3. *)
Theorem dig_example_2x4 fuel :
  (3 ≤ fuel)%nat →
  new_game_nd iter_order [2; 4] example_bombs = Ok example_game ∧
  dig_nd iter_order fuel example_game [0; 3] = Some (Ok 4, example_game_dug) ∧
  dig_nd iter_order fuel docstring_game [0; 3] = Some (Ok 4, docstring_game_dug).
Proof.
  intros Hfuel. split_and!.
  - rewrite (new_game_nd_order_irrelevant iter_order identity_order);
      [by vm_compute|done|apply identity_order_perm| |].
    + split; [done|]. repeat (constructor; try lia).
    + repeat (constructor; try lia).
  - apply (all_outcomes_equal 3); [by vm_compute|done|done].
  - apply (all_outcomes_equal 3); [by vm_compute|done|done].
Qed.

End Example.

(** * Construction from malformed input *)

Lemma foldM_index_error {A B} (I : B → Prop) (f : B → A → result B) l : ∀ acc,
  (∀ acc x, I acc → f acc x = Raise IndexError ∨ ∃ acc', f acc x = Ok acc' ∧ I acc') →
  I acc →
  (foldM f acc l = Raise IndexError ∨ ∃ acc', foldM f acc l = Ok acc' ∧ I acc') ∧
  ∀ x0, x0 ∈ l → (∀ acc, I acc → f acc x0 = Raise IndexError) →
        foldM f acc l = Raise IndexError.
Proof.
  induction l as [|x l IH]; intros acc Hf Hacc.
  { split; [right; eauto|]. intros x0 Hx0. by apply elem_of_nil in Hx0. }
  cbn [foldM]. destruct (Hf acc x Hacc) as [Hx|(acc' & Hx & Hacc')]; rewrite Hx.
  { split; [by left|done]. }
  rewrite bind_ok. destruct (IH acc' Hf Hacc') as [Hres Hraise]. split; [done|].
  intros x0 [->|Hx0]%elem_of_cons Hbad.
  - rewrite (Hbad acc Hacc) in Hx. done.
  - by apply (Hraise x0).
Qed.

Lemma forM_index_error {A B} (f : A → result B) l :
  (∀ x, x ∈ l → f x ≠ Raise TypeError) →
  forM l f ≠ Raise TypeError ∧
  ∀ x0, x0 ∈ l → f x0 = Raise IndexError → forM l f = Raise IndexError.
Proof.
  induction l as [|x l IH]; intros Hf.
  { split; [done|]. intros x0 Hx0. by apply elem_of_nil in Hx0. }
  cbn [forM]. pose proof (Hf x ltac:(left)) as Hx.
  destruct IH as [Hres Hraise]; [intros; apply Hf; by right|].
  destruct (f x) as [y|[]] eqn:Hfx; [|by split|done].
  rewrite bind_ok. destruct (forM l f) as [ys|[]] eqn:Hl.
  - rewrite bind_ok. split; [done|].
    intros x0 [->|Hx0]%elem_of_cons Hbad; [congruence|].
    by specialize (Hraise x0 Hx0 Hbad).
  - by split.
  - done.
Qed.

Lemma tuple_get_index_error (t : list Z) i :
  tuple_get t i = Raise IndexError ∨ ∃ x, tuple_get t i = Ok x.
Proof.
  unfold tuple_get. destruct (norm_index (length t) i) as [k|e] eqn:Hk.
  - rewrite bind_ok. destruct (t !! k); eauto.
  - left. unfold norm_index in Hk. repeat case_bool_decide; by simplify_eq.
Qed.

Lemma place_mine_keeps_length (n : nat) (board : value) (bomb : coord) :
  (∃ l, board = VList l ∧ length l = n) →
  (b0 ← tuple_get bomb 0; set_item board b0 mine) = Raise IndexError ∨
  ∃ board', (b0 ← tuple_get bomb 0; set_item board b0 mine) = Ok board' ∧
            ∃ l, board' = VList l ∧ length l = n.
Proof.
  intros (l & -> & Hlen).
  destruct (tuple_get_index_error bomb 0) as [->|[b0 ->]]; [by left|].
  rewrite bind_ok. unfold set_item.
  destruct (norm_index (length l) b0) as [k|e] eqn:Hk.
  - right. rewrite bind_ok. eexists. split; [done|].
    eexists. split; [done|]. by rewrite length_insert.
  - left. unfold norm_index in Hk. repeat case_bool_decide; by simplify_eq.
Qed.

(** On a board with one axis, a mine whose index Python does not
    accept for the axis makes [create_game_0] raise, whatever the
    other mines are. *)
Lemma create_game_0_one_axis_outside d bombs x t :
  x :: t ∈ bombs → ¬ (- d ≤ x < d) →
  create_game_0 [d] bombs = Raise IndexError.
Proof.
  intros Hin Hout. cbn [create_game_0].
  destruct (foldM_index_error (λ board, ∃ l, board = VList l ∧ length l = Z.to_nat d)
              (λ board bomb, b0 ← tuple_get bomb 0; set_item board b0 mine)
              bombs (VList (replicate (Z.to_nat d) (VInt 0)))) as [_ Hraise].
  - intros acc b Hacc. by apply place_mine_keeps_length.
  - eexists. split; [done|]. apply length_replicate.
  - rewrite (Hraise (x :: t) Hin); [done|].
    intros acc (l & -> & Hlen). rewrite tuple_get_head, bind_ok. unfold set_item.
    rewrite norm_index_outside; [done|]. lia.
Qed.

Section Validation.

Variable iter_order : list coord → list coord.
Hypothesis iter_order_perm : ∀ s, iter_order s ≡ₚ s.

Lemma iter_order_two a b :
  iter_order [a; b] = [a; b] ∨ iter_order [a; b] = [b; a].
Proof. apply Permutation_length_2_inv. symmetry. apply iter_order_perm. Qed.

Lemma new_game_nd_negative_mine :
  new_game_nd iter_order [3] [[-1]] = Ok negative_mine_game.
Proof.
  unfold new_game_nd, update_bombs_nd.
  assert (create_game_0 [3] [[-1]]
          = Ok (MkGame [3] (VList [VInt 0; VInt 0; mine])
                       (VList [VBool true; VBool true; VBool true]) Ongoing 2)) as ->
    by (by vm_compute).
  rewrite bind_ok. cbn [board foldM].
  assert (get_neighors_nd [3] [-1] = Ok [[0]; [-1]]) as -> by (by vm_compute).
  rewrite bind_ok. destruct (iter_order_two [0] [-1]) as [-> | ->]; by vm_compute.
Qed.

Lemma new_game_nd_outside_mine :
  new_game_nd iter_order [2; 1] [[2; 0]] = Ok outside_mine_game.
Proof.
  unfold new_game_nd, update_bombs_nd.
  assert (create_game_0 [2; 1] [[2; 0]]
          = Ok (MkGame [2; 1] (VList [VList [VInt 0]; VList [VInt 0]])
                       (VList [VList [VBool true]; VList [VBool true]]) Ongoing 1)) as ->
    by (by vm_compute).
  rewrite bind_ok. cbn [board foldM].
  assert (get_neighors_nd [2; 1] [2; 0] = Ok [[1; 0]; [2; 0]]) as -> by (by vm_compute).
  rewrite bind_ok. destruct (iter_order_two [1; 0] [2; 0]) as [-> | ->]; by vm_compute.
Qed.

(** C8 (amended). [new_game_nd] rejects some malformed inputs but not
    all. An empty dimensions list makes it raise [IndexError], whatever
    the mines. Mines inside the board are accepted whether repeated or
    not: a game is returned whose [squares_left] is the number of cells
    minus [len(bombs)] and whose counts count a repeated mine once per
    occurrence. A mine outside the board is rejected in some cases and
    accepted in others: on a board with one axis a mine whose index is
    outside [-dim, dim-1] makes [new_game_nd] raise [IndexError],
    whatever the other mines are, while [new_game_nd((3,), [(-1,)])]
    and [new_game_nd((2, 1), [(2, 0)])] return games. [new_game_2d] is
    [new_game_nd] on [(num_rows, num_cols)]. *)
Theorem new_game_nd_validation :
  (∀ bombs, new_game_nd iter_order [] bombs = Raise IndexError) ∧
  (∀ dims bombs,
     valid_dims dims → Forall (in_range dims) bombs →
     ∃ g, new_game_nd iter_order dims bombs = Ok g ∧
          squares_left g = total_cells dims - Z.of_nat (length bombs) ∧
          ∀ c, in_range dims c →
               get_val (board g) c =
               Ok (if bool_decide (c ∈ bombs) then mine
                   else VInt (adjacent_bombs bombs c))) ∧
  (∀ d bombs x t,
     x :: t ∈ bombs → ¬ (- d ≤ x < d) →
     new_game_nd iter_order [d] bombs = Raise IndexError) ∧
  new_game_nd iter_order [3] [[-1]] = Ok negative_mine_game ∧
  new_game_nd iter_order [2; 1] [[2; 0]] = Ok outside_mine_game ∧
  (∀ num_rows num_cols bombs,
     new_game_2d iter_order num_rows num_cols bombs
     = new_game_nd iter_order [num_rows; num_cols] bombs).
Proof.
  split_and!.
  - done.
  - intros dims bombs Hvalid Hin.
    destruct (new_game_nd_spec iter_order iter_order_perm dims bombs Hvalid Hin)
      as (g & Hg & _ & _ & Hleft & _ & _ & Hcells).
    exists g. split_and!; [done|done|]. intros c Hc. by destruct (Hcells c Hc).
  - intros d bombs x t Hin Hout. unfold new_game_nd.
    by rewrite (create_game_0_one_axis_outside d bombs x t Hin Hout).
  - apply new_game_nd_negative_mine.
  - apply new_game_nd_outside_mine.
  - done.
Qed.

(** A game built from mines inside the board is well formed. *)
Lemma new_game_nd_wf dims bombs g :
  valid_dims dims → Forall (in_range dims) bombs →
  new_game_nd iter_order dims bombs = Ok g →
  wf_game g ∧ board_cells (dimensions g) (board g).
Proof.
  intros Hvalid Hin Hg.
  destruct (new_game_nd_spec iter_order iter_order_perm dims bombs Hvalid Hin)
    as (g' & Hg' & Hdims & _ & _ & Hshb & Hshh & Hcells).
  assert (g' = g) as -> by congruence. unfold wf_game. rewrite Hdims.
  split; [split_and!; [done..|]|].
  - intros c Hc. destruct (Hcells c Hc) as [_ ?]. eauto.
  - intros c Hc. destruct (Hcells c Hc) as [-> _].
    eexists. split; [done|]. case_bool_decide; eauto.
Qed.

End Validation.

(** * Concrete instances *)

Lemma new_game_nd_counts_witness :
  ∃ g, new_game_nd identity_order [2; 4] example_bombs = Ok g ∧
       ∀ c, in_range [2; 4] c →
            (c ∈ example_bombs → get_val (board g) c = Ok mine) ∧
            (c ∉ example_bombs →
             get_val (board g) c = Ok (VInt (mines_around [2; 4] (board g) c))).
Proof.
  apply (new_game_nd_counts identity_order identity_order_perm [2; 4] example_bombs);
    by_decide.
Defined.

Lemma squares_left_invariant_witness :
  ∃ g0, new_game_nd identity_order [2; 4] example_bombs = Ok g0 ∧
        squares_left g0 = total_cells [2; 4] - Z.of_nat (length example_bombs) ∧
        ∀ cs fuel,
          Forall (in_range [2; 4]) cs →
          (Z.to_nat (total_cells (dimensions example_game)) < fuel)%nat →
          ∃ g, dig_seq identity_order fuel g0 cs = Some (Ok g) ∧
               squares_left g = Z.of_nat (length (hidden_safe_cells g)).
Proof.
  apply (squares_left_invariant identity_order identity_order_perm [2; 4] example_bombs);
    by_decide.
Defined.

Lemma get_neighors_nd_correct_witness :
  ∃ l, get_neighors_nd [2; 4] [0; 3] = Ok l ∧
       l ≡ₚ shifted_in_bounds [2; 4] [0; 3] ∧
       [0; 3] ∈ l ∧ NoDup l ∧ Forall (in_range [2; 4]) l.
Proof. apply (get_neighors_nd_correct [2; 4] [0; 3]); by_decide. Defined.

Lemma dig_example_2x4_witness :
  new_game_nd identity_order [2; 4] example_bombs = Ok example_game ∧
  dig_nd identity_order 3 example_game [0; 3] = Some (Ok 4, example_game_dug) ∧
  dig_nd identity_order 3 docstring_game [0; 3] = Some (Ok 4, docstring_game_dug).
Proof.
  apply (dig_example_2x4 identity_order identity_order_perm 3). lia.
Defined.

Lemma dig_nd_mine_witness :
  ∃ hidden',
    set_val (hidden example_game) [0; 0] (VBool false) = Ok hidden' ∧
    get_val hidden' [0; 0] = Ok (VBool false) ∧
    dig_nd identity_order 1 example_game [0; 0] =
      Some (Ok 1, MkGame (dimensions example_game) (board example_game) hidden'
                         Defeat (squares_left example_game)).
Proof.
  apply (dig_nd_mine identity_order 0 example_game [0; 0]); reflexivity.
Defined.

Lemma dig_nd_last_square_witness :
  ∃ hidden',
    set_val (hidden last_square_game) [1] (VBool false) = Ok hidden' ∧
    get_val hidden' [1] = Ok (VBool false) ∧
    dig_nd identity_order 1 last_square_game [1] =
      Some (Ok 1, MkGame (dimensions last_square_game) (board last_square_game)
                         hidden' Victory 0).
Proof.
  apply (dig_nd_last_square identity_order 0 last_square_game [1] (VInt 1));
    reflexivity.
Defined.

Lemma dig_nd_no_op_witness :
  dig_nd identity_order 1 docstring_game_dug [0; 0] = Some (Ok 0, docstring_game_dug) ∧
  dig_nd identity_order 1 docstring_game [0; 1] = Some (Ok 0, docstring_game).
Proof.
  split.
  - apply (dig_nd_no_op identity_order 0 docstring_game_dug [0; 0]).
    left. discriminate.
  - apply (dig_nd_no_op identity_order 0 docstring_game [0; 1]).
    right. reflexivity.
Defined.

Lemma new_game_nd_validation_witness :
  (∃ g, new_game_nd identity_order [2] [[0]; [0]] = Ok g ∧
        squares_left g = total_cells [2] - Z.of_nat (length [[0]; [0]]) ∧
        ∀ c, in_range [2] c →
             get_val (board g) c =
             Ok (if bool_decide (c ∈ [[0]; [0]]) then mine
                 else VInt (adjacent_bombs [[0]; [0]] c))) ∧
  new_game_nd identity_order [3] [[3]] = Raise IndexError.
Proof.
  split.
  - apply (proj1 (proj2 (new_game_nd_validation identity_order identity_order_perm)));
      by_decide.
  - apply (proj1 (proj2 (proj2 (new_game_nd_validation identity_order
                                  identity_order_perm))) 3 [[3]] 3 []); [left|lia].
Defined.

Lemma grid_access_bounds_witness :
  (in_range [2; 2] [-1; 0] → wrap_coord [2; 2] [-1; 0] = [-1; 0]) ∧
  (in_wrap_range [2; 2] [-1; 0] →
     in_range [2; 2] (wrap_coord [2; 2] [-1; 0]) ∧
     get_val small_grid [-1; 0] = get_val small_grid (wrap_coord [2; 2] [-1; 0]) ∧
     (∀ x, set_val small_grid [-1; 0] x = set_val small_grid (wrap_coord [2; 2] [-1; 0]) x) ∧
     (∀ k, update_pos small_grid [-1; 0] k
           = update_pos small_grid (wrap_coord [2; 2] [-1; 0]) k)) ∧
  (¬ in_wrap_range [2; 2] [-1; 0] →
     get_val small_grid [-1; 0] = Raise IndexError ∧
     (∀ x, set_val small_grid [-1; 0] x = Raise IndexError) ∧
     (∀ k, update_pos small_grid [-1; 0] k = Raise IndexError)).
Proof.
  apply (grid_access_bounds [2; 2] small_grid [-1; 0]); [|reflexivity].
  eexists. split_and!; [reflexivity|reflexivity|].
  repeat (constructor; [eexists; split_and!; [reflexivity|reflexivity|by apply Forall_true]|]).
  constructor.
Defined.

Lemma render_nd_symbols_witness :
  ∃ r, render_nd example_game false = Some (Ok r) ∧
       has_shape (dimensions example_game) r ∧
       (∀ c, in_range (dimensions example_game) c →
             rendered false (board example_game) (hidden example_game) r c) ∧
       (false = true → ∀ c, in_range (dimensions example_game) c →
                            get_val r c ≠ Ok (VStr "_")).
Proof.
  destruct (new_game_nd_wf identity_order identity_order_perm [2; 4] example_bombs
              example_game) as [Hwf Hcells]; [by_decide|by_decide|reflexivity|].
  exact (render_nd_symbols example_game false Hwf Hcells).
Defined.

(** C4, as stated, fails: on the freshly built game the dig at (0, 3)
    returns 4 but leaves one safe square hidden, so the game goes on. *)
Lemma dig_fresh_game_not_victory :
  new_game_nd identity_order [2; 4] example_bombs = Ok example_game ∧
  dig_nd identity_order 9 example_game [0; 3] = Some (Ok 4, example_game_dug) ∧
  state example_game_dug = Ongoing ∧ squares_left example_game_dug = 1 ∧
  get_val (hidden example_game_dug) [0; 1] = Ok (VBool true).
Proof. by vm_compute. Qed.

(** C8, as stated, fails: a repeated mine, a negative mine index and a
    mine beyond the last row all yield a game, from [new_game_nd] and
    from [new_game_2d]. *)
Lemma new_game_accepts_malformed_mines :
  ¬ NoDup [[0]; [0]] ∧
  new_game_nd identity_order [2] [[0]; [0]]
  = Ok (MkGame [2] (VList [mine; VInt 2]) (VList [VBool true; VBool true]) Ongoing 0) ∧
  ¬ in_range [3] [-1] ∧
  new_game_nd identity_order [3] [[-1]] = Ok negative_mine_game ∧
  ¬ in_range [2; 1] [2; 0] ∧
  new_game_2d identity_order 2 1 [[2; 0]] = Ok outside_mine_game.
Proof.
  split_and!; try (by vm_compute).
  - intros H. apply NoDup_cons in H as [H _]. apply H. left.
  - intros H. apply in_range_cons_inv in H as (x & xs & [= <- <-] & ? & _). lia.
  - intros H. apply in_range_cons_inv in H as (x & xs & [= <- <-] & ? & _). lia.
Qed.

(** C9, as stated, fails: a negative index is outside [0, dim-1], and
    the three operations reach the cell counted from the end. *)
Lemma grid_access_negative_index_wraps :
  has_shape [2; 2] small_grid ∧ ¬ in_range [2; 2] [-1; 0] ∧
  get_val small_grid [-1; 0] = Ok (VInt 3) ∧
  set_val small_grid [-1; 0] (VInt 9)
  = Ok (VList [VList [VInt 1; VInt 2]; VList [VInt 9; VInt 4]]) ∧
  update_pos small_grid [-1; 0] 1
  = Ok (VList [VList [VInt 1; VInt 2]; VList [VInt 4; VInt 4]]).
Proof.
  split_and!; try (by vm_compute).
  - eexists. split_and!; [reflexivity|reflexivity|].
    repeat (constructor; [eexists; split_and!; [reflexivity|reflexivity|by apply Forall_true]|]).
    constructor.
  - intros H. apply in_range_cons_inv in H as (x & xs & [= <- <-] & ? & _). lia.
Qed.

(** * Further properties of the grid access *)

(** X1. [update_pos] is [get_val], then the addition, then [set_val] of
    the sum, on every board and coordinate, failures included: it
    raises what the first of the three to fail raises. *)
Theorem update_pos_reads_adds_writes v c k :
  update_pos v c k = old ← get_val v c; new ← py_add old k; set_val v c new.
Proof. apply update_pos_get_set. Qed.

Lemma set_item_get_item v i y v' : set_item v i y = Ok v' → get_item v' i = Ok y.
Proof.
  destruct v as [| | |l]; try done. unfold set_item, get_item.
  destruct (norm_index (length l) i) as [k|] eqn:Hk; [|done].
  rewrite bind_ok. intros [= <-]. rewrite length_insert, Hk, bind_ok.
  rewrite list_lookup_insert_eq; [done|]. by eapply norm_index_lt.
Qed.

(** X2. Writing a cell and reading it back: whenever [set_val]
    succeeds, [get_val] at the same coordinate of the updated grid
    returns the value written (any grid, any coordinate, negative
    indices included). *)
Theorem set_val_then_get_val c : ∀ v x v',
  set_val v c x = Ok v' → get_val v' c = Ok x.
Proof.
  induction c as [|i c IH]; intros v x v' Hset; [done|].
  destruct c as [|j c].
  - rewrite set_val_one in Hset. rewrite get_val_one. by eapply set_item_get_item.
  - rewrite set_val_cons in Hset.
    destruct (get_item v i) as [sub|]; [|done]. rewrite bind_ok in Hset.
    destruct (set_val sub (j :: c) x) as [sub'|] eqn:Hsub; [|done].
    rewrite bind_ok in Hset. rewrite get_val_cons.
    rewrite (set_item_get_item _ _ _ _ Hset), bind_ok. by eapply IH.
Qed.

(** X3. [set_val] touches one cell: on a grid of extents [dims], after
    a successful write at a coordinate of the board the grid still has
    the extents [dims] and every other coordinate of the board reads as
    before. *)
Theorem set_val_frame dims v c x v' :
  has_shape dims v → in_range dims c → set_val v c x = Ok v' →
  has_shape dims v' ∧
  ∀ c', in_range dims c' → c' ≠ c → get_val v' c' = get_val v c'.
Proof.
  intros Hv Hc Hset.
  assert (dims ≠ []) as Hne.
  { intros ->. apply in_range_nil_inv in Hc as ->. done. }
  destruct (set_val_in_range dims v c x Hne Hv Hc) as (w & Hw & Hsh & _ & Hother).
  assert (w = v') as -> by congruence. done.
Qed.

Lemma grid_access_app c1 c2 v x :
  c1 ≠ [] → c2 ≠ [] →
  get_val v (c1 ++ c2) = (sub ← get_val v c1; get_val sub c2) ∧
  set_val v (c1 ++ c2) x =
    (sub ← get_val v c1; sub' ← set_val sub c2 x; set_val v c1 sub').
Proof.
  intros Hc1 Hc2. revert v. induction c1 as [|i c1 IH]; intros v; [done|].
  destruct c2 as [|j c2]; [done|].
  destruct c1 as [|i' c1].
  - cbn [app]. by rewrite get_val_cons, set_val_cons, get_val_one.
  - change ((i :: i' :: c1) ++ j :: c2) with (i :: i' :: (c1 ++ j :: c2)).
    rewrite !get_val_cons, !set_val_cons.
    destruct (get_item v i) as [sub|e] eqn:Hsub; [|done]. rewrite !bind_ok.
    destruct (IH ltac:(done) sub) as [Hg Hs].
    change ((i' :: c1) ++ j :: c2) with (i' :: (c1 ++ j :: c2)) in Hg, Hs.
    rewrite Hg, Hs. split; [done|].
    destruct (get_val sub (i' :: c1)) as [sub2|e]; [|done]. rewrite !bind_ok.
    destruct (set_val sub2 (j :: c2) x) as [sub2'|e]; [|done]. rewrite !bind_ok.
    by rewrite set_val_cons, Hsub, bind_ok.
Qed.

(** X4. A coordinate can be followed in two legs: for non-empty [c1]
    and [c2], reading at [c1 ++ c2] is reading the sub-grid at [c1] and
    then reading it at [c2]; writing at [c1 ++ c2] is writing into that
    sub-grid at [c2] and putting it back at [c1]. *)
Theorem grid_access_in_two_legs c1 c2 v x :
  c1 ≠ [] → c2 ≠ [] →
  get_val v (c1 ++ c2) = (sub ← get_val v c1; get_val sub c2) ∧
  set_val v (c1 ++ c2) x =
    (sub ← get_val v c1; sub' ← set_val sub c2 x; set_val v c1 sub').
Proof. apply grid_access_app. Qed.

Lemma get_val_of_int n c : c ≠ [] → get_val (VInt n) c = Raise TypeError.
Proof. intros Hc. destruct c as [|i [|j c]]; done. Qed.

Lemma set_val_of_int n c x : c ≠ [] → set_val (VInt n) c x = Raise TypeError.
Proof. intros Hc. destruct c as [|i [|j c]]; done. Qed.

(** X5. One index too many. When the cell at [c] holds an int, every
    access at a coordinate that goes on beyond [c] raises [TypeError].
    When it holds the mine marker, reading at [c] followed by the
    index 0 returns the marker again, since a string can be indexed,
    while writing there raises [TypeError]. *)
Theorem grid_access_too_deep v c c2 :
  c2 ≠ [] →
  (∀ n, get_val v c = Ok (VInt n) →
        get_val v (c ++ c2) = Raise TypeError ∧
        (∀ x, set_val v (c ++ c2) x = Raise TypeError) ∧
        (∀ k, update_pos v (c ++ c2) k = Raise TypeError)) ∧
  (get_val v c = Ok mine →
   get_val v (c ++ [0]) = Ok mine ∧
   ∀ x, set_val v (c ++ [0]) x = Raise TypeError).
Proof.
  intros Hc2. split.
  - intros n Hn.
    assert (c ≠ []) as Hc by (by intros ->).
    assert (get_val v (c ++ c2) = Raise TypeError) as Hget.
    { rewrite (proj1 (grid_access_app c c2 v (VInt 0) Hc Hc2)), Hn, bind_ok.
      by apply get_val_of_int. }
    split_and!; [done| |].
    + intros x. rewrite (proj2 (grid_access_app c c2 v x Hc Hc2)), Hn, bind_ok.
      by rewrite set_val_of_int.
    + intros k. by rewrite update_pos_get_set, Hget.
  - intros Hm. assert (c ≠ []) as Hc by (by intros ->). split.
    + by rewrite (proj1 (grid_access_app c [0] v (VInt 0) Hc ltac:(done))), Hm.
    + intros x. by rewrite (proj2 (grid_access_app c [0] v x Hc ltac:(done))), Hm.
Qed.

(** X6. [update_pos] on a board: at a cell that holds an int it adds
    [val] there and changes no other cell; at a cell that holds the
    mine marker it raises [TypeError]. *)
Theorem update_pos_on_cell dims v c k :
  has_shape dims v → in_range dims c →
  (∀ n, get_val v c = Ok (VInt n) →
        ∃ v', update_pos v c k = Ok v' ∧ has_shape dims v' ∧
              get_val v' c = Ok (VInt (n + k)) ∧
              ∀ c', in_range dims c' → c' ≠ c → get_val v' c' = get_val v c') ∧
  (get_val v c = Ok mine → update_pos v c k = Raise TypeError).
Proof.
  intros Hv Hc. split.
  - intros n Hn.
    assert (dims ≠ []) as Hne.
    { intros ->. apply in_range_nil_inv in Hc as ->. done. }
    destruct (set_val_in_range dims v c (VInt (n + k)) Hne Hv Hc)
      as (v' & Hset & Hsh & Hsame & Hother).
    exists v'. rewrite update_pos_get_set, Hn, bind_ok. cbn [py_add].
    rewrite bind_ok. done.
  - intros Hm. by rewrite update_pos_get_set, Hm.
Qed.

(** * Further properties of the neighbor enumeration *)

Lemma tuple_get_in_bounds (t : list Z) (i : Z) :
  0 ≤ i < Z.of_nat (length t) → ∃ d, t !! Z.to_nat i = Some d ∧ tuple_get t i = Ok d.
Proof.
  intros Hi. destruct (lookup_lt_is_Some_2 t (Z.to_nat i)) as [d Hd]; [lia|].
  exists d. split; [done|]. unfold tuple_get.
  by rewrite norm_index_in_range, bind_ok, Hd.
Qed.

Lemma tuple_get_past_end (t : list Z) (i : Z) :
  Z.of_nat (length t) ≤ i → tuple_get t i = Raise IndexError.
Proof. intros Hi. unfold tuple_get. by rewrite norm_index_outside by lia. Qed.

Lemma tuple_get_take (t : list Z) (n : nat) (i : Z) :
  0 ≤ i < Z.of_nat n → (n ≤ length t)%nat → tuple_get (take n t) i = tuple_get t i.
Proof.
  intros Hi Hn.
  destruct (tuple_get_in_bounds t i) as (d & Hd & ->); [lia|].
  destruct (tuple_get_in_bounds (take n t) i) as (d' & Hd' & ->).
  { rewrite length_take. lia. }
  rewrite lookup_take_lt in Hd' by lia. congruence.
Qed.

Lemma foldM_ext {A B} (f f' : B → A → result B) l : ∀ acc,
  (∀ b a, f b a = f' b a) → foldM f acc l = foldM f' acc l.
Proof.
  induction l as [|a l IH]; intros acc Hext; [done|].
  cbn [foldM]. rewrite Hext. destruct (f' acc a); [|done]. rewrite !bind_ok. by apply IH.
Qed.

Lemma extend_axes_ext dims dims' rest : ∀ index nbs,
  (∀ i, index ≤ i < index + Z.of_nat (length rest) → tuple_get dims i = tuple_get dims' i) →
  extend_axes dims index rest nbs = extend_axes dims' index rest nbs.
Proof.
  induction rest as [|x rest IH]; intros index nbs Hext; [done|].
  cbn [extend_axes]. cbn [length] in Hext.
  assert (extend_axis dims index x nbs = extend_axis dims' index x nbs) as ->.
  { unfold extend_axis. apply foldM_ext. intros b a. unfold extend_neighbor.
    rewrite Hext by lia. done. }
  destruct (extend_axis dims' index x nbs); [|done]. rewrite !bind_ok.
  apply IH. intros i Hi. apply Hext. lia.
Qed.

Lemma extend_neighbor_raise dims index x acc p e :
  tuple_get dims index = Raise e → extend_neighbor dims index x acc p = Raise e.
Proof. intros Hd. unfold extend_neighbor. by rewrite Hd. Qed.

Lemma extend_axis_raise dims index x nbs e :
  tuple_get dims index = Raise e → nbs ≠ [] → extend_axis dims index x nbs = Raise e.
Proof.
  intros Hd Hne. destruct nbs as [|p nbs]; [done|].
  unfold extend_axis. cbn [foldM]. by rewrite (extend_neighbor_raise _ _ _ _ _ e).
Qed.

Lemma extend_axes_short dims rest : ∀ index nbs,
  nbs ≠ [] → 0 ≤ index ≤ Z.of_nat (length dims) →
  Z.of_nat (length dims) < index + Z.of_nat (length rest) →
  extend_axes dims index rest nbs = Raise IndexError.
Proof.
  induction rest as [|x rest IH]; intros index nbs Hne Hidx Hlen.
  { simpl in Hlen. lia. }
  cbn [extend_axes]. cbn [length] in Hlen.
  destruct (decide (index = Z.of_nat (length dims))) as [->|Hlt].
  - rewrite (extend_axis_raise _ _ _ _ IndexError); [done| |done].
    apply tuple_get_past_end. lia.
  - destruct (tuple_get_in_bounds dims index) as (d & _ & Hd); [lia|].
    destruct (extend_axis_spec dims index d x nbs Hd) as (new & -> & _ & Hin).
    rewrite bind_ok. apply IH; [|lia|lia].
    destruct nbs as [|p nbs]; [done|]. intros ->.
    assert (p ++ [x] ∈ @nil coord) as Hcontra; [|by apply elem_of_nil in Hcontra].
    apply Hin. exists p, x. split_and!; [done|left|by left].
Qed.

Lemma set_add_nonempty x s : set_add x s ≠ [].
Proof.
  intros Heq. assert (x ∈ set_add x s) as Hin by (apply elem_of_set_add; auto).
  rewrite Heq in Hin. by apply elem_of_nil in Hin.
Qed.

(** X7. How many indices [get_neighors_nd] accepts: it raises
    [IndexError] on the empty location and on a location with more
    indices than there are dimensions; on any other location it
    returns a set and looks at the first [len(location)] dimensions
    only. *)
Theorem get_neighors_nd_arity dims loc :
  (loc = [] ∨ (length dims < length loc)%nat →
   get_neighors_nd dims loc = Raise IndexError) ∧
  (loc ≠ [] → (length loc ≤ length dims)%nat →
   (∃ l, get_neighors_nd dims loc = Ok l) ∧
   get_neighors_nd dims loc = get_neighors_nd (take (length loc) dims) loc).
Proof.
  split.
  - intros [->|Hlen]; [done|]. destruct loc as [|x rest]; [simpl in Hlen; lia|].
    unfold get_neighors_nd. destruct dims as [|d ds]; [done|].
    rewrite tuple_get_head, bind_ok. simpl in Hlen.
    apply extend_axes_short; [apply set_add_nonempty|cbn [length]; lia..].
  - intros Hne Hlen.
    assert (get_neighors_nd dims loc = get_neighors_nd (take (length loc) dims) loc) as Heq.
    { destruct loc as [|x rest]; [done|]. unfold get_neighors_nd.
      rewrite (tuple_get_take dims (length (x :: rest)) 0) by (cbn [length] in *; lia).
      destruct (tuple_get dims 0); [|done]. rewrite !bind_ok.
      apply extend_axes_ext. intros i Hi. symmetry.
      apply tuple_get_take; cbn [length] in *; lia. }
    split; [|done]. rewrite Heq.
    destruct (get_neighors_nd_spec (take (length loc) dims) loc) as (l & Hl & _).
    + intros Hnil. apply (f_equal length) in Hnil. rewrite length_take in Hnil.
      destruct loc; [done|]. cbn [length] in *. lia.
    + rewrite length_take. lia.
    + eauto.
Qed.

(** X8. The set returned for any location with one index per axis,
    inside the board or not: it has no repetition, and a tuple is in
    it exactly when each of its indices is the location's index on
    that axis, or that index minus 1 if the index is at least 1, or
    that index plus 1 if the index is at most [dim - 2]. *)
Theorem get_neighors_nd_any_location dims loc :
  dims ≠ [] → length dims = length loc →
  ∃ l, get_neighors_nd dims loc = Ok l ∧ NoDup l ∧
       ∀ n, n ∈ l ↔ Forall3 axis_choice dims loc n.
Proof. apply get_neighors_nd_spec. Qed.

(** X9. Among the cells of a board being a neighbor is symmetric: [n]
    is in the set returned for [c] exactly when [c] is in the set
    returned for [n]. *)
Theorem get_neighors_nd_symmetric dims c n lc ln :
  in_range dims c → in_range dims n →
  get_neighors_nd dims c = Ok lc → get_neighors_nd dims n = Ok ln →
  n ∈ lc ↔ c ∈ ln.
Proof.
  intros Hc Hn Hlc Hln.
  assert (dims ≠ []) as Hne.
  { intros ->. apply in_range_nil_inv in Hc as ->. done. }
  destruct (get_neighors_nd_in_range dims c Hne Hc) as (l1 & Hl1 & _ & Hin1).
  destruct (get_neighors_nd_in_range dims n Hne Hn) as (l2 & Hl2 & _ & Hin2).
  assert (l1 = lc) as -> by congruence. assert (l2 = ln) as -> by congruence.
  rewrite Hin1, Hin2. split; intros [_ Hadj]; (split; [done|by apply adjacent_sym]).
Qed.

Lemma length_shifts c : length (shifts c) = (3 ^ length c)%nat.
Proof.
  induction c as [|x xs IH]; [done|].
  cbn [shifts]. rewrite length_rows, IH. cbn [length]. rewrite Nat.pow_succ_r'. done.
Qed.

(** X10. The size of the returned set for a cell of an N-axis board: at
    least 1 (the cell itself) and at most 3^N. *)
Theorem get_neighors_nd_size dims c l :
  in_range dims c → get_neighors_nd dims c = Ok l →
  (1 ≤ length l ≤ 3 ^ length dims)%nat.
Proof.
  intros Hc Hl.
  assert (dims ≠ []) as Hne.
  { intros ->. apply in_range_nil_inv in Hc as ->. done. }
  destruct (get_neighors_nd_in_range dims c Hne Hc) as (l' & Hl' & Hnd & Hin).
  assert (l' = l) as -> by congruence.
  assert (c ∈ l) as Hself by (apply Hin; split; [done|apply adjacent_refl]).
  assert (l ≡ₚ shifted_in_bounds dims c) as Hperm.
  { apply NoDup_Permutation; [done|apply NoDup_filter, NoDup_shifts|].
    intros n. by rewrite Hin, elem_of_shifted_in_bounds. }
  split.
  - destruct l; [by apply elem_of_nil in Hself|simpl; lia].
  - rewrite Hperm. unfold shifted_in_bounds.
    etrans; [apply length_filter|]. rewrite length_shifts.
    by rewrite (in_range_length dims c).
Qed.

(** * Further properties of the construction *)

Section ConstructionMore.

Variable iter_order : list coord → list coord.
Hypothesis iter_order_perm : ∀ s, iter_order s ≡ₚ s.

(** X11. [create_game_0] on mines inside the board, repeated or not:
    it returns a game with the given dimensions, state ongoing,
    [squares_left] the number of cells minus [len(bombs)], a board of
    the shape of the dimensions with the mine marker at the mines and 0
    elsewhere, and a hidden mask of the same shape that is [True]
    everywhere. *)
Theorem create_game_0_builds dims bombs :
  valid_dims dims → Forall (in_range dims) bombs →
  ∃ g, create_game_0 dims bombs = Ok g ∧ fresh_game dims bombs g.
Proof. apply create_game_0_spec. Qed.

(** X12. The game [new_game_nd] returns for mines inside the board:
    it keeps the dimensions, starts ongoing with every cell hidden, and
    both grids have the shape of the dimensions. It is the same game
    whatever the order in which the neighbor sets are walked. *)
Theorem new_game_nd_initial other_order dims bombs :
  (∀ s, other_order s ≡ₚ s) →
  valid_dims dims → Forall (in_range dims) bombs →
  new_game_nd iter_order dims bombs = new_game_nd other_order dims bombs ∧
  ∃ g, new_game_nd iter_order dims bombs = Ok g ∧
       dimensions g = dims ∧ state g = Ongoing ∧
       has_shape dims (board g) ∧ has_shape dims (hidden g) ∧
       ∀ c, in_range dims c → get_val (hidden g) c = Ok (VBool true).
Proof.
  intros Hother Hvalid Hin. split.
  - by apply new_game_nd_order_irrelevant.
  - destruct (new_game_nd_spec iter_order iter_order_perm dims bombs Hvalid Hin)
      as (g & Hg & Hd & Hs & _ & Hshb & Hshh & Hcells).
    exists g. split_and!; [done..|]. intros c Hc. by destruct (Hcells c Hc).
Qed.

(** X13. The counting pass on its own. On a board of the shape of the
    dimensions with the mine marker at the mines and an int in every
    other cell, [update_bombs_nd] for mines inside the board returns a
    board of the same shape that still has the marker at the mines, and
    in which every other cell has grown by the number of mines in the
    list, repetitions counted, adjacent to it. *)
Theorem update_bombs_nd_adds_counts dims bombs cnt b :
  dims ≠ [] → counted dims bombs cnt b → Forall (in_range dims) bombs →
  ∃ b', update_bombs_nd iter_order b bombs dims = Ok b' ∧
        counted dims bombs (λ c, cnt c + adjacent_bombs bombs c) b'.
Proof. apply update_bombs_nd_loop, iter_order_perm. Qed.

End ConstructionMore.

(** * Further properties of the dig engine *)

Lemma reveal_at_facts g c g' :
  wf_game g → in_range (dimensions g) c → reveal_at g c = Some g' →
  revealed_one g c g'.
Proof.
  intros Hwf Hc Hrev. pose proof Hwf as (Hvalid & Hshb & Hshh & Hbool).
  unfold reveal_at in Hrev. destruct (state g) eqn:Hstate; [|done..].
  destruct (Hbool c Hc) as [b Hhid]. rewrite Hhid in Hrev.
  destruct (set_val_in_range (dimensions g) (hidden g) c (VBool false))
    as (h' & Hset & Hsh' & Hsame & Hother); [apply Hvalid|done|done|].
  destruct (get_val_in_range (dimensions g) (board g) c) as [cell Hcell];
    [apply Hvalid|done|done|].
  rewrite Hset, Hcell in Hrev. cbn [truthy] in Hrev. destruct b; [|done].
  assert (wf_game (with_hidden g h')) as Hwf'.
  { split_and!; [done..|]. cbn [with_hidden dimensions hidden]. intros x Hx.
    destruct (decide (x = c)) as [->|Hne]; [eauto|]. rewrite Hother by done.
    by apply Hbool. }
  assert (is_hidden (hidden g) c = true) as Hbefore by (by apply is_hidden_true).
  assert (is_hidden h' c = false) as Hafter by (unfold is_hidden; by rewrite Hsame).
  assert (∀ x, in_range (dimensions g) x → x ≠ c →
               is_hidden h' x = is_hidden (hidden g) x) as Hrest.
  { intros x Hx Hne. unfold is_hidden. by rewrite Hother. }
  unfold revealed_one. rewrite (is_mine_at_cell _ _ _ Hcell).
  destruct (py_eq cell mine); [|case_bool_decide]; simplify_eq;
    by split_and!.
Qed.

Lemma revealed_one_hidden_count g c g' :
  in_range (dimensions g) c → revealed_one g c g' →
  length (hidden_cells g) = S (length (hidden_cells g')).
Proof.
  intros Hc (_ & _ & Hd & _ & Hbefore & Hafter & Hrest & _).
  unfold hidden_cells. rewrite Hd.
  apply (length_filter_remove _ _ _ c);
    [apply NoDup_all_coords|by apply elem_of_all_coords|done|by rewrite Hafter|].
  intros x Hx%elem_of_all_coords Hne. by rewrite Hrest.
Qed.

Lemma revealed_one_safe_count g c g' :
  in_range (dimensions g) c → revealed_one g c g' →
  Z.of_nat (length (hidden_safe_cells g')) =
  Z.of_nat (length (hidden_safe_cells g)) - (if is_mine_at (board g) c then 0 else 1).
Proof.
  intros Hc (_ & _ & Hd & Hb & Hbefore & Hafter & Hrest & _).
  unfold hidden_safe_cells. rewrite Hd, Hb.
  destruct (is_mine_at (board g) c) eqn:Hmine.
  - rewrite Z.sub_0_r. f_equal. apply length_filter_ext_in.
    intros x Hx%elem_of_all_coords. destruct (decide (x = c)) as [->|Hne].
    + rewrite Hafter, Hmine. split; intros [??]; done.
    + by rewrite Hrest.
  - rewrite (length_filter_remove
               (λ x, is_hidden (hidden g) x = true ∧ is_mine_at (board g) x = false)
               (λ x, is_hidden (hidden g') x = true ∧ is_mine_at (board g) x = false)
               _ c); [lia|apply NoDup_all_coords|by apply elem_of_all_coords|done| |].
    + rewrite Hafter. by intros [??].
    + intros x Hx%elem_of_all_coords Hne. by rewrite Hrest.
Qed.

Lemma nsteps_reveal_keeps Q k g g' :
  wf_game g → nsteps (reveal_step Q) k g g' →
  wf_game g' ∧ dimensions g' = dimensions g ∧ board g' = board g.
Proof.
  intros Hwf Hsteps. induction Hsteps as [g|k g g1 g2 (c & _ & Hc & Hrev) _ IH]; [done|].
  destruct (reveal_at_facts g c g1 Hwf Hc Hrev) as (_ & Hwf1 & Hd1 & Hb1 & _).
  destruct (IH Hwf1) as (Hwf2 & Hd2 & Hb2). split_and!; [done|congruence..].
Qed.

Lemma cascade_closed_same g g' Q :
  dimensions g' = dimensions g → board g' = board g →
  cascade_closed g Q → cascade_closed g' Q.
Proof. intros Hd Hb Hclosed. unfold cascade_closed. rewrite Hd, Hb. apply Hclosed. Qed.

Section DigSteps2.

Variable iter_order : list coord → list coord.
Hypothesis iter_order_perm : ∀ s, iter_order s ≡ₚ s.
Variable Q : coord → Prop.

Lemma dig_each_steps (dig : Game → coord → option (result Z * Game)) :
  (∀ g c n g', wf_game g → in_range (dimensions g) c → Q c → cascade_closed g Q →
               dig g c = Some (Ok n, g') →
               0 ≤ n ∧ nsteps (reveal_step Q) (Z.to_nat n) g g') →
  ∀ l g acc n g',
    wf_game g → Forall (in_range (dimensions g)) l → Forall Q l → cascade_closed g Q →
    dig_each dig l g acc = Some (Ok n, g') →
    acc ≤ n ∧ nsteps (reveal_step Q) (Z.to_nat (n - acc)) g g'.
Proof.
  intros Hdig l. induction l as [|c l IH]; intros g acc n g' Hwf Hl HQ Hclosed Heach.
  - cbn [dig_each] in Heach. simplify_eq. split; [lia|].
    rewrite Z.sub_diag. constructor.
  - apply Forall_cons in Hl as [Hc Hl]. apply Forall_cons in HQ as [HQc HQ].
    cbn [dig_each] in Heach.
    destruct (dig g c) as [[[k|e] g1]|] eqn:Hg1; [|done..].
    destruct (Hdig g c k g1 Hwf Hc HQc Hclosed Hg1) as [Hk Hsteps1].
    destruct (nsteps_reveal_keeps Q _ g g1 Hwf Hsteps1) as (Hwf1 & Hd1 & Hb1).
    destruct (IH g1 (acc + k) n g') as [Hn Hsteps2];
      [done|by rewrite Hd1|done|by apply (cascade_closed_same g)|done|].
    split; [lia|].
    replace (Z.to_nat (n - acc)) with (Z.to_nat k + Z.to_nat (n - (acc + k)))%nat by lia.
    by eapply nsteps_trans.
Qed.

(** A dig that returns [n] is a chain of [n] reveals, all at cells that
    satisfy [Q] when the dig starts in [Q] and [Q] is closed under the
    cascade. *)
Lemma dig_nd_steps fuel : ∀ g c n g',
  wf_game g → in_range (dimensions g) c → Q c → cascade_closed g Q →
  dig_nd iter_order fuel g c = Some (Ok n, g') →
  0 ≤ n ∧ nsteps (reveal_step Q) (Z.to_nat n) g g'.
Proof.
  induction fuel as [|fuel IH]; intros g c n g' Hwf Hc HQ Hclosed Hdig; [done|].
  cbn [dig_nd] in Hdig. unfold dig_step in Hdig.
  pose proof Hwf as (Hvalid & Hshb & Hshh & Hbool).
  destruct (state g) eqn:Hstate; [|simplify_eq; split; [done|constructor]..].
  destruct (Hbool c Hc) as [b Hhid]. rewrite Hhid in Hdig. cbn [truthy] in Hdig.
  destruct b; cbn [negb] in Hdig; [|simplify_eq; split; [done|constructor]].
  destruct (set_val_in_range (dimensions g) (hidden g) c (VBool false))
    as (h' & Hset & _); [apply Hvalid|done|done|].
  destruct (get_val_in_range (dimensions g) (board g) c) as [cell Hcell];
    [apply Hvalid|done|done|].
  rewrite Hset in Hdig. cbn [with_hidden board] in Hdig. rewrite Hcell in Hdig.
  destruct (py_eq cell mine) eqn:Hmine; cbn [negb] in Hdig.
  { simplify_eq. split; [done|]. apply nsteps_once. exists c. split_and!; [done..|].
    unfold reveal_at. by rewrite Hstate, Hhid, Hset, Hcell, Hmine. }
  cbn [with_squares_left with_hidden squares_left dimensions board hidden state
       with_state] in Hdig.
  case_bool_decide as Hzero.
  { simplify_eq. split; [done|]. apply nsteps_once. exists c. split_and!; [done..|].
    unfold reveal_at. rewrite Hstate, Hhid, Hset, Hcell, Hmine. cbn [truthy].
    by rewrite bool_decide_eq_true_2. }
  set (g2 := MkGame (dimensions g) (board g) h' (state g) (squares_left g - 1)) in *.
  assert (reveal_at g c = Some g2) as Hrev.
  { unfold reveal_at. rewrite Hstate, Hhid, Hset, Hcell, Hmine. cbn [truthy].
    by rewrite bool_decide_eq_false_2. }
  assert (reveal_step Q g g2) as Hstep by (exists c; done).
  destruct (py_eq cell (VInt 0)) eqn:Hcell0.
  - destruct (get_neighors_nd_in_range (dimensions g) c) as (nb & Hnb & _ & Hin);
      [apply Hvalid|done|].
    rewrite Hnb in Hdig.
    destruct (reveal_at_facts g c g2 Hwf Hc Hrev) as (_ & Hwf2 & Hd2 & Hb2 & _).
    destruct (dig_each_steps (dig_nd iter_order fuel) IH (iter_order nb) g2 1 n g')
      as [Hn Hsteps]; [done| | | |done|].
    + apply Forall_forall. intros x Hx. rewrite iter_order_perm in Hx.
      by apply Hin in Hx as [? _].
    + apply Forall_forall. intros x Hx. rewrite iter_order_perm in Hx.
      apply Hin in Hx as [Hxr Hadj]. by eapply (Hclosed c x cell).
    + by apply (cascade_closed_same g).
    + split; [lia|].
      replace (Z.to_nat n) with (S (Z.to_nat (n - 1))) by lia.
      by eapply nsteps_l.
  - simplify_eq. split; [done|]. by apply nsteps_once.
Qed.

End DigSteps2.

Lemma nsteps_reveal_count Q k g g' :
  wf_game g → nsteps (reveal_step Q) k g g' →
  length (hidden_cells g) = (k + length (hidden_cells g'))%nat ∧
  ∀ x, in_range (dimensions g) x →
       is_hidden (hidden g') x = true → is_hidden (hidden g) x = true.
Proof.
  intros Hwf Hsteps. induction Hsteps as [g|k g g1 g2 (c & _ & Hc & Hrev) _ IH]; [done|].
  pose proof (reveal_at_facts g c g1 Hwf Hc Hrev) as Hone.
  pose proof (revealed_one_hidden_count g c g1 Hc Hone) as Hcount.
  destruct Hone as (_ & Hwf1 & Hd1 & _ & Hb & Ha & Hrest & _).
  destruct (IH Hwf1) as [Hlen Hkeep]. split; [lia|].
  intros x Hx Hh. rewrite Hd1 in Hkeep. specialize (Hkeep x Hx Hh).
  destruct (decide (x = c)) as [->|Hne]; [done|]. by rewrite <- Hrest.
Qed.

Lemma nsteps_reveal_ongoing Q k g g' :
  nsteps (reveal_step Q) k g g' → state g' = Ongoing → state g = Ongoing.
Proof.
  intros Hsteps Hs. destruct Hsteps as [|k g g1 g2 (c & _ & _ & Hrev) _]; [done|].
  unfold reveal_at in Hrev. by destruct (state g).
Qed.

Lemma rtc_reveal_invariant Q (I : Game → Prop) g g' :
  (∀ g1 g2, I g1 → reveal_step Q g1 g2 → I g2) →
  rtc (reveal_step Q) g g' → I g → I g'.
Proof. intros Hstep Hrtc. induction Hrtc; eauto. Qed.

Lemma length_filter_zero {A} (P : A → Prop) `{∀ x, Decision (P x)} (l : list A) :
  length (filter P l) = 0%nat ↔ ∀ x, x ∈ l → ¬ P x.
Proof.
  induction l as [|a l IH].
  - split; [|done]. intros _ x Hx. by apply elem_of_nil in Hx.
  - rewrite filter_cons. case_decide as Ha; cbn [length].
    + split; [done|]. intros Hall. destruct (Hall a); [left|done].
    + rewrite IH. split.
      * intros Hall x [->|Hx]%elem_of_cons; [done|by apply Hall].
      * intros Hall x Hx. apply Hall. by right.
Qed.

Lemma all_safe_revealed_count g :
  length (hidden_safe_cells g) = 0%nat ↔ all_safe_revealed g.
Proof.
  unfold hidden_safe_cells, all_safe_revealed. rewrite length_filter_zero.
  split.
  - intros Hall c Hc Hm. specialize (Hall c (proj2 (elem_of_all_coords _ _) Hc)).
    destruct (is_hidden (hidden g) c); [|done]. by destruct Hall.
  - intros Hall c Hc%elem_of_all_coords [Hh Hm]. rewrite Hall in Hh; done.
Qed.

Lemma game_inv_step Q g g' : game_inv g → reveal_step Q g g' → game_inv g'.
Proof.
  intros (Hwf & HK & HD & HS) (c & _ & Hc & Hrev).
  pose proof (reveal_at_facts g c g' Hwf Hc Hrev) as Hone.
  pose proof (revealed_one_safe_count g c g' Hc Hone) as Hsafe.
  destruct Hone as (Hon & Hwf' & Hd & Hb & Hbefore & Hafter & Hrest & Hcase).
  split; [done|]. rewrite Hd, Hb.
  destruct (is_mine_at (board g) c) eqn:Hmine.
  - destruct Hcase as [Hst Hsl]. split_and!.
    + rewrite Hst, Hsl. split; [|done]. intros H0. apply HK in H0. congruence.
    + split; [|done]. intros _. by exists c.
    + lia.
  - destruct Hcase as [Hsl Hst]. split_and!.
    + rewrite Hsl, Hst. case_bool_decide; by split.
    + rewrite Hst. split.
      * intros Hdef. by case_bool_decide.
      * intros (x & Hx & Hxm & Hxh). exfalso.
        destruct (decide (x = c)) as [->|Hne]; [congruence|].
        rewrite Hrest in Hxh by done.
        assert (state g = Defeat) by (apply HD; eauto). congruence.
    + lia.
Qed.

Section DigMore.

Variable iter_order : list coord → list coord.
Hypothesis iter_order_perm : ∀ s, iter_order s ≡ₚ s.

Lemma cascade_closed_all g : cascade_closed g (λ _, True).
Proof. by intros c n cell _ _ _ _ _ _. Qed.

(** X14. What a dig returns: with a recursion bound above the number of
    hidden cells, [dig_nd] at a coordinate of the board raises nothing
    and returns the number of cells it has revealed; it leaves the
    dimensions and the board as they are and hides no cell. *)
Theorem dig_nd_return_value fuel g c :
  wf_game g → in_range (dimensions g) c →
  (length (hidden_cells g) < fuel)%nat →
  ∃ n g', dig_nd iter_order fuel g c = Some (Ok n, g') ∧
          dimensions g' = dimensions g ∧ board g' = board g ∧
          (∀ x, in_range (dimensions g) x →
                is_hidden (hidden g') x = true → is_hidden (hidden g) x = true) ∧
          n = Z.of_nat (length (hidden_cells g)) - Z.of_nat (length (hidden_cells g')).
Proof.
  intros Hwf Hc Hfuel.
  destruct (dig_nd_invariant iter_order iter_order_perm fuel g c Hwf Hc Hfuel)
    as (n & g' & Hdig & _).
  destruct (dig_nd_steps iter_order iter_order_perm (λ _, True) fuel g c n g')
    as [Hn Hsteps]; [done|done|done|apply cascade_closed_all|done|].
  destruct (nsteps_reveal_keeps _ _ _ _ Hwf Hsteps) as (_ & Hd & Hb).
  destruct (nsteps_reveal_count _ _ _ _ Hwf Hsteps) as [Hlen Hkeep].
  exists n, g'. split_and!; [done..|lia].
Qed.

Lemma dig_seq_steps Q fuel cs : ∀ g g',
  wf_game g → Forall (in_range (dimensions g)) cs → Forall Q cs → cascade_closed g Q →
  dig_seq iter_order fuel g cs = Some (Ok g') → rtc (reveal_step Q) g g'.
Proof.
  induction cs as [|c cs IH]; intros g g' Hwf Hcs HQ Hclosed Hseq.
  - cbn [dig_seq] in Hseq. by simplify_eq.
  - apply Forall_cons in Hcs as [Hc Hcs]. apply Forall_cons in HQ as [HQc HQ].
    cbn [dig_seq] in Hseq.
    destruct (dig_nd iter_order fuel g c) as [[[n|e] g1]|] eqn:Hdig; [|done..].
    destruct (dig_nd_steps iter_order iter_order_perm Q fuel g c n g1)
      as [_ Hsteps]; [done..|].
    destruct (nsteps_reveal_keeps _ _ _ _ Hwf Hsteps) as (Hwf1 & Hd1 & Hb1).
    etrans; [by eapply rtc_nsteps_2|].
    apply IH; [done|by rewrite Hd1|done|by apply (cascade_closed_same g)|done].
Qed.

Lemma new_game_nd_start dims bombs g0 :
  valid_dims dims → Forall (in_range dims) bombs →
  new_game_nd iter_order dims bombs = Ok g0 →
  wf_game g0 ∧ dimensions g0 = dims ∧ state g0 = Ongoing ∧
  squares_left g0 = total_cells dims - Z.of_nat (length bombs) ∧
  ∀ c, in_range dims c →
       is_hidden (hidden g0) c = true ∧
       is_mine_at (board g0) c = bool_decide (c ∈ bombs) ∧
       (c ∉ bombs → get_val (board g0) c = Ok (VInt (adjacent_bombs bombs c))).
Proof.
  intros Hvalid Hin Hg0.
  destruct (new_game_nd_spec iter_order iter_order_perm dims bombs Hvalid Hin)
    as (g & Hg & Hdims & Hstate & Hleft & Hshb & Hshh & Hcells).
  assert (g = g0) as -> by congruence.
  split_and!; [|done..|].
  - unfold wf_game. rewrite Hdims. split_and!; [done..|].
    intros c Hc. destruct (Hcells c Hc) as [_ ?]. eauto.
  - intros c Hc. destruct (Hcells c Hc) as [Hb Hh].
    unfold is_hidden, is_mine_at. rewrite Hb, Hh. split_and!; [done| |].
    + by case_bool_decide.
    + intros Hnot. by rewrite bool_decide_eq_false_2.
Qed.

Lemma new_game_nd_safe_count dims bombs g0 :
  valid_dims dims → NoDup bombs → Forall (in_range dims) bombs →
  new_game_nd iter_order dims bombs = Ok g0 →
  squares_left g0 = Z.of_nat (length (hidden_safe_cells g0)).
Proof.
  intros Hvalid Hnd Hin Hg0.
  destruct (new_game_nd_start dims bombs g0 Hvalid Hin Hg0)
    as (Hwf & Hdims & Hstate & Hleft & Hcells).
  rewrite Hleft. pose proof (length_safe_cells dims bombs Hnd Hin) as Hlen.
  rewrite <- length_all_coords by (eapply Forall_impl; [apply Hvalid|]; simpl; lia).
  assert (length (hidden_safe_cells g0)
          = length (filter (λ c, c ∉ bombs) (all_coords dims))) as ->; [|lia].
  unfold hidden_safe_cells. rewrite Hdims.
  apply length_filter_ext_in. intros c Hc%elem_of_all_coords.
  destruct (Hcells c Hc) as (-> & -> & _).
  destruct (decide (c ∈ bombs)) as [Hmem|Hmem].
  - rewrite bool_decide_eq_true_2 by done. split; [by intros [_ ?]|done].
  - rewrite bool_decide_eq_false_2 by done. split; [done|]. intros _. by split.
Qed.

(** X15. The state follows the board. On a game built by [new_game_nd]
    from distinct mines inside the board that leave at least one cell
    free, after any sequence of digs at coordinates of the board the
    state is defeat exactly when a mine is revealed, and victory
    exactly when every cell without a mine is revealed. *)
Theorem game_state_tracks_board dims bombs cs fuel :
  valid_dims dims → NoDup bombs → Forall (in_range dims) bombs →
  Z.of_nat (length bombs) < total_cells dims →
  Forall (in_range dims) cs → (Z.to_nat (total_cells dims) < fuel)%nat →
  ∃ g0 g, new_game_nd iter_order dims bombs = Ok g0 ∧
          dig_seq iter_order fuel g0 cs = Some (Ok g) ∧
          (state g = Defeat ↔ mine_revealed g) ∧
          (state g = Victory ↔ all_safe_revealed g).
Proof.
  intros Hvalid Hnd Hin Hfree Hcs Hfuel.
  destruct (new_game_nd_spec iter_order iter_order_perm dims bombs Hvalid Hin)
    as (g0 & Hg0 & _).
  destruct (new_game_nd_start dims bombs g0 Hvalid Hin Hg0)
    as (Hwf & Hdims & Hstate & Hleft & Hcells).
  pose proof (new_game_nd_safe_count dims bombs g0 Hvalid Hnd Hin Hg0) as Hsafe.
  destruct (dig_seq_invariant iter_order iter_order_perm fuel cs g0) as (g & Hg & _);
    [done|by rewrite Hdims|by rewrite Hdims|].
  assert (game_inv g0) as Hinv0.
  { split_and!; [done| |split|done].
    - rewrite Hstate, Hleft. split; [lia|done].
    - by rewrite Hstate.
    - intros (c & Hc & _ & Hh). rewrite Hdims in Hc.
      destruct (Hcells c Hc) as (Hh' & _). congruence. }
  assert (game_inv g) as (_ & HK & HD & HS).
  { eapply (rtc_reveal_invariant (λ _, True) game_inv g0 g); [apply game_inv_step| |done].
    apply (dig_seq_steps _ fuel cs); [done|by rewrite Hdims| |apply cascade_closed_all|done].
    by apply Forall_true. }
  exists g0, g. split_and!; [done|done|done|].
  rewrite <- all_safe_revealed_count, <- HK. lia.
Qed.

(** X16. Digging where no mine lies never loses. On a game built by
    [new_game_nd] from mines inside the board, after any sequence of
    digs at coordinates of the board that are not mines, cascades
    included, the state is not defeat and no mine is revealed. *)
Theorem safe_digs_never_lose dims bombs cs fuel :
  valid_dims dims → Forall (in_range dims) bombs →
  Forall (in_range dims) cs → Forall (λ c, c ∉ bombs) cs →
  (Z.to_nat (total_cells dims) < fuel)%nat →
  ∃ g0 g, new_game_nd iter_order dims bombs = Ok g0 ∧
          dig_seq iter_order fuel g0 cs = Some (Ok g) ∧
          state g ≠ Defeat ∧ ¬ mine_revealed g.
Proof.
  intros Hvalid Hin Hcs Hsafe Hfuel.
  destruct (new_game_nd_spec iter_order iter_order_perm dims bombs Hvalid Hin)
    as (g0 & Hg0 & _).
  destruct (new_game_nd_start dims bombs g0 Hvalid Hin Hg0)
    as (Hwf & Hdims & Hstate & Hleft & Hcells).
  destruct (dig_seq_invariant iter_order iter_order_perm fuel cs g0) as (g & Hg & _);
    [done|by rewrite Hdims|by rewrite Hdims|].
  assert (cascade_closed g0 (λ c, c ∉ bombs)) as Hclosed.
  { intros c n cell Hc Hnot Hcell Hzero Hn Hadj Hmem. rewrite Hdims in Hc.
    destruct (Hcells c Hc) as (_ & _ & Hcount). rewrite (Hcount Hnot) in Hcell.
    simplify_eq. cbn [py_eq] in Hzero. apply Z.eqb_eq in Hzero.
    unfold adjacent_bombs in Hzero.
    assert (n ∈ filter (λ b, adjacent b c) bombs) as Hfil.
    { apply list_elem_of_filter. split; [by apply adjacent_sym|done]. }
    destruct (filter (λ b, adjacent b c) bombs); [by apply elem_of_nil in Hfil|].
    cbn [length] in Hzero. lia. }
  set (I := λ g1 : Game, wf_game g1 ∧ dimensions g1 = dims ∧ board g1 = board g0 ∧
                         state g1 ≠ Defeat ∧ ¬ mine_revealed g1).
  assert (I g) as (_ & _ & _ & Hs & Hm).
  { eapply (rtc_reveal_invariant (λ c, c ∉ bombs) I g0 g).
    - intros g1 g2 (Hwf1 & Hd1 & Hb1 & Hs1 & Hm1) (c & Hnot & Hc & Hrev).
      destruct (reveal_at_facts g1 c g2 Hwf1 Hc Hrev)
        as (_ & Hwf2 & Hd2 & Hb2 & _ & _ & Hrest & Hcase).
      pose proof Hc as Hc'.
      rewrite Hd1 in Hc. destruct (Hcells c Hc) as (_ & Hmine & _).
      rewrite Hb1, Hmine, bool_decide_eq_false_2 in Hcase by done.
      destruct Hcase as [_ Hst].
      unfold I. split_and!; [done|congruence|congruence| |].
      + rewrite Hst. by destruct (bool_decide _).
      + intros (x & Hx & Hxm & Hxh). apply Hm1. exists x.
        rewrite Hd2 in Hx. rewrite Hb2 in Hxm. split_and!; [done|done|].
        destruct (decide (x = c)) as [->|Hne].
        * rewrite Hb1, Hmine, bool_decide_eq_false_2 in Hxm; done.
        * rewrite <- Hrest; [done|done|done].
    - apply (dig_seq_steps _ fuel cs); [done|by rewrite Hdims|done|done|done].
    - unfold I. split_and!; [done|done|done|by rewrite Hstate|].
      intros (c & Hc & _ & Hh). rewrite Hdims in Hc.
      destruct (Hcells c Hc) as (Hh' & _). congruence. }
  by exists g0, g.
Qed.

(** X17. A board without a free cell cannot be won. When every cell of
    the board is a mine, [new_game_nd] returns an ongoing game whose
    [squares_left] is 0 or less, and no sequence of digs at coordinates
    of the board makes the state victory. *)
Theorem full_board_never_won dims bombs cs fuel :
  valid_dims dims → Forall (in_range dims) bombs →
  Forall (λ c, c ∈ bombs) (all_coords dims) →
  Forall (in_range dims) cs → (Z.to_nat (total_cells dims) < fuel)%nat →
  ∃ g0 g, new_game_nd iter_order dims bombs = Ok g0 ∧
          state g0 = Ongoing ∧ squares_left g0 ≤ 0 ∧
          dig_seq iter_order fuel g0 cs = Some (Ok g) ∧
          state g ≠ Victory.
Proof.
  intros Hvalid Hin Hfull Hcs Hfuel.
  destruct (new_game_nd_spec iter_order iter_order_perm dims bombs Hvalid Hin)
    as (g0 & Hg0 & _).
  destruct (new_game_nd_start dims bombs g0 Hvalid Hin Hg0)
    as (Hwf & Hdims & Hstate & Hleft & Hcells).
  destruct (dig_seq_invariant iter_order iter_order_perm fuel cs g0) as (g & Hg & _);
    [done|by rewrite Hdims|by rewrite Hdims|].
  rewrite Forall_forall in Hfull.
  set (I := λ g1 : Game, wf_game g1 ∧ dimensions g1 = dims ∧ board g1 = board g0 ∧
                         state g1 ≠ Victory).
  assert (I g) as (_ & _ & _ & Hs).
  { eapply (rtc_reveal_invariant (λ _, True) I g0 g).
    - intros g1 g2 (Hwf1 & Hd1 & Hb1 & Hs1) (c & _ & Hc & Hrev).
      destruct (reveal_at_facts g1 c g2 Hwf1 Hc Hrev)
        as (_ & Hwf2 & Hd2 & Hb2 & _ & _ & _ & Hcase).
      rewrite Hd1 in Hc. destruct (Hcells c Hc) as (_ & Hmine & _).
      rewrite Hb1, Hmine, bool_decide_eq_true_2 in Hcase
        by (by apply Hfull, elem_of_all_coords).
      destruct Hcase as [Hst _].
      unfold I. split_and!; [done|congruence|congruence|by rewrite Hst].
    - apply (dig_seq_steps _ fuel cs); [done|by rewrite Hdims| |apply cascade_closed_all|done].
      by apply Forall_true.
    - unfold I. split_and!; [done|done|done|by rewrite Hstate]. }
  exists g0, g. split_and!; [done|done| |done|done].
  rewrite Hleft.
  assert (length (all_coords dims) ≤ length bombs)%nat as Hle.
  { apply submseteq_length, NoDup_submseteq; [apply NoDup_all_coords|done]. }
  rewrite <- length_all_coords by (eapply Forall_impl; [apply Hvalid|]; simpl; lia).
  lia.
Qed.

Lemma nsteps_reveal_stays Q k g g' x :
  wf_game g → nsteps (reveal_step Q) k g g' → in_range (dimensions g) x →
  is_hidden (hidden g) x = false → is_hidden (hidden g') x = false.
Proof.
  intros Hwf Hsteps Hx Hh.
  destruct (nsteps_reveal_count _ _ _ _ Hwf Hsteps) as [_ Hkeep].
  destruct (is_hidden (hidden g') x) eqn:Hh'; [|done].
  rewrite (Hkeep x Hx Hh') in Hh. done.
Qed.

Lemma dig_each_reveals (dig : Game → coord → option (result Z * Game)) :
  (∀ g c n g', wf_game g → in_range (dimensions g) c → dig g c = Some (Ok n, g') →
               (0 ≤ n ∧ nsteps (reveal_step (λ _, True)) (Z.to_nat n) g g') ∧
               (state g' = Ongoing →
                is_hidden (hidden g') c = false ∧ newly_closed g g')) →
  ∀ l g acc n g',
    wf_game g → Forall (in_range (dimensions g)) l →
    dig_each dig l g acc = Some (Ok n, g') → state g' = Ongoing →
    (∀ x, x ∈ l → is_hidden (hidden g') x = false) ∧ newly_closed g g'.
Proof.
  intros Hdig l. induction l as [|c l IH]; intros g acc n g' Hwf Hl Heach Hon.
  { cbn [dig_each] in Heach. simplify_eq. split.
    - intros x Hx. by apply elem_of_nil in Hx.
    - intros z cell x _ Hh Hh'. congruence. }
  apply Forall_cons in Hl as [Hc Hl]. cbn [dig_each] in Heach.
  destruct (dig g c) as [[[k|e] g1]|] eqn:Hg1; [|done..].
  destruct (Hdig g c k g1 Hwf Hc Hg1) as [[Hk Hsteps1] Hrev1].
  destruct (nsteps_reveal_keeps _ _ g g1 Hwf Hsteps1) as (Hwf1 & Hd1 & Hb1).
  destruct (dig_each_steps (λ _, True) dig) with (l := l) (g := g1) (acc := acc + k)
    (n := n) (g' := g') as [_ Hsteps2];
    [intros; by eapply Hdig|done|by rewrite Hd1|by apply Forall_true|
     by intros ?????????|done|].
  pose proof (nsteps_reveal_ongoing _ _ g1 g' Hsteps2 Hon) as Hon1.
  destruct (Hrev1 Hon1) as [Hc1 Hclosed1].
  destruct (IH g1 (acc + k) n g') as [Hl2 Hclosed2]; [done|by rewrite Hd1|done|done|].
  split.
  - intros x [->|Hx]%elem_of_cons; [|by apply Hl2].
    eapply nsteps_reveal_stays; [exact Hwf1|exact Hsteps2|by rewrite Hd1|done].
  - intros z cell x Hz Hh Hh' Hcell Hzero Hx Hadj.
    destruct (is_hidden (hidden g1) z) eqn:Hh1.
    + eapply (Hclosed2 z cell x); rewrite ?Hd1, ?Hb1; done.
    + eapply nsteps_reveal_stays; [exact Hwf1|exact Hsteps2|by rewrite Hd1|].
      by eapply (Hclosed1 z cell x).
Qed.

Lemma dig_nd_reveals fuel : ∀ g c n g',
  wf_game g → in_range (dimensions g) c →
  dig_nd iter_order fuel g c = Some (Ok n, g') → state g' = Ongoing →
  is_hidden (hidden g') c = false ∧ newly_closed g g'.
Proof.
  induction fuel as [|fuel IH]; intros g c n g' Hwf Hc Hdig Hon; [done|].
  cbn [dig_nd] in Hdig. unfold dig_step in Hdig.
  pose proof Hwf as (Hvalid & Hshb & Hshh & Hbool).
  destruct (state g) eqn:Hstate; [|simplify_eq; congruence..].
  destruct (Hbool c Hc) as [b Hhid]. rewrite Hhid in Hdig. cbn [truthy] in Hdig.
  destruct b; cbn [negb] in Hdig.
  2:{ simplify_eq. unfold is_hidden at 1. rewrite Hhid. split; [done|].
      intros z cell x _ Hh Hh'. congruence. }
  destruct (set_val_in_range (dimensions g) (hidden g) c (VBool false))
    as (h' & Hset & _); [apply Hvalid|done|done|].
  destruct (get_val_in_range (dimensions g) (board g) c) as [cell Hcell];
    [apply Hvalid|done|done|].
  rewrite Hset in Hdig. cbn [with_hidden board] in Hdig. rewrite Hcell in Hdig.
  destruct (py_eq cell mine) eqn:Hmine; cbn [negb] in Hdig.
  { by simplify_eq. }
  cbn [with_squares_left with_hidden squares_left dimensions board hidden state
       with_state] in Hdig.
  case_bool_decide as Hzero.
  { by simplify_eq. }
  set (g2 := MkGame (dimensions g) (board g) h' (state g) (squares_left g - 1)) in *.
  assert (reveal_at g c = Some g2) as Hrev.
  { unfold reveal_at. rewrite Hstate, Hhid, Hset, Hcell, Hmine. cbn [truthy].
    by rewrite bool_decide_eq_false_2. }
  destruct (reveal_at_facts g c g2 Hwf Hc Hrev)
    as (_ & Hwf2 & Hd2 & Hb2 & _ & Hafter & Hrest & _).
  destruct (py_eq cell (VInt 0)) eqn:Hcell0.
  - destruct (get_neighors_nd_in_range (dimensions g) c) as (nb & Hnb & _ & Hin);
      [apply Hvalid|done|].
    rewrite Hnb in Hdig.
    destruct (dig_each_reveals (dig_nd iter_order fuel)) with (l := iter_order nb)
      (g := g2) (acc := 1) (n := n) (g' := g') as [Hall Hclosed]; [|done| |done|done|].
    { intros g1 c1 n1 g1' Hwf1 Hc1 Hdig1. split.
      - eapply (dig_nd_steps iter_order iter_order_perm (λ _, True)); [done..| |done].
        by intros ?????????.
      - intros Hon1. by apply (IH g1 c1 n1 g1'). }
    { apply Forall_forall. intros y Hy. rewrite iter_order_perm in Hy.
      by apply Hin in Hy as [? _]. }
    assert (∀ x, in_range (dimensions g) x → adjacent c x →
                 is_hidden (hidden g') x = false) as Hnbs.
    { intros x Hx Hadj. apply Hall. rewrite iter_order_perm. by apply Hin. }
    split; [apply Hnbs; [done|apply adjacent_refl]|].
    intros z cell' x Hz Hh Hh' Hcell' Hzero' Hx Hadj.
    destruct (decide (z = c)) as [->|Hne]; [by apply Hnbs|].
    apply (Hclosed z cell' x); [done| |done..].
    change (hidden g2) with h'. change (is_hidden h' z) with (is_hidden (hidden g2) z).
    by rewrite Hrest.
  - simplify_eq. split; [done|].
    intros z cell' x Hz Hh Hh' Hcell' Hzero' Hx Hadj.
    destruct (decide (z = c)) as [->|Hne]; [congruence|].
    rewrite Hrest in Hh' by done. congruence.
Qed.

(** X18. A dig outside the board. In an ongoing game whose hidden
    mask has the shape of the dimensions, a dig at a coordinate with
    one index per axis, one of them below [-dim] or at least [dim],
    raises [IndexError] and leaves the game as it was. *)
Theorem dig_nd_outside_board fuel g c :
  state g = Ongoing → has_shape (dimensions g) (hidden g) →
  length c = length (dimensions g) → ¬ in_wrap_range (dimensions g) c →
  dig_nd iter_order (S fuel) g c = Some (Raise IndexError, g).
Proof.
  intros Hstate Hsh Hlen Hout. cbn [dig_nd]. unfold dig_step.
  by rewrite Hstate, (get_val_out_of_range (dimensions g)).
Qed.

(** X19. The cascade. A dig inside the board, with a recursion bound
    above the number of hidden cells, returns; if the game is still
    ongoing afterwards, the cell dug is revealed, and around every cell
    with the count 0 that the dig has revealed, every cell of the board
    adjacent to it is revealed as well. *)
Theorem dig_nd_cascade fuel g c :
  wf_game g → in_range (dimensions g) c →
  (length (hidden_cells g) < fuel)%nat →
  ∃ n g', dig_nd iter_order fuel g c = Some (Ok n, g') ∧
          (state g' = Ongoing →
           is_hidden (hidden g') c = false ∧
           ∀ z, in_range (dimensions g) z →
                is_hidden (hidden g) z = true → is_hidden (hidden g') z = false →
                get_val (board g) z = Ok (VInt 0) →
                ∀ x, in_range (dimensions g) x → adjacent z x →
                     is_hidden (hidden g') x = false).
Proof.
  intros Hwf Hc Hfuel.
  destruct (dig_nd_invariant iter_order iter_order_perm fuel g c Hwf Hc Hfuel)
    as (n & g' & Hdig & _).
  exists n, g'. split; [done|]. intros Hon.
  destruct (dig_nd_reveals fuel g c n g' Hwf Hc Hdig Hon) as [Hself Hclosed].
  split; [done|]. intros z Hz Hh Hh' Hcell x Hx Hadj.
  by apply (Hclosed z (VInt 0) x).
Qed.

Lemma dig_seq_zero_closed fuel cs : ∀ g g',
  wf_game g → Forall (in_range (dimensions g)) cs → zero_closed g →
  dig_seq iter_order fuel g cs = Some (Ok g') → state g' = Ongoing →
  zero_closed g'.
Proof.
  induction cs as [|c cs IH]; intros g g' Hwf Hcs Hclosed Hseq Hon.
  { cbn [dig_seq] in Hseq. by simplify_eq. }
  apply Forall_cons in Hcs as [Hc Hcs]. cbn [dig_seq] in Hseq.
  destruct (dig_nd iter_order fuel g c) as [[[n|e] g1]|] eqn:Hdig; [|done..].
  destruct (dig_nd_steps iter_order iter_order_perm (λ _, True) fuel g c n g1)
    as [_ Hsteps]; [done|done|done|apply cascade_closed_all|done|].
  destruct (nsteps_reveal_keeps _ _ _ _ Hwf Hsteps) as (Hwf1 & Hd1 & Hb1).
  assert (rtc (reveal_step (λ _, True)) g1 g') as Hrtc.
  { apply (dig_seq_steps _ fuel cs); [done|by rewrite Hd1| |apply cascade_closed_all|done].
    by apply Forall_true. }
  assert (state g1 = Ongoing) as Hon1.
  { destruct Hrtc as [|g1 g2 g3 (x & _ & _ & Hrev) _]; [done|].
    unfold reveal_at in Hrev. by destruct (state g1). }
  destruct (dig_nd_reveals fuel g c n g1 Hwf Hc Hdig Hon1) as [_ Hnew].
  apply (IH g1); [done|by rewrite Hd1| |done|done].
  intros z cell x Hz Hh Hcell Hzero Hx Hadj. rewrite Hd1 in Hz, Hx. rewrite Hb1 in Hcell.
  destruct (is_hidden (hidden g) z) eqn:Hhz.
  - by apply (Hnew z cell x).
  - eapply nsteps_reveal_stays; [exact Hwf|exact Hsteps|done|].
    by apply (Hclosed z cell x).
Qed.

(** X20. No revealed 0 next to a hidden cell. On a game built by
    [new_game_nd] from mines inside the board, after any sequence of
    digs at coordinates of the board, as long as the game is ongoing
    every revealed cell with the count 0 has all the cells of the board
    adjacent to it revealed. *)
Theorem revealed_zero_is_surrounded dims bombs cs fuel :
  valid_dims dims → Forall (in_range dims) bombs →
  Forall (in_range dims) cs → (Z.to_nat (total_cells dims) < fuel)%nat →
  ∃ g0 g, new_game_nd iter_order dims bombs = Ok g0 ∧
          dig_seq iter_order fuel g0 cs = Some (Ok g) ∧
          (state g = Ongoing →
           ∀ z x, in_range dims z → in_range dims x → adjacent z x →
                  is_hidden (hidden g) z = false →
                  get_val (board g) z = Ok (VInt 0) →
                  is_hidden (hidden g) x = false).
Proof.
  intros Hvalid Hin Hcs Hfuel.
  destruct (new_game_nd_spec iter_order iter_order_perm dims bombs Hvalid Hin)
    as (g0 & Hg0 & _).
  destruct (new_game_nd_start dims bombs g0 Hvalid Hin Hg0)
    as (Hwf & Hdims & Hstate & Hleft & Hcells).
  destruct (dig_seq_invariant iter_order iter_order_perm fuel cs g0)
    as (g & Hg & _ & Hd & _); [done|by rewrite Hdims|by rewrite Hdims|].
  exists g0, g. split_and!; [done|done|]. intros Hon z x Hz Hx Hadj Hh Hcell.
  assert (zero_closed g) as Hclosed.
  { apply (dig_seq_zero_closed fuel cs g0); [done|by rewrite Hdims| |done|done].
    intros z' cell' x' Hz' Hh'. rewrite Hdims in Hz'.
    destruct (Hcells z' Hz') as (Hhid & _). congruence. }
  apply (Hclosed z (VInt 0) x); rewrite ?Hd, ?Hdims; done.
Qed.

End DigMore.

(** * Further properties of the rendering *)

Lemma symbol_ok_unique xray1 xray2 hid1 hid2 cell s1 s2 :
  cell = mine ∨ (∃ n, cell = VInt n) →
  (xray1 = false ∧ hid1 = true ↔ xray2 = false ∧ hid2 = true) →
  symbol_ok xray1 hid1 cell s1 → symbol_ok xray2 hid2 cell s2 → s1 = s2.
Proof.
  intros Hcell Hsame [Hu1 Hs1] [Hu2 Hs2].
  destruct (decide (xray1 = false ∧ hid1 = true)) as [Hshow|Hshow].
  - apply Hu1 in Hshow as Hs. apply Hsame, Hu2 in Hshow. congruence.
  - assert (¬ (xray2 = false ∧ hid2 = true)) as Hshow2 by (by rewrite <- Hsame).
    destruct (Hs1 Hshow) as (Hm1 & Hz1 & Hn1). destruct (Hs2 Hshow2) as (Hm2 & Hz2 & Hn2).
    destruct Hcell as [->|[n ->]]; [by rewrite Hm1, Hm2|].
    destruct (decide (n = 0)) as [->|Hn]; [by rewrite Hz1, Hz2|].
    by rewrite (Hn1 n), (Hn2 n).
Qed.

(** X21. What the rendering depends on. Two games with the same
    dimensions and the same board render alike whenever the same cells
    are to be shown as hidden, that is hidden and without xray. So
    with xray the hidden mask is ignored, and a game with every cell
    revealed renders the same with and without xray. *)
Theorem render_nd_depends_on_shown g1 g2 xray1 xray2 :
  wf_game g1 → wf_game g2 → board_cells (dimensions g1) (board g1) →
  dimensions g2 = dimensions g1 → board g2 = board g1 →
  (∀ c, in_range (dimensions g1) c →
        xray1 = false ∧ is_hidden (hidden g1) c = true ↔
        xray2 = false ∧ is_hidden (hidden g2) c = true) →
  render_nd g1 xray1 = render_nd g2 xray2.
Proof.
  intros (Hvalid & Hshb & Hshh1 & Hbool1) (_ & _ & Hshh2 & Hbool2) Hcells Hd Hb Hsame.
  rewrite Hd in Hshh2, Hbool2.
  assert (Forall (λ d, 0 ≤ d) (dimensions g1)) as Hpos.
  { eapply Forall_impl; [apply Hvalid|]. simpl. lia. }
  destruct (render_grid_spec xray1 (dimensions g1) (board g1) (hidden g1))
    as (r1 & Hr1 & Hshr1 & Hall1); [apply Hvalid|done..| |].
  { intros c Hc. destruct (Hbool1 c Hc) as [hid Hhid]. eauto. }
  destruct (render_grid_spec xray2 (dimensions g1) (board g1) (hidden g2))
    as (r2 & Hr2 & Hshr2 & Hall2); [apply Hvalid|done..| |].
  { intros c Hc. destruct (Hbool2 c Hc) as [hid Hhid]. eauto. }
  unfold render_nd. rewrite Hd, Hb, Hr1, Hr2. do 2 f_equal.
  apply (has_shape_ext (dimensions g1)); [apply Hvalid|done|done|].
  intros c Hc.
  destruct (Hall1 c Hc) as (s1 & hid1 & cell1 & -> & Hh1 & Hc1 & Hok1).
  destruct (Hall2 c Hc) as (s2 & hid2 & cell2 & -> & Hh2 & Hc2 & Hok2).
  assert (cell2 = cell1) as -> by congruence.
  do 2 f_equal. eapply symbol_ok_unique; [| |done|done].
  - destruct (Hcells c Hc) as (cell & Hcell & Hkind).
    assert (cell = cell1) as -> by congruence. done.
  - specialize (Hsame c Hc). unfold is_hidden in Hsame. rewrite Hh1, Hh2 in Hsame.
    destruct hid1, hid2; tauto.
Qed.

Lemma append_cons a (s t : string) : String a s +:+ t = String a (s +:+ t).
Proof. reflexivity. Qed.

Lemma append_assoc (s1 s2 s3 : string) : (s1 +:+ s2) +:+ s3 = s1 +:+ s2 +:+ s3.
Proof. induction s1 as [|a s1 IH]; [done|]. by rewrite !append_cons, IH. Qed.

Lemma append_empty_r (s : string) : s +:+ "" = s.
Proof. induction s as [|a s IH]; [done|]. by rewrite append_cons, IH. Qed.

Lemma foldl_append (text : string) (row : list string) :
  foldl String.append text row = text +:+ row_text row.
Proof.
  unfold row_text. revert text. induction row as [|s row IH]; intros text.
  - cbn [foldl]. by rewrite append_empty_r.
  - cbn [foldl]. rewrite IH, (IH ("" +:+ s)). cbn [String.append].
    by rewrite append_assoc.
Qed.

Lemma foldM_str_add (text : string) (row : list string) :
  foldM str_add text (VStr <$> row) = Ok (foldl String.append text row).
Proof.
  revert text. induction row as [|s row IH]; intros text; [done|].
  cbn [fmap list_fmap foldM foldl str_add]. rewrite bind_ok. apply IH.
Qed.

Lemma render_rows_spec g n (rows : list (list string)) : ∀ index text,
  py_len (board g) = Ok n → index + Z.of_nat (length rows) = n →
  render_rows g index ((λ row, VList (VStr <$> row)) <$> rows) text
  = Ok (text +:+ join_lines (row_text <$> rows)).
Proof.
  intros index text Hlen. revert index text.
  induction rows as [|row rest IH]; intros index text Hidx.
  - cbn [fmap list_fmap render_rows join_lines]. by rewrite append_empty_r.
  - cbn [fmap list_fmap render_rows py_iter]. rewrite bind_ok.
    change (list_fmap string value VStr row) with (VStr <$> row).
    rewrite foldM_str_add, bind_ok, Hlen, bind_ok, foldl_append.
    change (list_fmap (list string) value (λ row0, VList (VStr <$> row0)) rest)
      with ((λ row0, VList (VStr <$> row0)) <$> rest).
    cbn [length] in Hidx.
    rewrite IH by lia.
    change (list_fmap (list string) string row_text rest) with (row_text <$> rest).
    destruct rest as [|row' rest'].
    + rewrite bool_decide_eq_false_2 by (cbn [length] in Hidx; lia).
      cbn [fmap list_fmap join_lines]. by rewrite append_empty_r.
    + rewrite bool_decide_eq_true_2 by (cbn [length] in Hidx; lia).
      cbn [fmap list_fmap join_lines]. by rewrite !append_assoc.
Qed.

Lemma list_of_strs (l : list value) :
  (∀ x, x ∈ l → ∃ s, x = VStr s) → ∃ ss, l = VStr <$> ss.
Proof.
  induction l as [|x l IH]; intros Hall; [by exists []|].
  destruct (Hall x) as [s ->]; [left|].
  destruct IH as [ss ->]; [intros; apply Hall; by right|]. by exists (s :: ss).
Qed.

Lemma list_of_rows (l : list value) (n : nat) :
  (∀ x, x ∈ l → ∃ ss, x = VList (VStr <$> ss) ∧ length ss = n) →
  ∃ rows, l = (λ row, VList (VStr <$> row)) <$> rows ∧
          Forall (λ row, length row = n) rows.
Proof.
  induction l as [|x l IH]; intros Hall; [exists []; by split|].
  destruct (Hall x) as (ss & -> & Hlen); [left|].
  destruct IH as (rows & -> & Hrows); [intros; apply Hall; by right|].
  exists (ss :: rows). split; [done|by constructor].
Qed.

Lemma symbol_rows_of_grid d1 d2 r :
  has_shape [d1; d2] r →
  (∀ c, in_range [d1; d2] c → ∃ s, get_val r c = Ok (VStr s)) →
  ∃ syms, r = symbol_rows syms ∧ length syms = Z.to_nat d1 ∧
          Forall (λ row, length row = Z.to_nat d2) syms.
Proof.
  intros (l & -> & Hl & Hrows) Hcells.
  destruct (list_of_rows l (Z.to_nat d2)) as (syms & -> & Hsyms).
  - intros x Hx. apply list_elem_of_lookup in Hx as [k Hk].
    pose proof (lookup_lt_Some _ _ _ Hk) as Hklt.
    pose proof (Forall_lookup_1 _ _ _ _ Hrows Hk) as (lr & -> & Hlr & _).
    destruct (list_of_strs lr) as [ss ->].
    + intros y Hy. apply list_elem_of_lookup in Hy as [j Hj].
      pose proof (lookup_lt_Some _ _ _ Hj) as Hjlt.
      destruct (Hcells [Z.of_nat k; Z.of_nat j]) as [s Hs].
      { repeat (constructor; [lia|]). constructor. }
      rewrite get_val_cons in Hs.
      destruct (get_item_in_range l (Z.of_nat k)) as (x' & Hx' & Hgx); [lia|].
      rewrite Nat2Z.id in Hx'. rewrite Hgx, bind_ok, get_val_one in Hs.
      assert (x' = VList lr) as -> by congruence.
      destruct (get_item_in_range lr (Z.of_nat j)) as (y' & Hy' & Hgy); [lia|].
      rewrite Nat2Z.id in Hy'. rewrite Hgy in Hs. exists s. congruence.
    + exists ss. split; [done|]. rewrite length_fmap in Hlr. lia.
  - exists syms. rewrite length_fmap in Hl. split_and!; [done|lia|done].
Qed.

(** X22. The board as text. For a well-formed game with two axes whose
    board holds mines and ints, [render_2d_board] returns the symbols
    of [render_2d_locations], each row written out in order and the
    rows separated by one line break, with none after the last row. *)
Theorem render_2d_board_lines g xray num_rows num_cols :
  wf_game g → dimensions g = [num_rows; num_cols] →
  board_cells (dimensions g) (board g) →
  ∃ syms, render_2d_locations g xray = Some (Ok (symbol_rows syms)) ∧
          length syms = Z.to_nat num_rows ∧
          Forall (λ row, length row = Z.to_nat num_cols) syms ∧
          render_2d_board g xray = Some (Ok (join_lines (row_text <$> syms))).
Proof.
  intros (Hvalid & Hshb & Hshh & Hbool) Hdims Hcells.
  assert (Forall (λ d, 0 ≤ d) (dimensions g)) as Hpos.
  { eapply Forall_impl; [apply Hvalid|]. simpl. lia. }
  destruct (render_grid_spec xray (dimensions g) (board g) (hidden g))
    as (r & Hr & Hshr & Hall); [apply Hvalid|done..| |].
  { intros c Hc. destruct (Hbool c Hc) as [hid Hhid]. eauto. }
  rewrite Hdims in Hshr, Hall, Hshb.
  destruct (symbol_rows_of_grid num_rows num_cols r Hshr) as (syms & -> & Hlen & Hrows).
  { intros c Hc. destruct (Hall c Hc) as (s & _ & _ & Hs & _). eauto. }
  exists syms. unfold render_2d_board, render_2d_locations, render_nd. rewrite Hr.
  split_and!; [done..|]. do 2 f_equal.
  unfold symbol_rows. cbn [py_iter]. rewrite bind_ok.
  destruct Hshb as (lb & Hb & Hlb & _).
  rewrite (render_rows_spec g num_rows); [done|by rewrite Hb; cbn [py_len]; rewrite Hlb|].
  rewrite Hdims in Hpos. apply Forall_cons in Hpos as [Hpos _]. lia.
Qed.

(** * Further properties: coordinates that do not fit the board *)

Lemma place_mine_index_error (board : value) (bomb : coord) :
  (∃ l, board = VList l) →
  (b0 ← tuple_get bomb 0; set_item board b0 mine) = Raise IndexError ∨
  ∃ board', (b0 ← tuple_get bomb 0; set_item board b0 mine) = Ok board' ∧
            ∃ l, board' = VList l.
Proof.
  intros [l ->]. destruct (tuple_get_index_error bomb 0) as [->|[b0 ->]]; [by left|].
  rewrite bind_ok. unfold set_item.
  destruct (norm_index (length l) b0) as [k|e] eqn:Hk.
  - right. rewrite bind_ok. eauto.
  - left. unfold norm_index in Hk. repeat case_bool_decide; by simplify_eq.
Qed.

Lemma smaller_bombs_index_error (i : Z) (acc : list coord) (bomb : coord) :
  (b0 ← tuple_get bomb 0;
   Ok (if bool_decide (b0 = i) then acc ++ [tail bomb] else acc)) = Raise IndexError ∨
  ∃ acc', (b0 ← tuple_get bomb 0;
           Ok (if bool_decide (b0 = i) then acc ++ [tail bomb] else acc)) = Ok acc' ∧ True.
Proof.
  destruct (tuple_get_index_error bomb 0) as [->|[b0 ->]]; [by left|].
  right. rewrite bind_ok. eauto.
Qed.

Lemma smaller_bombs_mem (i : Z) bombs : ∀ acc sb,
  foldM (λ acc bomb, b0 ← tuple_get bomb 0;
                     Ok (if bool_decide (b0 = i) then acc ++ [tail bomb] else acc))
        acc bombs = Ok sb →
  (∀ x, x ∈ acc → x ∈ sb) ∧ (∀ t, i :: t ∈ bombs → t ∈ sb).
Proof.
  induction bombs as [|b bombs IH]; intros acc sb Hsb.
  { cbn [foldM] in Hsb. simplify_eq. split; [done|]. intros t Ht. by apply elem_of_nil in Ht. }
  cbn [foldM] in Hsb. destruct b as [|h tl]; [done|].
  rewrite tuple_get_head, !bind_ok in Hsb.
  destruct (IH _ _ Hsb) as [Hacc Hin]. split.
  - intros x Hx. apply Hacc. case_bool_decide; [|done]. apply elem_of_app. by left.
  - intros t [[= -> ->]|Ht]%elem_of_cons; [|by apply Hin].
    apply Hacc. rewrite bool_decide_eq_true_2 by done.
    apply elem_of_app. right. by left.
Qed.

Lemma create_game_0_no_type_error dims : ∀ bombs,
  create_game_0 dims bombs ≠ Raise TypeError.
Proof.
  induction dims as [|d ds IH]; intros bombs; [done|].
  destruct ds as [|d' ds'].
  - cbn [create_game_0].
    destruct (foldM_index_error (λ board, ∃ l, board = VList l)
                (λ board bomb, b0 ← tuple_get bomb 0; set_item board b0 mine)
                bombs (VList (replicate (Z.to_nat d) (VInt 0))))
      as [[->|(board' & -> & _)] _]; [|by eauto|done..].
    intros acc x Hacc. by apply place_mine_index_error.
  - set (dims' := d' :: ds') in *.
    change (create_game_0 (d :: dims') bombs) with
      (games ← forM (seqZ 0 d) (λ i,
          smaller_bombs ← foldM (λ acc bomb,
                                   b0 ← tuple_get bomb 0;
                                   Ok (if bool_decide (b0 = i)
                                       then acc ++ [tail bomb] else acc)) [] bombs;
          create_game_0 dims' smaller_bombs);
       Ok (MkGame (d :: dims') (VList (board <$> games)) (VList (hidden <$> games))
                  Ongoing (total_cells (d :: dims') - Z.of_nat (length bombs)))).
    match goal with |- (forM ?l ?f ≫= _) ≠ _ =>
      destruct (forM_index_error f l) as [Hres _] end.
    { intros i _.
      destruct (foldM_index_error (λ _, True)
                  (λ acc bomb, b0 ← tuple_get bomb 0;
                               Ok (if bool_decide (b0 = i)
                                   then acc ++ [tail bomb] else acc)) bombs [])
        as [[->|(sb & -> & _)] _]; [|done|done|].
      - intros acc x _. apply smaller_bombs_index_error.
      - rewrite bind_ok. apply IH. }
    match goal with |- (?m ≫= _) ≠ _ => destruct m as [games|[]]; done end.
Qed.

Lemma create_game_0_short dims : ∀ bombs b,
  valid_dims dims → b ∈ bombs → short_mine dims b →
  create_game_0 dims bombs = Raise IndexError.
Proof.
  induction dims as [|d ds IH]; intros bombs b [Hne Hpos] Hb [Hlen Hpre]; [done|].
  apply Forall_cons in Hpos as [Hd Hpos].
  destruct ds as [|d' ds'].
  - destruct b as [|b0 t]; [|cbn [length] in Hlen; lia].
    cbn [create_game_0].
    destruct (foldM_index_error (λ board, ∃ l, board = VList l)
                (λ board bomb, b0 ← tuple_get bomb 0; set_item board b0 mine)
                bombs (VList (replicate (Z.to_nat d) (VInt 0))))
      as [_ Hraise]; [|by eauto|].
    { intros acc x Hacc. by apply place_mine_index_error. }
    by rewrite (Hraise [] Hb).
  - set (dims' := d' :: ds') in *.
    change (create_game_0 (d :: dims') bombs) with
      (games ← forM (seqZ 0 d) (λ i,
          smaller_bombs ← foldM (λ acc bomb,
                                   b0 ← tuple_get bomb 0;
                                   Ok (if bool_decide (b0 = i)
                                       then acc ++ [tail bomb] else acc)) [] bombs;
          create_game_0 dims' smaller_bombs);
       Ok (MkGame (d :: dims') (VList (board <$> games)) (VList (hidden <$> games))
                  Ongoing (total_cells (d :: dims') - Z.of_nat (length bombs)))).
    assert (∀ i, foldM (λ acc bomb, b0 ← tuple_get bomb 0;
                                    Ok (if bool_decide (b0 = i)
                                        then acc ++ [tail bomb] else acc)) [] bombs
                 = Raise IndexError ∨
                 ∃ sb, foldM (λ acc bomb, b0 ← tuple_get bomb 0;
                                          Ok (if bool_decide (b0 = i)
                                              then acc ++ [tail bomb] else acc)) [] bombs
                       = Ok sb) as Hsmaller.
    { intros i.
      destruct (foldM_index_error (λ _, True)
                  (λ acc bomb, b0 ← tuple_get bomb 0;
                               Ok (if bool_decide (b0 = i)
                                   then acc ++ [tail bomb] else acc)) bombs [])
        as [[?|(sb & ? & _)] _]; [|done|by left|by eauto].
      intros acc x _. apply smaller_bombs_index_error. }
    match goal with |- (forM ?l ?f ≫= _) = _ =>
      destruct (forM_index_error f l) as [_ Hraise] end.
    { intros i _. destruct (Hsmaller i) as [->|[sb ->]]; [done|].
      rewrite bind_ok. apply create_game_0_no_type_error. }
    destruct b as [|b0 t].
    + rewrite (Hraise 0); [done|apply elem_of_seqZ; lia|].
      destruct (foldM_index_error (λ _, True)
                  (λ acc bomb, b0 ← tuple_get bomb 0;
                               Ok (if bool_decide (b0 = 0)
                                   then acc ++ [tail bomb] else acc)) bombs [])
        as [_ Hbad]; [|done|].
      { intros acc x _. apply smaller_bombs_index_error. }
      by rewrite (Hbad [] Hb).
    + cbn [length take] in Hpre, Hlen. apply Forall2_cons in Hpre as [Hb0 Hpre].
      rewrite (Hraise b0); [done|apply elem_of_seqZ; lia|].
      destruct (Hsmaller b0) as [->|[sb Hsb]]; [done|]. rewrite Hsb, bind_ok.
      apply (IH sb t); [done| |split; [lia|done]].
      by apply (smaller_bombs_mem b0 bombs [] sb Hsb).
Qed.

Section Misfits.

Variable iter_order : list coord → list coord.
Hypothesis iter_order_perm : ∀ s, iter_order s ≡ₚ s.

(** X23. A mine with too few indices. [create_game_0] never raises
    [TypeError], whatever it is given; and when some mine has fewer
    indices than the board has axes, each of them within its axis,
    [create_game_0] and [new_game_nd] raise [IndexError], whatever the
    other mines are. *)
Theorem create_game_0_short_mine dims bombs :
  create_game_0 dims bombs ≠ Raise TypeError ∧
  (valid_dims dims → ∀ b, b ∈ bombs → short_mine dims b →
   create_game_0 dims bombs = Raise IndexError ∧
   new_game_nd iter_order dims bombs = Raise IndexError).
Proof.
  split; [apply create_game_0_no_type_error|].
  intros Hvalid b Hb Hshort.
  pose proof (create_game_0_short dims bombs b Hvalid Hb Hshort) as Hraise.
  split; [done|]. unfold new_game_nd. by rewrite Hraise.
Qed.

(** X24. A dig at negative indices. On a game whose grids have the
    shape of the dimensions, a dig at a coordinate whose indices all
    lie in [-dim, dim-1] does what the dig at the cell counted from the
    end of each axis does, provided that cell does not hold the count
    0 (the neighbors of a cell with the count 0 are computed from the
    indices as given). *)
Theorem dig_nd_negative_index fuel g c :
  has_shape (dimensions g) (board g) → has_shape (dimensions g) (hidden g) →
  in_wrap_range (dimensions g) c →
  (∀ cell, get_val (board g) (wrap_coord (dimensions g) c) = Ok cell →
           py_eq cell (VInt 0) = false) →
  dig_nd iter_order (S fuel) g c
  = dig_nd iter_order (S fuel) g (wrap_coord (dimensions g) c).
Proof.
  intros Hshb Hshh Hc Hnz.
  destruct (grid_access_wrap (dimensions g) (board g) c Hshb Hc) as [Hgb _].
  destruct (grid_access_wrap (dimensions g) (hidden g) c Hshh Hc) as [Hgh Hsh].
  cbn [dig_nd]. unfold dig_step. rewrite Hgh, Hsh.
  destruct (state g); [|done..].
  destruct (get_val (hidden g) (wrap_coord (dimensions g) c)) as [h|e]; [|done].
  destruct (negb (truthy h)); [done|].
  destruct (set_val (hidden g) (wrap_coord (dimensions g) c) (VBool false))
    as [h'|e]; [|done].
  cbn [with_hidden board]. rewrite Hgb.
  destruct (get_val (board g) (wrap_coord (dimensions g) c)) as [cell|e] eqn:Hcell;
    [|done].
  by rewrite (Hnz cell eq_refl).
Qed.

End Misfits.

(** * Concrete instances of the further properties *)

Lemma has_shape_b_correct dims : ∀ v, has_shape_b dims v = true → has_shape dims v.
Proof.
  induction dims as [|d ds IH]; intros v Hv; [done|].
  cbn [has_shape_b] in Hv. destruct v as [| | |l]; try done.
  apply andb_true_iff in Hv as [Hlen Hall]. apply bool_decide_eq_true in Hlen.
  exists l. split_and!; [done|done|].
  apply Forall_forall. intros x Hx. apply IH.
  rewrite forallb_forall in Hall. apply Hall. by apply list_elem_of_In.
Qed.

Lemma wf_game_b_correct g : wf_game_b g = true → wf_game g.
Proof.
  unfold wf_game_b. rewrite !andb_true_iff. intros [[[Hv Hb] Hh] Hc].
  apply bool_decide_eq_true in Hv.
  split_and!; [done|by apply has_shape_b_correct..|].
  intros c Hc'%elem_of_all_coords. rewrite forallb_forall in Hc.
  specialize (Hc c (proj1 (list_elem_of_In _ _) Hc')).
  destruct (get_val (hidden g) c) as [[|b| |]|]; try done. eauto.
Qed.

Lemma set_val_then_get_val_witness : get_val small_grid_9 [-1; 0] = Ok (VInt 9).
Proof. apply (set_val_then_get_val [-1; 0] small_grid (VInt 9)). reflexivity. Defined.

Lemma set_val_frame_witness :
  has_shape [2; 2] small_grid_9 ∧
  ∀ c', in_range [2; 2] c' → c' ≠ [1; 0] → get_val small_grid_9 c' = get_val small_grid c'.
Proof.
  apply (set_val_frame [2; 2] small_grid [1; 0] (VInt 9)).
  - by apply has_shape_b_correct.
  - by_decide.
  - reflexivity.
Defined.

Lemma grid_access_in_two_legs_witness :
  get_val small_grid ([1] ++ [0]) = (sub ← get_val small_grid [1]; get_val sub [0]) ∧
  set_val small_grid ([1] ++ [0]) (VInt 9) =
    (sub ← get_val small_grid [1]; sub' ← set_val sub [0] (VInt 9);
     set_val small_grid [1] sub').
Proof. apply (grid_access_in_two_legs [1] [0] small_grid (VInt 9)); discriminate. Defined.

Lemma update_pos_on_cell_witness :
  (∀ n, get_val small_grid [1; 0] = Ok (VInt n) →
        ∃ v', update_pos small_grid [1; 0] 1 = Ok v' ∧ has_shape [2; 2] v' ∧
              get_val v' [1; 0] = Ok (VInt (n + 1)) ∧
              ∀ c', in_range [2; 2] c' → c' ≠ [1; 0] →
                    get_val v' c' = get_val small_grid c') ∧
  (get_val small_grid [1; 0] = Ok mine → update_pos small_grid [1; 0] 1 = Raise TypeError).
Proof.
  apply (update_pos_on_cell [2; 2] small_grid [1; 0] 1);
    [by apply has_shape_b_correct|by_decide].
Defined.

Lemma get_neighors_nd_arity_witness :
  get_neighors_nd [2; 4] [0; 3; 1] = Raise IndexError ∧
  (∃ l, get_neighors_nd [2; 4; 2] [0; 3] = Ok l) ∧
  get_neighors_nd [2; 4; 2] [0; 3] = get_neighors_nd (take (length [0; 3]) [2; 4; 2]) [0; 3].
Proof.
  split.
  - apply (proj1 (get_neighors_nd_arity [2; 4] [0; 3; 1])). right. simpl. lia.
  - apply (proj2 (get_neighors_nd_arity [2; 4; 2] [0; 3])); [done|simpl; lia].
Defined.

Lemma get_neighors_nd_any_location_witness :
  ∃ l, get_neighors_nd [2; 4] [0; 7] = Ok l ∧ NoDup l ∧
       ∀ n, n ∈ l ↔ Forall3 axis_choice [2; 4] [0; 7] n.
Proof. apply (get_neighors_nd_any_location [2; 4] [0; 7]); done. Defined.

Lemma get_neighors_nd_symmetric_witness :
  [1; 2] ∈ corner_neighbors ↔ [0; 3] ∈ inner_neighbors.
Proof.
  apply (get_neighors_nd_symmetric [2; 4] [0; 3] [1; 2]);
    [by_decide|by_decide|reflexivity|reflexivity].
Defined.

Lemma get_neighors_nd_size_witness :
  (1 ≤ length corner_neighbors ≤ 3 ^ length (dimensions example_game))%nat.
Proof.
  apply (get_neighors_nd_size [2; 4] [0; 3] corner_neighbors); [by_decide|reflexivity].
Defined.

Lemma create_game_0_builds_witness :
  ∃ g, create_game_0 [2; 4] example_bombs = Ok g ∧ fresh_game [2; 4] example_bombs g.
Proof. apply (create_game_0_builds [2; 4] example_bombs); by_decide. Defined.

Lemma new_game_nd_initial_witness :
  new_game_nd identity_order [2; 4] example_bombs
  = new_game_nd reverse [2; 4] example_bombs ∧
  ∃ g, new_game_nd identity_order [2; 4] example_bombs = Ok g ∧
       dimensions g = [2; 4] ∧ state g = Ongoing ∧
       has_shape [2; 4] (board g) ∧ has_shape [2; 4] (hidden g) ∧
       ∀ c, in_range [2; 4] c → get_val (hidden g) c = Ok (VBool true).
Proof.
  apply (new_game_nd_initial identity_order identity_order_perm reverse
           [2; 4] example_bombs); [apply reverse_Permutation|by_decide|by_decide].
Defined.

Lemma update_bombs_nd_adds_counts_witness :
  ∃ b', update_bombs_nd identity_order example_board_0 example_bombs [2; 4] = Ok b' ∧
        counted [2; 4] example_bombs (λ c, 0 + adjacent_bombs example_bombs c) b'.
Proof.
  destruct (create_game_0_spec [2; 4] example_bombs)
    as (g & Hg & _ & _ & _ & Hsh & _ & Hcells); [by_decide|by_decide|].
  assert (Ok g = Ok (MkGame [2; 4] example_board_0
                            (grid_2x4 true true true true true true true true)
                            Ongoing 5))
    as [= ->] by (rewrite <- Hg; reflexivity).
  apply (update_bombs_nd_adds_counts identity_order identity_order_perm
           [2; 4] example_bombs (λ _, 0) example_board_0); [done| |by_decide].
  split; [exact Hsh|]. intros c Hc. by destruct (Hcells c Hc).
Defined.

Lemma dig_nd_return_value_witness :
  ∃ n g', dig_nd identity_order 9 example_game [0; 3] = Some (Ok n, g') ∧
          dimensions g' = dimensions example_game ∧ board g' = board example_game ∧
          (∀ x, in_range (dimensions example_game) x →
                is_hidden (hidden g') x = true →
                is_hidden (hidden example_game) x = true) ∧
          n = Z.of_nat (length (hidden_cells example_game))
              - Z.of_nat (length (hidden_cells g')).
Proof.
  apply (dig_nd_return_value identity_order identity_order_perm 9 example_game [0; 3]);
    [by apply wf_game_b_correct|by_decide|by_decide].
Defined.

Lemma game_state_tracks_board_witness :
  ∃ g0 g, new_game_nd identity_order [2; 4] example_bombs = Ok g0 ∧
          dig_seq identity_order 9 g0 [[0; 3]; [0; 0]] = Some (Ok g) ∧
          (state g = Defeat ↔ mine_revealed g) ∧
          (state g = Victory ↔ all_safe_revealed g).
Proof.
  apply (game_state_tracks_board identity_order identity_order_perm
           [2; 4] example_bombs [[0; 3]; [0; 0]] 9); by_decide.
Defined.

Lemma safe_digs_never_lose_witness :
  ∃ g0 g, new_game_nd identity_order [2; 4] example_bombs = Ok g0 ∧
          dig_seq identity_order 9 g0 [[0; 3]; [0; 1]] = Some (Ok g) ∧
          state g ≠ Defeat ∧ ¬ mine_revealed g.
Proof.
  apply (safe_digs_never_lose identity_order identity_order_perm
           [2; 4] example_bombs [[0; 3]; [0; 1]] 9); by_decide.
Defined.

Lemma full_board_never_won_witness :
  ∃ g0 g, new_game_nd identity_order [1; 2] [[0; 0]; [0; 1]] = Ok g0 ∧
          state g0 = Ongoing ∧ squares_left g0 ≤ 0 ∧
          dig_seq identity_order 3 g0 [[0; 1]; [0; 0]] = Some (Ok g) ∧
          state g ≠ Victory.
Proof.
  apply (full_board_never_won identity_order identity_order_perm
           [1; 2] [[0; 0]; [0; 1]] [[0; 1]; [0; 0]] 3); by_decide.
Defined.

Lemma dig_nd_outside_board_witness :
  dig_nd identity_order 1 example_game [2; 0] = Some (Raise IndexError, example_game).
Proof.
  apply (dig_nd_outside_board identity_order 0 example_game [2; 0]);
    [reflexivity|by apply has_shape_b_correct|reflexivity|by_decide].
Defined.

Lemma dig_nd_cascade_witness :
  ∃ n g', dig_nd identity_order 9 example_game [0; 3] = Some (Ok n, g') ∧
          (state g' = Ongoing →
           is_hidden (hidden g') [0; 3] = false ∧
           ∀ z, in_range (dimensions example_game) z →
                is_hidden (hidden example_game) z = true →
                is_hidden (hidden g') z = false →
                get_val (board example_game) z = Ok (VInt 0) →
                ∀ x, in_range (dimensions example_game) x → adjacent z x →
                     is_hidden (hidden g') x = false).
Proof.
  apply (dig_nd_cascade identity_order identity_order_perm 9 example_game [0; 3]);
    [by apply wf_game_b_correct|by_decide|by_decide].
Defined.

Lemma render_nd_depends_on_shown_witness :
  render_nd example_game true = render_nd example_game_dug true.
Proof.
  destruct (new_game_nd_wf identity_order identity_order_perm [2; 4] example_bombs
              example_game) as [Hwf Hcells]; [by_decide|by_decide|reflexivity|].
  apply (render_nd_depends_on_shown example_game example_game_dug true true);
    [done|by apply wf_game_b_correct|done|reflexivity|reflexivity|].
  intros c _. split; intros [? _]; done.
Defined.

Lemma render_2d_board_lines_witness :
  ∃ syms, render_2d_locations example_game false = Some (Ok (symbol_rows syms)) ∧
          length syms = Z.to_nat 2 ∧
          Forall (λ row, length row = Z.to_nat 4) syms ∧
          render_2d_board example_game false = Some (Ok (join_lines (row_text <$> syms))).
Proof.
  destruct (new_game_nd_wf identity_order identity_order_perm [2; 4] example_bombs
              example_game) as [Hwf Hcells]; [by_decide|by_decide|reflexivity|].
  exact (render_2d_board_lines example_game false 2 4 Hwf eq_refl Hcells).
Defined.

Lemma grid_access_too_deep_witness :
  get_val example_board ([0; 1] ++ [0]) = Raise TypeError ∧
  get_val example_board ([0; 0] ++ [0]) = Ok mine.
Proof.
  destruct (grid_access_too_deep example_board [0; 1] [0]) as [Hint _]; [discriminate|].
  destruct (grid_access_too_deep example_board [0; 0] [0]) as [_ Hmine]; [discriminate|].
  split; [by destruct (Hint 3 eq_refl)|by destruct (Hmine eq_refl)].
Defined.

Lemma revealed_zero_is_surrounded_witness :
  ∃ g0 g, new_game_nd identity_order [2; 4] example_bombs = Ok g0 ∧
          dig_seq identity_order 9 g0 [[0; 3]] = Some (Ok g) ∧
          (state g = Ongoing →
           ∀ z x, in_range [2; 4] z → in_range [2; 4] x → adjacent z x →
                  is_hidden (hidden g) z = false →
                  get_val (board g) z = Ok (VInt 0) →
                  is_hidden (hidden g) x = false).
Proof.
  apply (revealed_zero_is_surrounded identity_order identity_order_perm
           [2; 4] example_bombs [[0; 3]] 9); by_decide.
Defined.

Lemma create_game_0_short_mine_witness :
  create_game_0 [2; 4] [[0; 0]; [1]] = Raise IndexError ∧
  new_game_nd identity_order [2; 4] [[0; 0]; [1]] = Raise IndexError.
Proof.
  apply (proj2 (create_game_0_short_mine identity_order [2; 4] [[0; 0]; [1]]))
    with (b := [1]); by_decide.
Defined.

Lemma dig_nd_negative_index_witness :
  dig_nd identity_order 1 example_game [-1; 1]
  = dig_nd identity_order 1 example_game (wrap_coord (dimensions example_game) [-1; 1]).
Proof.
  apply (dig_nd_negative_index identity_order 0 example_game [-1; 1]);
    [by apply has_shape_b_correct|by apply has_shape_b_correct|by_decide|].
  intros cell [= <-]. reflexivity.
Defined.
